(** * nodewatcher: the datastream field / stream engine

    A shallow embedding of
    [nodewatcher/modules/monitor/datastream/fields.py] (Python 2) and the
    properties its specification states about it.

    Layout: Python values and builtins, the object heap that holds the
    mutable tag dictionaries, the external collaborators (descriptor,
    descriptor pool, stream store), the classes of [fields.py] method by
    method, concrete instances used in examples, and then the theorems. *)

From Stdlib Require Import ZArith String Ascii List Bool Lia.
From Stdlib Require Import Floats.SpecFloat.
From stdpp Require Import gmap strings list fin_maps.

Open Scope string_scope.
Open Scope list_scope.
Open Scope nat_scope.
#[local] Set Warnings "-register-all".

(** ** Python values *)

(** The [transform] argument of a [TagReference]: [None], a string
    template, or a callable (named by an index into the runtime's table
    of callables). *)
Inductive transform : Type :=
| NoTransform
| Template (t : string)
| Callable (c : nat).

(** Immutable Python values ([atom]) and dictionary literals ([pyval]).
    A [PDict] lists the items of a dict in iteration order; Python dicts
    have no duplicate keys, which [wf_dict] states where it matters.
    Floats are IEEE-754 binary64 values in the Standard Library's
    [spec_float] representation. *)
Inductive atom : Type :=
| ANone
| ABool (b : bool)
| AInt (z : Z)
| AFloat (f : spec_float)
| AStr (s : string)
| AList (l : list pyval)
| ATagRef (tags : list string) (tr : transform)
with pyval : Type :=
| PAtom (a : atom)
| PDict (m : list (string * pyval)).

Definition PNone : pyval := PAtom ANone.
Definition PTrue : pyval := PAtom (ABool true).
Definition PInt (z : Z) : pyval := PAtom (AInt z).
Definition PStr (s : string) : pyval := PAtom (AStr s).
Definition PFloat (f : spec_float) : pyval := PAtom (AFloat f).
Definition PList (l : list pyval) : pyval := PAtom (AList l).

(** Exceptions raised by the code or by the builtins it calls. *)
Inductive exn : Type :=
| ValueError (msg : string)
| KeyError (key : string)
| TypeError
| AttributeError
| OverflowError
| RuntimeError
| ImproperlyConfigured (msg : string)
| InconsistentStreamConfiguration
| StoreFailure (code : nat).

Inductive outcome (A : Type) : Type :=
| Return (a : A)
| Raise (e : exn).
Arguments Return {A} a.
Arguments Raise {A} e.

Definition obind {A B} (o : outcome A) (k : A → outcome B) : outcome B :=
  match o with
  | Return a => k a
  | Raise e => Raise e
  end.

Fixpoint omapM {A B} (f : A → outcome B) (l : list A) : outcome (list B) :=
  match l with
  | [] => Return []
  | x :: l' => obind (f x) (λ y, obind (omapM f l') (λ ys, Return (y :: ys)))
  end.

(** *** Strings: [str.split] with a one-character separator *)

Fixpoint split (sep : ascii) (s : string) : list string :=
  match s with
  | EmptyString => [EmptyString]
  | String c s' =>
      if Ascii.eqb c sep then EmptyString :: split sep s'
      else match split sep s' with
           | [] => [String c EmptyString]
           | w :: ws => String c w :: ws
           end
  end.


Fixpoint chars (s : string) : list string :=
  match s with
  | EmptyString => []
  | String c s' => String c EmptyString :: chars s'
  end.

(** *** The builtin [int()]

    [int(x)] for the value kinds of the model. Text is read in base 10:
    optional surrounding ASCII white space, an optional sign, then at
    once one or more decimal digits and nothing else. A float is
    truncated towards zero. *)

Definition is_space (c : ascii) : bool :=
  let n := N_of_ascii c in
  (N.eqb n 32 || (N.leb 9 n && N.leb n 13))%bool.

Definition digit_of (c : ascii) : option Z :=
  let n := Z.of_N (N_of_ascii c) in
  if (Z.leb 48 n && Z.leb n 57)%bool then Some (n - 48)%Z else None.

Fixpoint lstrip (s : string) : string :=
  match s with
  | String c s' => if is_space c then lstrip s' else s
  | EmptyString => s
  end.

Fixpoint all_space (s : string) : bool :=
  match s with
  | String c s' => (is_space c && all_space s')%bool
  | EmptyString => true
  end.

Fixpoint parse_digits (s : string) (acc : Z) : option Z :=
  match s with
  | EmptyString => Some acc
  | String c s' =>
      match digit_of c with
      | Some d => parse_digits s' (10 * acc + d)%Z
      | None => if all_space s then Some acc else None
      end
  end.

Definition parse_int (s : string) : option Z :=
  let s1 := lstrip s in
  let '(neg, s2) :=
    match s1 with
    | String "-" r => (true, r)
    | String "+" r => (false, r)
    | _ => (false, s1)
    end in
  match s2 with
  | String c _ =>
      match digit_of c with
      | Some _ => (λ n, if neg : bool then (- n)%Z else n) <$> parse_digits s2 0
      | None => None
      end
  | EmptyString => None
  end.

Definition float_trunc (f : spec_float) : outcome Z :=
  match f with
  | S754_zero _ => Return 0%Z
  | S754_infinity _ => Raise OverflowError
  | S754_nan => Raise (ValueError "cannot convert float NaN to integer")
  | S754_finite s m e =>
      let a := if Z.leb 0 e then (Z.pos m * 2 ^ e)%Z
               else (Z.pos m / 2 ^ (- e))%Z in
      Return (if s then (- a)%Z else a)
  end.

Definition py_int (v : pyval) : outcome Z :=
  match v with
  | PAtom (ABool b) => Return (if b then 1 else 0)%Z
  | PAtom (AInt z) => Return z
  | PAtom (AFloat f) => float_trunc f
  | PAtom (AStr s) =>
      match parse_int s with
      | Some z => Return z
      | None => Raise (ValueError "invalid literal for int() with base 10")
      end
  | _ => Raise TypeError
  end.

(** Iterating a value, as a [for] loop or comprehension does: a list
    yields its elements, a string its characters, a dict its keys. *)
Definition py_iter (v : pyval) : outcome (list pyval) :=
  match v with
  | PAtom (AList l) => Return l
  | PAtom (AStr s) => Return (PStr <$> chars s)
  | PDict m => Return ((λ kv, PStr kv.1) <$> m)
  | _ => Raise TypeError
  end.

(** *** Dict literals: lookup, item assignment, [x[y]] *)

Fixpoint dict_get {A} (k : string) (m : list (string * A)) : option A :=
  match m with
  | [] => None
  | (k', v) :: m' => if String.eqb k k' then Some v else dict_get k m'
  end.

(** [m[k] = v]: an existing key keeps its position, a new key goes last. *)
Fixpoint dict_set {A} (k : string) (v : A) (m : list (string * A))
  : list (string * A) :=
  match m with
  | [] => [(k, v)]
  | (k', v') :: m' =>
      if String.eqb k k' then (k, v) :: m' else (k', v') :: dict_set k v m'
  end.

(** [del m[k]]. *)
Fixpoint dict_del {A} (k : string) (m : list (string * A)) : list (string * A) :=
  match m with
  | [] => []
  | (k', v') :: m' =>
      if String.eqb k k' then dict_del k m' else (k', v') :: dict_del k m'
  end.

(** [dict(items)] and [d.update(items)]. *)
Definition dict_update (m : list (string * pyval)) (items : list (string * pyval))
  : list (string * pyval) :=
  fold_left (λ acc kv, dict_set kv.1 kv.2 acc) items m.

Definition dict_of_items (items : list (string * pyval)) : list (string * pyval) :=
  dict_update [] items.

(** [x[y]] with a string subscript. *)
Definition getitem (x : pyval) (y : string) : outcome pyval :=
  match x with
  | PDict m =>
      match dict_get y m with
      | Some v => Return v
      | None => Raise (KeyError y)
      end
  | _ => Raise TypeError
  end.

(** [reduce(lambda x, y: x[y], path, start)]. *)
Fixpoint reduce_getitem (path : list string) (x : pyval) : outcome pyval :=
  match path with
  | [] => Return x
  | y :: path' => obind (getitem x y) (reduce_getitem path')
  end.

(** Dict literals without duplicate keys, at every level. *)
Fixpoint wf_dict (p : pyval) : bool :=
  match p with
  | PAtom _ => true
  | PDict m =>
      bool_decide (NoDup m.*1) && forallb (λ kv, wf_dict kv.2) m
  end.

(** The levels of dicts in a literal. *)
Fixpoint dict_depth (p : pyval) : nat :=
  match p with
  | PAtom _ => 0
  | PDict m => S (foldr (λ kv n, Nat.max (dict_depth kv.2) n) 0 m)
  end.

(** ** State and exceptions

    A computation takes a state and gives an outcome and the state it
    left behind: what was written before an exception stays written. *)

Definition SE (S A : Type) : Type := S → outcome A * S.

#[global] Instance se_ret S : MRet (SE S) := λ A a s, (Return a, s).

#[global] Instance se_bind S : MBind (SE S) := λ A B k m s,
  match m s with
  | (Return a, s') => k a s'
  | (Raise e, s') => (Raise e, s')
  end.

Definition raise {S A} (e : exn) : SE S A := λ s, (Raise e, s).

Definition lift_outcome {S A} (o : outcome A) : SE S A := λ s, (o, s).

(** [for k, v in items: body(k, v)]. *)
Definition for_items {S A} (body : string → A → SE S unit)
  : list (string * A) → SE S unit :=
  fix loop m :=
    match m with
    | [] => mret ()
    | (k, v) :: rest => _ ← body k v; loop rest
    end.

(** [out = []; for x in xs: out.append(body(x))]. *)
Definition for_each {S A B} (body : A → SE S B) : list A → SE S (list B) :=
  fix loop xs :=
    match xs with
    | [] => mret []
    | x :: rest => y ← body x; ys ← loop rest; mret (y :: ys)
    end.

(** ** The object heap

    The tag dictionaries of a field are mutable objects that the code
    passes around by reference, so they live in a heap: a location holds
    a dict from tag names to values, and a value is an immutable atom or
    a reference to another dict. Locations are never freed; a new dict
    takes the next free location. *)

Definition loc : Type := nat.

Inductive val : Type :=
| VAtom (a : atom)
| VRef (l : loc).

Abbreviation heap := (list (gmap string val)).

Definition new_dict (d : gmap string val) : SE heap val :=
  λ h, (Return (VRef (length h)), h ++ [d]).

(** [isinstance(v, collections.Mapping)]. *)
Definition is_mapping (v : val) : bool :=
  match v with
  | VRef _ => true
  | VAtom _ => false
  end.

(** [d.get(k, {})]: the value under [k], or else a new empty dict. *)
Definition get_or_new (d : val) (k : string) : SE heap val :=
  match d with
  | VRef l => λ h,
      match (h !!! l) !! k with
      | Some v => (Return v, h)
      | None => new_dict ∅ h
      end
  | VAtom _ => raise AttributeError
  end.

(** [d.setdefault(k, {})]. *)
Definition setdefault_new (d : val) (k : string) : SE heap val :=
  match d with
  | VRef l => λ h,
      match (h !!! l) !! k with
      | Some v => (Return v, h)
      | None =>
          (Return (VRef (length h)),
           <[l := <[k := VRef (length h)]> (h !!! l)]> (h ++ [∅]))
      end
  | VAtom _ => raise AttributeError
  end.

(** [d[k] = v]. *)
Definition setitem (d : val) (k : string) (v : val) : SE heap unit :=
  match d with
  | VRef l => λ h, (Return (), <[l := <[k := v]> (h !!! l)]> h)
  | VAtom _ => raise TypeError
  end.

(** [del d[k]]. *)
Definition delitem (d : val) (k : string) : SE heap unit :=
  match d with
  | VRef l => λ h,
      match (h !!! l) !! k with
      | Some _ => (Return (), <[l := delete k (h !!! l)]> h)
      | None => (Raise (KeyError k), h)
      end
  | VAtom _ => raise TypeError
  end.

(** [k in d] and [d[k]] for a dict [d]. *)
Definition contains_key (d : val) (k : string) : SE heap bool :=
  match d with
  | VRef l => λ h, (Return (bool_decide (is_Some ((h !!! l) !! k))), h)
  | VAtom _ => raise TypeError
  end.

Definition getitem_dict (d : val) (k : string) : SE heap val :=
  match d with
  | VRef l => λ h,
      match (h !!! l) !! k with
      | Some v => (Return v, h)
      | None => (Raise (KeyError k), h)
      end
  | VAtom _ => raise TypeError
  end.

(** [not v]. *)
Definition atom_falsy (a : atom) : bool :=
  match a with
  | ANone => true
  | ABool b => negb b
  | AInt z => Z.eqb z 0
  | AFloat (S754_zero _) => true
  | AFloat _ => false
  | AStr s => String.eqb s ""
  | AList [] => true
  | AList _ => false
  | ATagRef _ _ => false
  end.

Definition falsy (v : val) : SE heap bool :=
  match v with
  | VRef l => λ h, (Return (bool_decide (h !!! l = ∅)), h)
  | VAtom a => mret (atom_falsy a)
  end.

(** Building a dict literal in the heap: the values of the items first,
    in their order, then the dict that holds them. *)
Definition alloc_items (alloc : pyval → heap → val * heap)
  : list (string * pyval) → gmap string val → heap → gmap string val * heap :=
  fix items m d h :=
    match m with
    | [] => (d, h)
    | (k, x) :: m' => let '(v, h1) := alloc x h in items m' (<[k := v]> d) h1
    end.

Fixpoint alloc (p : pyval) (h : heap) {struct p} : val * heap :=
  match p with
  | PAtom a => (VAtom a, h)
  | PDict m =>
      let '(d, h1) := alloc_items alloc m ∅ h in
      (VRef (length h1), h1 ++ [d])
  end.

Definition alloc_dict (m : list (string * pyval)) : SE heap val :=
  λ h, (Return (alloc (PDict m) h).1, (alloc (PDict m) h).2).

(** [copy.deepcopy(v)]: atoms are immutable and stay as they are, a dict
    is copied item by item into a new dict. [depth] is the recursion
    depth that is left. *)
Definition deepcopy_item (copy : val → heap → outcome val * heap) (k : string)
    (x : val) (acc : outcome (gmap string val) * heap)
  : outcome (gmap string val) * heap :=
  match acc with
  | (Return d, h1) =>
      match copy x h1 with
      | (Return x', h2) => (Return (<[k := x']> d), h2)
      | (Raise e, h2) => (Raise e, h2)
      end
  | (Raise e, h1) => (Raise e, h1)
  end.

Fixpoint deepcopy (depth : nat) (v : val) (h : heap) : outcome val * heap :=
  match v with
  | VAtom a => (Return v, h)
  | VRef l =>
      match depth with
      | O => (Raise RuntimeError, h)
      | S depth' =>
          match map_fold (deepcopy_item (deepcopy depth')) (Return ∅, h) (h !!! l) with
          | (Return d, h1) => (Return (VRef (length h1)), h1 ++ [d])
          | (Raise e, h1) => (Raise e, h1)
          end
      end
  end.

(** ** Descriptors, fields and the stream store *)

Definition model : Type := nat.
Definition stream_id : Type := nat.

(** A streams descriptor wraps one model object. Its class is outside
    this module; a descriptor is what its methods answer. Each call of
    [get_stream_tags] and [get_stream_query_tags] gives a new dict. *)
Record descriptor : Type := {
  get_model : model;
  get_stream_tags : list (string * pyval);
  get_stream_query_tags : list (string * pyval);
  get_stream_highest_granularity : string;
  resolve_model_reference : string → outcome model
}.

(** The [attribute] argument of a field: an attribute name or a callable. *)
Inductive attribute_source : Type :=
| AttrName (n : string)
| AttrCallable (c : nat).

(** The attributes that [Field.__init__] sets. *)
Record field_base : Type := {
  name : option string;
  attribute : option attribute_source;
  custom_tags : val;
  default_tags : val;
  value_downsamplers : option (list string);
  value_type : string
}.

(** The classes that only override [prepare_value] and [prepare_tags]. *)
Inductive field_class : Type :=
| CField
| CIntegerField
| CCounterField
| CFloatField
| CMultiPointField
| CGraphField
| CNominalField
| CIntegerNominalField
| CIntegerArrayNominalField.

(** An entry [{'name': ..., 'field': ...}] of [DerivedField.streams]. *)
Record field_ref : Type := {
  ref_name : option string;
  ref_field : string
}.

(** A field object: a plain field of some class, a [DerivedField]
    ([ResetField] and [RateField] only differ in their constructor), or
    a [DynamicSumField] with its list [_fields]. *)
Inductive field : Type :=
| PlainField (cls : field_class) (b : field_base)
| DerivedField (b : field_base) (streams : list field_ref) (op : string)
    (op_arguments : list (string * pyval))
| DynamicSumField (b : field_base) (_fields : list (field * descriptor)).

Definition base (f : field) : field_base :=
  match f with
  | PlainField _ b => b
  | DerivedField b _ _ _ => b
  | DynamicSumField b _ => b
  end.

(** An entry of [derive_from]: [ds_name] is [None] when the entry has no
    ['name'] key, and [Some None] when the name is Python's [None]. *)
Record derive_source : Type := {
  ds_name : option (option string);
  ds_stream : option stream_id
}.

(** The arguments of one [stream.ensure_stream] call; an optional
    argument that the call does not pass is [None]. *)
Record ensure_request : Type := {
  req_query_tags : list (string * pyval);
  req_tags : pyval;
  req_downsamplers : option (list string);
  req_highest_granularity : string;
  req_value_type : string;
  req_derive_from : option (list derive_source);
  req_derive_op : option string;
  req_derive_args : option (list (string * pyval));
  req_derive_backprocess : option bool
}.

(** What reaches the store. *)
Inductive store_call : Type :=
| CallEnsure (r : ensure_request)
| CallAppend (sid : stream_id) (value : pyval) (timestamp : option Z)
| CallDelete (query_tags : list (string * pyval)).

(** The datastream API, over any store state. *)
Record store_api (St : Type) : Type := {
  api_ensure_stream : ensure_request → St → outcome stream_id * St;
  api_append : stream_id → pyval → option Z → St → outcome unit * St;
  api_delete_streams : list (string * pyval) → St → outcome unit * St
}.
Arguments api_ensure_stream {St}.
Arguments api_append {St}.
Arguments api_delete_streams {St}.

(** The rest of the world of the module: the descriptor pool, the field
    map of a descriptor, attribute access on model objects, the callables
    that fields and tag references hold, and the builtins [%], [float()]
    and [dict()]. *)
Record environment : Type := {
  pool_get_descriptor : model → outcome descriptor;
  descriptor_get_field : descriptor → string → option field;
  model_getattr : model → string → outcome pyval;
  call_attribute : nat → model → outcome pyval;
  call_transform : nat → model → list (string * pyval) → outcome pyval;
  py_format : string → list (string * pyval) → outcome pyval;
  py_float : pyval → outcome pyval;
  py_dict : pyval → outcome pyval
}.

Record world (St : Type) : Type := {
  w_heap : heap;
  w_store : St;
  w_trace : list store_call
}.
Arguments w_heap {St}.
Arguments w_store {St}.
Arguments w_trace {St}.

(** ** [Field.set_tags] and [Field.reset_tags_to_default] *)

(** The inner function [update(d, u)] of [set_tags]. *)
Fixpoint update (u : pyval) (d : val) {struct u} : SE heap val :=
  match u with
  | PDict m =>
      _ ← for_items (λ k v,
             match v with
             | PDict _ =>
                 d' ← get_or_new d k;
                 r ← update v d';
                 setitem d k r
             | PAtom a => setitem d k (VAtom a)
             end) m;
      mret d
  | PAtom _ => mret d
  end.

Definition set_tags (b : field_base) (tags : list (string * pyval)) : SE heap unit :=
  _ ← update (PDict tags) (custom_tags b); mret ().

(** The inner function [reset_tags(tags, current_tags, default_tags)]. *)
Fixpoint reset_tags (tags : pyval) (current_tags default_tags : val)
  {struct tags} : SE heap unit :=
  match tags with
  | PDict m =>
      for_items (λ tag value,
        match value with
        | PDict _ =>
            default_value ← get_or_new default_tags tag;
            if is_mapping default_value then
              current_value ← setdefault_new current_tags tag;
              _ ← reset_tags value current_value default_value;
              empty ← falsy current_value;
              if empty : bool then delitem current_tags tag else mret ()
            else mret ()
        | PAtom (ABool true) =>
            present ← contains_key default_tags tag;
            if present : bool then
              v ← getitem_dict default_tags tag;
              setitem current_tags tag v
            else delitem current_tags tag
        | PAtom _ =>
            raise (ValueError
              "Reset tag value should be either a dictionary or a boolean True.")
        end) m
  | PAtom _ => mret ()
  end.

Definition reset_tags_to_default (b : field_base) (tags : list (string * pyval))
  : SE heap unit :=
  reset_tags (PDict tags) (custom_tags b) (default_tags b).

(** The selectors that name the keys of a [set_tags] argument: the same
    nested keys, every leaf replaced by [True]. *)
Fixpoint selectors (u : pyval) : pyval :=
  match u with
  | PDict m => PDict ((λ kv, (kv.1, selectors kv.2)) <$> m)
  | PAtom _ => PTrue
  end.

Definition selector_items (tags : list (string * pyval)) : list (string * pyval) :=
  (λ kv, (kv.1, selectors kv.2)) <$> tags.

(** What the tags of a field are: the heap value [v] stands for the dict
    literal [t] when they hold the same atoms under the same keys, level
    by level. *)
Fixpoint represents (h : heap) (v : val) (t : pyval) {struct t} : Prop :=
  match t with
  | PAtom a => v = VAtom a
  | PDict m =>
      ∃ l d, v = VRef l ∧ h !! l = Some d ∧
        (∀ k, d !! k = None ↔ dict_get k m = None) ∧
        (fix items (m : list (string * pyval)) : Prop :=
           match m with
           | [] => True
           | (k, t') :: m' =>
               (∃ v', d !! k = Some v' ∧ represents h v' t') ∧ items m'
           end) m
  end.

(** Overrides that [set_tags] can apply to tags [tags] and that
    [reset_tags_to_default] can take back: a nested mapping is only put
    where the tags hold a nested mapping that is not empty, or nothing. *)
Fixpoint restorable (tags : list (string * pyval)) (u : pyval) {struct u} : bool :=
  match u with
  | PAtom _ => true
  | PDict m =>
      forallb (λ kv,
        match kv.2 with
        | PAtom _ => true
        | PDict _ =>
            match dict_get kv.1 tags with
            | None => restorable [] kv.2
            | Some (PDict []) => false
            | Some (PDict sub) => restorable sub kv.2
            | Some (PAtom _) => false
            end
        end) m
  end.

(** Overrides that [set_tags] can apply to tags [tags]: a nested mapping
    is only put where the tags hold a nested mapping, or nothing. *)
Fixpoint mergeable (tags : list (string * pyval)) (u : pyval) {struct u} : bool :=
  match u with
  | PAtom _ => true
  | PDict m =>
      forallb (λ kv,
        match kv.2 with
        | PAtom _ => true
        | PDict _ =>
            match dict_get kv.1 tags with
            | None => mergeable [] kv.2
            | Some (PDict sub) => mergeable sub kv.2
            | Some (PAtom _) => false
            end
        end) m
  end.

(** [update(d, u)] on dict literals, for a [d] that shares no dict with
    anything else: what [d] holds when the call is over. Where [u] puts
    a mapping over a leaf of [d] the code raises; [mergeable] rules that
    out, and here the leaf counts as an empty dict. *)
Fixpoint updated (d : list (string * pyval)) (u : pyval) {struct u}
  : list (string * pyval) :=
  match u with
  | PAtom _ => d
  | PDict m =>
      (fix items (m d : list (string * pyval)) :=
         match m with
         | [] => d
         | (k, v) :: m' =>
             items m'
               match v with
               | PDict _ =>
                   dict_set k
                     (PDict (updated match dict_get k d with
                                     | Some (PDict sub) => sub
                                     | _ => []
                                     end v)) d
               | PAtom _ => dict_set k v d
               end
         end) m d
  end.

(** ** [Field.__init__] *)

Definition default_downsamplers (value_type : string) : option (list string) :=
  if String.eqb value_type "numeric" then
    Some ["mean"; "sum"; "min"; "max"; "std_dev"; "count"]
  else if (String.eqb value_type "graph" || String.eqb value_type "nominal")%bool then
    Some ["count"]
  else None.

Definition Field_init (depth : nat) (attribute : option attribute_source)
    (tags : option (list (string * pyval)))
    (value_downsamplers : option (list string)) (value_type : string)
  : SE heap field_base :=
  custom ← alloc_dict (default [] tags);
  default_copy ← deepcopy depth custom;
  mret {| name := None;
          attribute := attribute;
          custom_tags := custom;
          default_tags := default_copy;
          value_downsamplers :=
            match value_downsamplers with
            | None => default_downsamplers value_type
            | Some ds => Some ds
            end;
          value_type := value_type |}.

(** ** Reading tags out of the heap *)

(** The nested dict that a heap value stands for. A dict is walked item
    by item, one level of recursion per level of nesting. *)
Fixpoint read_val (depth : nat) (h : heap) (v : val) : outcome pyval :=
  match v with
  | VAtom a => Return (PAtom a)
  | VRef l =>
      match depth with
      | O => Raise RuntimeError
      | S depth' =>
          obind (omapM (λ kv, obind (read_val depth' h kv.2)
                                (λ p, Return (kv.1, p)))
                   (map_to_list (h !!! l)))
            (λ m, Return (PDict m))
      end
  end.

(** Modelled from the spec: [nodewatcher.utils.datastructures.merge_dict],
    which is not part of the sources at hand. It deep-merges the second
    dict into the first: keys of the first keep their position, keys of
    the second are appended or overwrite, and where both hold a dict
    under a key the two are merged in turn. *)
Fixpoint merge_dict (dst : list (string * pyval)) (src : pyval) {struct src}
  : list (string * pyval) :=
  match src with
  | PAtom _ => dst
  | PDict ms =>
      (fix items (ms dst : list (string * pyval)) :=
         match ms with
         | [] => dst
         | (k, v) :: ms' =>
             items ms'
               match v, dict_get k dst with
               | PDict _, Some (PDict old) => dict_set k (PDict (merge_dict old v)) dst
               | _, _ => dict_set k v dst
               end
         end) ms dst
  end.

(** ** The engine *)

Section Engine.

Context {St : Type} (stream : store_api St) (env : environment).

Definition M (A : Type) : Type := SE (world St) A.

Definition in_heap {A} (c : SE heap A) : M A :=
  λ w, let '(o, h) := c (w_heap w) in
       (o, {| w_heap := h; w_store := w_store w; w_trace := w_trace w |}).

Definition read_heap {A} (f : heap → outcome A) : M A :=
  λ w, (f (w_heap w), w).

(** The three calls of the datastream API; each one is logged. *)
Definition stream_ensure_stream (r : ensure_request) : M stream_id :=
  λ w, let '(o, s) := api_ensure_stream stream r (w_store w) in
       (o, {| w_heap := w_heap w; w_store := s;
              w_trace := w_trace w ++ [CallEnsure r] |}).

Definition stream_append (sid : stream_id) (value : pyval) (timestamp : option Z)
  : M unit :=
  λ w, let '(o, s) := api_append stream sid value timestamp (w_store w) in
       (o, {| w_heap := w_heap w; w_store := s;
              w_trace := w_trace w ++ [CallAppend sid value timestamp] |}).

Definition stream_delete_streams (query_tags : list (string * pyval)) : M unit :=
  λ w, let '(o, s) := api_delete_streams stream query_tags (w_store w) in
       (o, {| w_heap := w_heap w; w_store := s;
              w_trace := w_trace w ++ [CallDelete query_tags] |}).

(** [try: body except InconsistentStreamConfiguration: handler]. *)
Definition try_except_inconsistent {A} (body handler : M A) : M A :=
  λ w, match body w with
       | (Raise InconsistentStreamConfiguration, w') => handler w'
       | r => r
       end.

(** *** [TagReference] *)

(** [TagReference.__init__]: a single tag name becomes a one-element
    list, [None] the empty list. *)
Definition TagReference_init (tag_or_iterable : option (string + list string))
    (tr : transform) : atom :=
  ATagRef match tag_or_iterable with
          | None => []
          | Some (inl tag) => [tag]
          | Some (inr tags) => tags
          end tr.

Definition tag_values (tags : list string) (d : descriptor)
  : outcome (list (string * pyval)) :=
  obind (omapM (λ ref,
                  obind (reduce_getitem (split "." ref) (PDict (get_stream_tags d)))
                    (λ v, Return (ref, v)))
           tags)
    (λ items, Return (dict_of_items items)).

(** [TagReference.resolve]. *)
Definition resolve (tags : list string) (tr : transform) (d : descriptor)
  : outcome pyval :=
  obind (tag_values tags d) (λ tag_values,
    match tr with
    | Callable c => call_transform env c (get_model d) tag_values
    | Template t => py_format env t tag_values
    | NoTransform =>
        match tag_values with
        | [(_, v)] => Return v
        | _ => Raise (ValueError "Multiple tags specified without transform callable!")
        end
    end).

(** *** [Field] *)

Definition name_value (b : field_base) : pyval :=
  match name b with
  | Some n => PStr n
  | None => PNone
  end.

(** [prepare_value], per class. *)
Definition prepare_value (cls : field_class) (value : pyval) : outcome pyval :=
  match cls with
  | CField | CNominalField => Return value
  | CIntegerField | CCounterField | CIntegerNominalField =>
      obind (py_int value) (λ z, Return (PInt z))
  | CFloatField => py_float env value
  | CMultiPointField | CGraphField => py_dict env value
  | CIntegerArrayNominalField =>
      obind (py_iter value) (λ xs,
        obind (omapM py_int xs) (λ zs, Return (PList (PInt <$> zs))))
  end.

(** The ['type'] tag that the class adds in [prepare_tags]. *)
Definition type_tag (cls : field_class) : option string :=
  match cls with
  | CIntegerField | CCounterField => Some "integer"
  | CFloatField => Some "float"
  | CMultiPointField => Some "multipoint"
  | _ => None
  end.

(** [prepare_tags]: the name, then the custom tags, then the class's
    type tag. *)
Definition prepare_tags (depth : nat) (type : option string) (b : field_base)
    (h : heap) : outcome (list (string * pyval)) :=
  obind (read_val depth h (custom_tags b)) (λ custom,
    match custom with
    | PDict items =>
        let combined := dict_update [("name", name_value b)] items in
        Return match type with
               | Some t => dict_update combined [("type", PStr t)]
               | None => combined
               end
    | PAtom _ => Raise TypeError
    end).

Definition prepare_query_tags (b : field_base) : list (string * pyval) :=
  [("name", name_value b)].

Definition get_downsamplers (b : field_base) : option (list string) :=
  value_downsamplers b.

(** [_process_tag_references]. *)
Fixpoint _process_tag_references (tags : pyval) (d : descriptor) {struct tags}
  : outcome pyval :=
  match tags with
  | PDict m =>
      obind ((fix items (m : list (string * pyval)) :=
                match m with
                | [] => Return []
                | (key, value) :: m' =>
                    obind (_process_tag_references value d) (λ v,
                      obind (items m') (λ out, Return ((key, v) :: out)))
                end) m)
        (λ out, Return (PDict (dict_of_items out)))
  | PAtom (AList l) =>
      obind ((fix elements (l : list pyval) :=
                match l with
                | [] => Return []
                | value :: l' =>
                    obind (_process_tag_references value d) (λ v,
                      obind (elements l') (λ out, Return (v :: out)))
                end) l)
        (λ out, Return (PList out))
  | PAtom (ATagRef refs tr) => resolve refs tr d
  | PAtom _ => Return tags
  end.

(** [process_tags]: the pair [(query_tags, tags)]. *)
Definition process_tags (depth : nat) (type : option string) (b : field_base)
    (d : descriptor) : M (list (string * pyval) * pyval) :=
  let query_tags := dict_update (get_stream_query_tags d) (prepare_query_tags b) in
  prepared ← read_heap (prepare_tags depth type b);
  let tags := merge_dict (get_stream_tags d) (PDict prepared) in
  tags ← lift_outcome (_process_tag_references (PDict tags) d);
  mret (query_tags, tags).

(** The request of a plain field. *)
Definition plain_request (b : field_base) (d : descriptor)
    (query_tags : list (string * pyval)) (tags : pyval) : ensure_request :=
  {| req_query_tags := query_tags;
     req_tags := tags;
     req_downsamplers := get_downsamplers b;
     req_highest_granularity := get_stream_highest_granularity d;
     req_value_type := value_type b;
     req_derive_from := None;
     req_derive_op := None;
     req_derive_args := None;
     req_derive_backprocess := None |}.

(** [Field.ensure_stream], also what the value classes inherit. *)
Definition Field_ensure_stream (depth : nat) (type : option string)
    (b : field_base) (d : descriptor) : M stream_id :=
  '(query_tags, tags) ← process_tags depth type b d;
  stream_ensure_stream (plain_request b d query_tags tags).

(** The request of a [DynamicSumField], without and with
    [derive_backprocess=False]. *)
Definition sum_request (b : field_base) (d : descriptor)
    (query_tags : list (string * pyval)) (tags : pyval)
    (streams : list derive_source) (backprocess : option bool) : ensure_request :=
  {| req_query_tags := query_tags;
     req_tags := tags;
     req_downsamplers := get_downsamplers b;
     req_highest_granularity := get_stream_highest_granularity d;
     req_value_type := value_type b;
     req_derive_from := Some streams;
     req_derive_op := Some "sum";
     req_derive_args := Some [];
     req_derive_backprocess := backprocess |}.

Definition not_found_message (locator : string) : string :=
  String.append "Datastream field '" (String.append locator "' not found!").

(** One round of the loop of [DerivedField.ensure_stream]: the input
    stream of one entry of [self.streams]. [ensure] is the method
    [ensure_stream] of whatever field the locator names. *)
Definition derived_source (ensure : field → descriptor → M (option stream_id))
    (d : descriptor) (field_ref : field_ref) : M derive_source :=
  match split "#" (ref_field field_ref) with
  | [model_reference; field_name] =>
      mdl ← (if String.eqb model_reference "" then mret (get_model d)
             else lift_outcome (resolve_model_reference d model_reference));
      mdl_descriptor ← lift_outcome (pool_get_descriptor env mdl);
      match descriptor_get_field env mdl_descriptor field_name with
      | None =>
          raise (ImproperlyConfigured (not_found_message (ref_field field_ref)))
      | Some field =>
          sid ← ensure field mdl_descriptor;
          mret {| ds_name := Some (ref_name field_ref); ds_stream := sid |}
      end
  | _ => raise (ValueError "wrong number of values to unpack")
  end.

(** One round of the loop of [DynamicSumField.ensure_stream]. *)
Definition sum_source (ensure : field → descriptor → M (option stream_id))
    (src : field * descriptor) : M derive_source :=
  sid ← ensure src.1 src.2;
  mret {| ds_name := None; ds_stream := sid |}.

(** [ensure_stream], dispatched on the class of the field. [depth] is
    the recursion depth that is left: Python raises [RuntimeError] when
    it is used up. The result is the stream identifier, or [None] where
    a [DynamicSumField] has nothing to sum. *)
Fixpoint ensure_stream (depth : nat) (f : field) (d : descriptor)
  : M (option stream_id) :=
  match depth with
  | O => raise RuntimeError
  | S depth' =>
      match f with
      | PlainField cls b =>
          sid ← Field_ensure_stream depth' (type_tag cls) b d;
          mret (Some sid)
      | DerivedField b streams_ op op_arguments =>
          streams ← for_each (derived_source (ensure_stream depth') d) streams_;
          '(query_tags, tags) ← process_tags depth' None b d;
          sid ← stream_ensure_stream
            {| req_query_tags := query_tags;
               req_tags := tags;
               req_downsamplers := get_downsamplers b;
               req_highest_granularity := get_stream_highest_granularity d;
               req_value_type := value_type b;
               req_derive_from := Some streams;
               req_derive_op := Some op;
               req_derive_args := Some op_arguments;
               req_derive_backprocess := None |};
          mret (Some sid)
      | DynamicSumField b _fields =>
          streams ← for_each (sum_source (ensure_stream depth')) _fields;
          match streams with
          | [] => mret None
          | _ :: _ =>
              '(query_tags, tags) ← process_tags depth' None b d;
              sid ← try_except_inconsistent
                (stream_ensure_stream (sum_request b d query_tags tags streams None))
                (_ ← stream_delete_streams query_tags;
                 stream_ensure_stream
                   (sum_request b d query_tags tags streams (Some false)));
              mret (Some sid)
          end
      end
  end.

(** The value that [to_stream] takes off the model: [attribute] is
    called if it is callable, and is an attribute name otherwise; the
    field's own name stands in for a missing [attribute]. *)
Definition source_value (b : field_base) (d : descriptor) : outcome pyval :=
  match attribute b with
  | Some (AttrCallable c) => call_attribute env c (get_model d)
  | Some (AttrName a) => model_getattr env (get_model d) a
  | None =>
      match name b with
      | Some n => model_getattr env (get_model d) n
      | None => Raise TypeError
      end
  end.

(** [to_stream]. *)
Definition to_stream (depth : nat) (f : field) (d : descriptor)
    (timestamp : option Z) : M unit :=
  match depth with
  | O => raise RuntimeError
  | S depth' =>
      match f with
      | PlainField cls b =>
          value ← lift_outcome (source_value b d);
          stream_id ← Field_ensure_stream depth' (type_tag cls) b d;
          match value with
          | PAtom ANone => mret ()
          | _ =>
              value ← lift_outcome (prepare_value cls value);
              stream_append stream_id value timestamp
          end
      | DerivedField _ _ _ _ | DynamicSumField _ _ =>
          _ ← ensure_stream depth' f d; mret ()
      end
  end.

End Engine.

(** ** Constructors of the field classes *)

(** The keyword arguments that the constructors pass on to
    [Field.__init__]; [None] is an argument that is not given. *)
Record kwargs : Type := {
  kw_attribute : option attribute_source;
  kw_tags : option (list (string * pyval));
  kw_value_downsamplers : option (list string);
  kw_value_type : option string
}.

Definition no_kwargs : kwargs :=
  {| kw_attribute := None; kw_tags := None;
     kw_value_downsamplers := None; kw_value_type := None |}.

Definition with_value_type (value_type : string) (kw : kwargs) : kwargs :=
  {| kw_attribute := kw_attribute kw; kw_tags := kw_tags kw;
     kw_value_downsamplers := kw_value_downsamplers kw;
     kw_value_type := Some value_type |}.

Definition Field_init_kwargs (depth : nat) (kw : kwargs) : SE heap field_base :=
  Field_init depth (kw_attribute kw) (kw_tags kw) (kw_value_downsamplers kw)
    (default "numeric" (kw_value_type kw)).

Definition Field_new (depth : nat) (kw : kwargs) : SE heap field :=
  b ← Field_init_kwargs depth kw; mret (PlainField CField b).

Definition IntegerField_new (depth : nat) (kw : kwargs) : SE heap field :=
  b ← Field_init_kwargs depth (with_value_type "numeric" kw);
  mret (PlainField CIntegerField b).

(** The keywords of a [CounterField(...)] call. The constructor looks at
    [tags] and [value_downsamplers] with [setdefault], which tells a
    keyword that is missing ([None]) from one that is passed as Python's
    [None] ([Some None]). The keyword [value_type] is left out:
    [IntegerField.__init__] overwrites it. *)
Record counter_kwargs : Type := {
  ckw_attribute : option attribute_source;
  ckw_tags : option (option (list (string * pyval)));
  ckw_value_downsamplers : option (option (list string))
}.

(** [CounterField.__init__]: no downsamplers unless the keyword is
    there, and the tag [visualization.initial_set] set to [False]. *)
Definition counter_tags (tags : list (string * pyval))
  : outcome (list (string * pyval)) :=
  match dict_get "visualization" tags with
  | None =>
      Return (dict_set "visualization"
                (PDict [("initial_set", PAtom (ABool false))]) tags)
  | Some (PDict visualization) =>
      Return (dict_set "visualization"
                (PDict (dict_set "initial_set" (PAtom (ABool false)) visualization))
                tags)
  | Some (PAtom _) => Raise TypeError
  end.

Definition CounterField_new (depth : nat) (kw : counter_kwargs) : SE heap field :=
  (* kwargs.setdefault('value_downsamplers', []) *)
  let value_downsamplers :=
    match ckw_value_downsamplers kw with
    | None => Some []
    | Some given => given
    end in
  (* tags = kwargs.setdefault('tags', {}), then
     tags.setdefault('visualization', {})['initial_set'] = False *)
  tags ← lift_outcome match ckw_tags kw with
                      | None => counter_tags []
                      | Some (Some tags) => counter_tags tags
                      | Some None => Raise AttributeError
                      end;
  b ← Field_init_kwargs depth
         {| kw_attribute := ckw_attribute kw;
            kw_tags := Some tags;
            kw_value_downsamplers := value_downsamplers;
            kw_value_type := Some "numeric" |};
  mret (PlainField CCounterField b).

Definition FloatField_new (depth : nat) (kw : kwargs) : SE heap field :=
  b ← Field_init_kwargs depth (with_value_type "numeric" kw);
  mret (PlainField CFloatField b).

Definition MultiPointField_new (depth : nat) (kw : kwargs) : SE heap field :=
  b ← Field_init_kwargs depth (with_value_type "numeric" kw);
  mret (PlainField CMultiPointField b).

Definition GraphField_new (depth : nat) (kw : kwargs) : SE heap field :=
  b ← Field_init_kwargs depth (with_value_type "graph" kw);
  mret (PlainField CGraphField b).

Definition NominalField_new (depth : nat) (kw : kwargs) : SE heap field :=
  b ← Field_init_kwargs depth (with_value_type "nominal" kw);
  mret (PlainField CNominalField b).

Definition IntegerNominalField_new (depth : nat) (kw : kwargs) : SE heap field :=
  b ← Field_init_kwargs depth (with_value_type "nominal" kw);
  mret (PlainField CIntegerNominalField b).

Definition IntegerArrayNominalField_new (depth : nat) (kw : kwargs) : SE heap field :=
  b ← Field_init_kwargs depth (with_value_type "nominal" kw);
  mret (PlainField CIntegerArrayNominalField b).

Definition DerivedField_new (depth : nat) (streams : list field_ref) (op : string)
    (arguments : option (list (string * pyval))) (kw : kwargs) : SE heap field :=
  b ← Field_init_kwargs depth kw;
  mret (DerivedField b streams op (default [] arguments)).

Definition ResetField_new (depth : nat) (field_ : string) (kw : kwargs)
  : SE heap field :=
  DerivedField_new depth [{| ref_name := Some "reset"; ref_field := field_ |}]
    "counter_reset" None (with_value_type "nominal" kw).

Definition RateField_new (depth : nat) (reset_field data_field : string)
    (max_value : pyval) (kw : kwargs) : SE heap field :=
  DerivedField_new depth
    [{| ref_name := Some "reset"; ref_field := reset_field |};
     {| ref_name := None; ref_field := data_field |}]
    "counter_derivative" (Some [("max_value", max_value)])
    (with_value_type "numeric" kw).

Definition DynamicSumField_new (depth : nat) (kw : kwargs) : SE heap field :=
  b ← Field_init_kwargs depth (with_value_type "numeric" kw);
  mret (DynamicSumField b []).

(** [clear_source_fields] and [add_source_field]; on another class the
    attribute [_fields] does not exist and the field is left as it is. *)
Definition clear_source_fields (f : field) : field :=
  match f with
  | DynamicSumField b _ => DynamicSumField b []
  | _ => f
  end.

Definition add_source_field (f : field) (src : field) (d : descriptor) : field :=
  match f with
  | DynamicSumField b _fields => DynamicSumField b (_fields ++ [(src, d)])
  | _ => f
  end.

(** The descriptor that owns a field gives it its name. *)
Definition with_name (n : string) (b : field_base) : field_base :=
  {| name := Some n; attribute := attribute b; custom_tags := custom_tags b;
     default_tags := default_tags b; value_downsamplers := value_downsamplers b;
     value_type := value_type b |}.

Definition named (n : string) (f : field) : field :=
  match f with
  | PlainField cls b => PlainField cls (with_name n b)
  | DerivedField b streams op args => DerivedField (with_name n b) streams op args
  | DynamicSumField b _fields => DynamicSumField (with_name n b) _fields
  end.

(** ** A small store, a small environment

    Concrete collaborators for the examples: a store that keeps, per
    stream, its name tag and its input streams and reports a changed
    input list as inconsistent; two descriptors; three fields. *)

Record kept_stream : Type := {
  ks_id : stream_id;
  ks_key : string;
  ks_inputs : list (option stream_id)
}.

Record kept : Type := {
  next_id : nat;
  live : list kept_stream
}.

Definition stream_key (query_tags : list (string * pyval)) : string :=
  match dict_get "name" query_tags with
  | Some (PAtom (AStr n)) => n
  | _ => ""
  end.

Definition request_inputs (r : ensure_request) : list (option stream_id) :=
  ds_stream <$> default [] (req_derive_from r).

Definition kept_ensure (r : ensure_request) (s : kept) : outcome stream_id * kept :=
  match List.find (λ t, String.eqb (ks_key t) (stream_key (req_query_tags r))) (live s) with
  | Some t =>
      if bool_decide (ks_inputs t = request_inputs r) then (Return (ks_id t), s)
      else (Raise InconsistentStreamConfiguration, s)
  | None =>
      (Return (next_id s),
       {| next_id := S (next_id s);
          live := live s ++ [{| ks_id := next_id s;
                                ks_key := stream_key (req_query_tags r);
                                ks_inputs := request_inputs r |}] |})
  end.

Definition kept_delete (query_tags : list (string * pyval)) (s : kept)
  : outcome unit * kept :=
  (Return (),
   {| next_id := next_id s;
      live := List.filter (λ t, negb (String.eqb (ks_key t) (stream_key query_tags)))
                (live s) |}).

Definition kept_store : store_api kept :=
  {| api_ensure_stream := kept_ensure;
     api_append := λ _ _ _ s, (Return (), s);
     api_delete_streams := kept_delete |}.

(** A store that is out of reach: every call fails. *)
Definition down_store : store_api unit :=
  {| api_ensure_stream := λ _ s, (Raise (StoreFailure 1), s);
     api_append := λ _ _ _ s, (Raise (StoreFailure 1), s);
     api_delete_streams := λ _ s, (Raise (StoreFailure 1), s) |}.

(** [template % values] for templates whose conversions are all of the
    form [%(key)s] over text values, and [%%]. *)
Inductive format_state : Type :=
| Plain
| Percent
| Key (acc : string)
| Conversion (key : string).

Fixpoint render (st : format_state) (template : string)
    (values : list (string * pyval)) : outcome string :=
  match template with
  | EmptyString =>
      match st with
      | Plain => Return ""
      | _ => Raise (ValueError "incomplete format")
      end
  | String c rest =>
      match st with
      | Plain =>
          if Ascii.eqb c "%" then render Percent rest values
          else obind (render Plain rest values) (λ out, Return (String c out))
      | Percent =>
          if Ascii.eqb c "%" then
            obind (render Plain rest values) (λ out, Return (String "%" out))
          else if Ascii.eqb c "(" then render (Key "") rest values
          else Raise TypeError
      | Key acc =>
          if Ascii.eqb c ")" then render (Conversion acc) rest values
          else render (Key (String.append acc (String c ""))) rest values
      | Conversion key =>
          if Ascii.eqb c "s" then
            match dict_get key values with
            | Some (PAtom (AStr text)) =>
                obind (render Plain rest values) (λ out, Return (String.append text out))
            | Some _ => Raise TypeError
            | None => Raise (KeyError key)
            end
          else Raise (ValueError "unsupported format character")
      end
  end.

Definition node_descriptor : descriptor :=
  {| get_model := 1;
     get_stream_tags := [("node", PDict [("uuid", PStr "n1"); ("kind", PStr "router")])];
     get_stream_query_tags := [("node", PStr "n1")];
     get_stream_highest_granularity := "seconds";
     resolve_model_reference := λ r,
       if String.eqb r "peer" then Return 2 else Raise (KeyError r) |}.

Definition peer_descriptor : descriptor :=
  {| get_model := 2;
     get_stream_tags := [("node", PDict [("uuid", PStr "n2"); ("kind", PStr "router")])];
     get_stream_query_tags := [("node", PStr "n2")];
     get_stream_highest_granularity := "seconds";
     resolve_model_reference := λ r, Raise (KeyError r) |}.

(** Two empty tag dicts, shared by the example fields. *)
Definition bare_heap : heap := [∅; ∅].

Definition bare_base (n : string) (downsamplers : option (list string)) : field_base :=
  {| name := Some n; attribute := None;
     custom_tags := VRef 0; default_tags := VRef 1;
     value_downsamplers := downsamplers;
     value_type := "numeric" |}.

Definition rx_field : field := PlainField CCounterField (bare_base "rx" (Some [])).
Definition tx_field : field := PlainField CCounterField (bare_base "tx" (Some [])).
Definition idle_field : field :=
  PlainField CIntegerField (bare_base "idle" (default_downsamplers "numeric")).
Definition total_field (sources : list (field * descriptor)) : field :=
  DynamicSumField (bare_base "total" (default_downsamplers "numeric")) sources.

Definition lab : environment :=
  {| pool_get_descriptor := λ m,
       if Nat.eqb m 1 then Return node_descriptor
       else if Nat.eqb m 2 then Return peer_descriptor
       else Raise (KeyError "model");
     descriptor_get_field := λ _ n,
       if String.eqb n "rx" then Some rx_field
       else if String.eqb n "tx" then Some tx_field
       else if String.eqb n "idle" then Some idle_field
       else None;
     model_getattr := λ _ a,
       if String.eqb a "rx" then Return (PInt 10)
       else if String.eqb a "tx" then Return (PInt 20)
       else if String.eqb a "idle" then Return PNone
       else Raise AttributeError;
     call_attribute := λ _ _, Return PNone;
     call_transform := λ _ _ values, Return (PDict values);
     py_format := λ template values,
       obind (render Plain template values) (λ out, Return (PStr out));
     py_float := λ v,
       match v with
       | PAtom (AFloat _) => Return v
       | _ => Raise TypeError
       end;
     py_dict := λ v,
       match v with
       | PDict _ => Return v
       | _ => Raise TypeError
       end |}.

Definition lab_world : world kept :=
  {| w_heap := bare_heap;
     w_store := {| next_id := 0; live := [] |};
     w_trace := [] |}.



(** Reading the heap without changing it. *)
Definition peek {A} (f : heap → outcome A) : SE heap A := λ h, (f h, h).

(** A field with the tags of the example in the docstring of
    [reset_tags_to_default]: the tag is reset, then set again. The run
    reads the default tags after construction and at the end. *)
Definition reset_then_set : SE heap (pyval * pyval) :=
  b ← Field_init 10 None
         (Some [("visualization", PDict [("initial_set", PAtom (ABool false))])])
         None "numeric";
  before ← peek (λ h, read_val 10 h (default_tags b));
  _ ← reset_tags_to_default b [("visualization", PTrue)];
  _ ← set_tags b [("visualization", PDict [("initial_set", PTrue)])];
  after ← peek (λ h, read_val 10 h (default_tags b));
  mret (before, after).

(** The binary64 values written [3.9], [1.5] and [2.5]. *)
Definition float_3_9 : spec_float := S754_finite false 8782019273372467 (-51).
Definition float_1_5 : spec_float := S754_finite false 6755399441055744 (-52).
Definition float_2_5 : spec_float := S754_finite false 5629499534213120 (-51).

(** ** Proof devices: the shape of the heap

    What a heap value leads to, drawn as a tree: a leaf, a dict at a
    location with the trees of its items, or a tree that is reached from
    here but belongs to someone else (the default tags, once
    [reset_tags] has stored one of their dicts among the custom
    tags). *)

Inductive ltree : Type :=
| LAtom (a : atom)
| LDict (l : loc) (m : list (string * ltree))
| LShared (c : ltree).

(** The value at the top of a tree, and the dict that the items of a
    tree make up. *)
Fixpoint root (t : ltree) : val :=
  match t with
  | LAtom a => VAtom a
  | LDict l _ => VRef l
  | LShared c => root c
  end.

Definition dict_of (m : list (string * ltree)) : gmap string val :=
  list_to_map ((λ kc, (kc.1, root kc.2)) <$> m).

(** Every dict of a tree with its location; the locations the tree owns
    (those not under [LShared]); trees without [LShared]. *)
Fixpoint nodes (t : ltree) : list (loc * gmap string val) :=
  match t with
  | LAtom _ => []
  | LDict l m => (l, dict_of m) :: (m ≫= λ kc, nodes kc.2)
  | LShared c => nodes c
  end.

Fixpoint own_locs (t : ltree) : list loc :=
  match t with
  | LAtom _ => []
  | LDict l m => l :: (m ≫= λ kc, own_locs kc.2)
  | LShared _ => []
  end.

Fixpoint unshared (t : ltree) : bool :=
  match t with
  | LAtom _ => true
  | LDict _ m => forallb (λ kc, unshared kc.2) m
  | LShared _ => false
  end.

(** The heap holds the tree: every dict of the tree is at its location. *)
Definition holds (h : heap) (t : ltree) : Prop :=
  ∀ l d, (l, d) ∈ nodes t → h !! l = Some d.

(** The tree stands for the dict literal: the same keys, level by level,
    whatever the order of the items. *)
Inductive lrep : ltree → pyval → Prop :=
| lrep_atom a : lrep (LAtom a) (PAtom a)
| lrep_dict l mc m :
    (∀ k, option_Forall2 lrep (dict_get k mc) (dict_get k m)) →
    lrep (LDict l mc) (PDict m)
| lrep_shared c t : lrep c t → lrep (LShared c) t.

(** The mapping under a key, empty where there is none. *)
Definition subdict (tags : list (string * pyval)) (k : string) : list (string * pyval) :=
  match dict_get k tags with
  | Some (PDict sub) => sub
  | _ => []
  end.

(** The tree is what [update] makes of tags [tags] with overrides [u]:
    keys that [u] does not name are as in [tags], a leaf of [u] is in
    place, a mapping of [u] has been merged into what [tags] hold
    there. *)
Inductive over : ltree → list (string * pyval) → list (string * pyval) → Prop :=
| over_dict l mc tags u :
    (∀ k, dict_get k u = None → option_Forall2 lrep (dict_get k mc) (dict_get k tags)) →
    (∀ k a, dict_get k u = Some (PAtom a) → dict_get k mc = Some (LAtom a)) →
    (∀ k u', dict_get k u = Some (PDict u') →
       ∃ c, dict_get k mc = Some c ∧ over c (subdict tags k) u') →
    over (LDict l mc) tags u.

(** The items of a tree after [d[k] = c]; the locations that the items
    own; all locations of a tree. *)
Definition gset (k : string) (c : ltree) (m : list (string * ltree)) : list (string * ltree) :=
  (k, c) :: dict_del k m.

Definition children_locs (m : list (string * ltree)) : list loc :=
  m ≫= λ kc, own_locs kc.2.

Definition all_locs (t : ltree) : list loc := (nodes t).*1.

(** A tree that the heap holds and whose own locations are distinct and
    allocated. *)
Definition tidy (h : heap) (t : ltree) : Prop :=
  holds h t ∧ NoDup (own_locs t) ∧ ∀ l0, l0 ∈ own_locs t → l0 < length h.

(** From [h] to [h'] the heap has only grown, and only locations among
    [own] have changed; [own'], the locations owned afterwards, are old
    ones of [own] or new ones. *)
Definition grown (h h' : heap) (own own' : list loc) : Prop :=
  length h ≤ length h' ∧
  (∀ l0, l0 ∈ own' → l0 ∈ own ∨ length h ≤ l0) ∧
  (∀ l0, l0 ∈ own' → l0 < length h') ∧
  (∀ l0, l0 < length h → l0 ∉ own → h' !! l0 = h !! l0).

(** One round of the loop of [update]. *)
Definition update_body (d : val) (k : string) (v : pyval) : SE heap unit :=
  match v with
  | PDict _ => d' ← get_or_new d k; r ← update v d'; setitem d k r
  | PAtom a => setitem d k (VAtom a)
  end.

(** [restorable] and [mergeable], for one item of the overrides. *)
Definition entry_restorable (tags : list (string * pyval)) (kv : string * pyval) : bool :=
  match kv.2 with
  | PAtom _ => true
  | PDict _ =>
      match dict_get kv.1 tags with
      | None => restorable [] kv.2
      | Some (PDict []) => false
      | Some (PDict sub) => restorable sub kv.2
      | Some (PAtom _) => false
      end
  end.

Definition entry_mergeable (tags : list (string * pyval)) (kv : string * pyval) : bool :=
  match kv.2 with
  | PAtom _ => true
  | PDict _ =>
      match dict_get kv.1 tags with
      | None => mergeable [] kv.2
      | Some (PDict sub) => mergeable sub kv.2
      | Some (PAtom _) => false
      end
  end.

(** What [update] does to a tree that shares nothing. *)
Definition update_ok (u : pyval) : Prop :=
  ∀ h l mc tags ms, u = PDict ms →
    wf_dict u = true → mergeable tags u = true →
    unshared (LDict l mc) = true → lrep (LDict l mc) (PDict tags) →
    tidy h (LDict l mc) →
    ∃ h' mc', update u (VRef l) h = (Return (VRef l), h') ∧
      unshared (LDict l mc') = true ∧ over (LDict l mc') tags ms ∧
      tidy h' (LDict l mc') ∧
      grown h h' (own_locs (LDict l mc)) (own_locs (LDict l mc')).

(** The locations under [LShared], and trees that borrow from [F]
    only. *)
Fixpoint borrowed (t : ltree) : list loc :=
  match t with
  | LAtom _ => []
  | LDict _ m => m ≫= λ kc, borrowed kc.2
  | LShared c => all_locs c
  end.

Definition lent (F : list loc) (t : ltree) : Prop :=
  ∀ l0, l0 ∈ borrowed t → l0 ∈ F.

(** One round of the loop of [reset_tags]. *)
Definition reset_body (current_tags default_tags : val) (tag : string) (value : pyval)
  : SE heap unit :=
  match value with
  | PDict _ =>
      default_value ← get_or_new default_tags tag;
      if is_mapping default_value then
        current_value ← setdefault_new current_tags tag;
        _ ← reset_tags value current_value default_value;
        empty ← falsy current_value;
        if empty : bool then delitem current_tags tag else mret ()
      else mret ()
  | PAtom (ABool true) =>
      present ← contains_key default_tags tag;
      if present : bool then
        v ← getitem_dict default_tags tag;
        setitem current_tags tag v
      else delitem current_tags tag
  | PAtom _ =>
      raise (ValueError
        "Reset tag value should be either a dictionary or a boolean True.")
  end.

(** What [reset_tags] does, with the selectors of overrides [u], to
    custom tags that [update] has made of [tags] with [u], when the
    default tags [dt] stand for [tags] too. *)
Definition reset_ok (u : pyval) : Prop :=
  ∀ h l mc dt tags ms F, u = PDict ms →
    wf_dict u = true → restorable tags u = true →
    over (LDict l mc) tags ms → tidy h (LDict l mc) → lent F (LDict l mc) →
    unshared dt = true → lrep dt (PDict tags) → holds h dt →
    (∀ l0, l0 ∈ all_locs dt → l0 ∈ F) →
    (∀ l0, l0 ∈ F → l0 < length h ∧ l0 ∉ own_locs (LDict l mc)) →
    ∃ h' mc', reset_tags (selectors u) (VRef l) (root dt) h = (Return (), h') ∧
      lrep (LDict l mc') (PDict tags) ∧ tidy h' (LDict l mc') ∧
      lent F (LDict l mc') ∧
      grown h h' (own_locs (LDict l mc)) (own_locs (LDict l mc')).

(** The levels of dicts in a tree. *)
Fixpoint lheight (t : ltree) : nat :=
  match t with
  | LAtom _ => 0
  | LDict _ m => S (foldr (λ kc n, Nat.max (lheight kc.2) n) 0 m)
  | LShared c => lheight c
  end.

(** What [alloc] builds. *)
Definition alloc_ok (p : pyval) : Prop :=
  wf_dict p = true → ∀ h,
    ∃ ct, (alloc p h).1 = root ct ∧ unshared ct = true ∧ lrep ct p ∧
      holds (alloc p h).2 ct ∧ NoDup (own_locs ct) ∧
      (∀ l0, l0 ∈ own_locs ct → length h ≤ l0 < length (alloc p h).2) ∧
      h `prefix_of` (alloc p h).2 ∧ lheight ct ≤ dict_depth p.

(** What [deepcopy] builds. *)
Definition deepcopy_ok (ct : ltree) : Prop :=
  unshared ct = true → ∀ depth h,
    lheight ct ≤ depth → holds h ct →
    ∃ dt, (deepcopy depth (root ct) h).1 = Return (root dt) ∧
      h `prefix_of` (deepcopy depth (root ct) h).2 ∧
      unshared dt = true ∧ holds (deepcopy depth (root ct) h).2 dt ∧
      NoDup (own_locs dt) ∧
      (∀ l0, l0 ∈ own_locs dt → length h ≤ l0 < length (deepcopy depth (root ct) h).2) ∧
      (∀ t, lrep ct t → lrep dt t).

(** What the loop of [deepcopy] has built after the items [msub] of the
    dict with items [m]. *)
Definition copied (h : heap) (m : list (string * ltree))
    (r : outcome (gmap string val) * heap) (msub : gmap string val) : Prop :=
  (∀ k v, msub !! k = Some v → dict_of m !! k = Some v) →
  ∃ new, r.1 = Return (dict_of new) ∧ h `prefix_of` r.2 ∧
    (∀ k, dict_get k new = None ↔ msub !! k = None) ∧
    (∀ k c', dict_get k new = Some c' →
       ∃ c, dict_get k m = Some c ∧ ∀ t, lrep c t → lrep c' t) ∧
    (∀ k c', (k, c') ∈ new → holds r.2 c' ∧ unshared c' = true) ∧
    NoDup (children_locs new) ∧
    (∀ l0, l0 ∈ children_locs new → length h ≤ l0 < length r.2).

(** ** Reading the log of store calls *)

(** The calls that write a datapoint. *)
Definition is_append (c : store_call) : bool :=
  match c with
  | CallAppend _ _ _ => true
  | _ => false
  end.

(** Every [delete_streams] call of a log comes right after the request
    of a [DynamicSumField] for the same query tags. [prev] is the call
    before the log, if any. *)
Fixpoint deletes_guarded (prev : option store_call) (calls : list store_call) : Prop :=
  match calls with
  | [] => True
  | c :: rest =>
      match c with
      | CallDelete q =>
          ∃ r, prev = Some (CallEnsure r) ∧ req_query_tags r = q ∧
               req_derive_op r = Some "sum" ∧ req_derive_backprocess r = None
      | _ => True
      end ∧ deletes_guarded (Some c) rest
  end.

(** A run that leaves the heap alone and adds to the log a stretch of
    calls of which [P] holds. *)
Definition logs {St} (P : list store_call → Prop) (w w' : world St) : Prop :=
  w_heap w' = w_heap w ∧ ∃ calls, w_trace w' = w_trace w ++ calls ∧ P calls.

(** ** Kinds of classes and of tags *)

(** The classes whose [prepare_value] uses [int()] or nothing at all. *)
Definition converts_by_int (cls : field_class) : bool :=
  match cls with
  | CFloatField | CMultiPointField | CGraphField => false
  | _ => true
  end.

(** Tags that hold no [TagReference], in a list or a dict at any depth,
    and whose dicts have no key twice. *)
Fixpoint ref_free (p : pyval) : bool :=
  match p with
  | PAtom a =>
      match a with
      | AList l => forallb ref_free l
      | ATagRef _ _ => false
      | _ => true
      end
  | PDict m => bool_decide (NoDup m.*1) && forallb (λ kv, ref_free kv.2) m
  end.

(** ** More collaborators for the examples *)

(** An environment whose models also have the text attribute [uptime],
    and an integer field that reads it. *)
Definition text_lab : environment :=
  {| pool_get_descriptor := pool_get_descriptor lab;
     descriptor_get_field := descriptor_get_field lab;
     model_getattr := λ m a,
       if String.eqb a "uptime" then Return (PStr "3.0") else model_getattr lab m a;
     call_attribute := call_attribute lab;
     call_transform := call_transform lab;
     py_format := py_format lab;
     py_float := py_float lab;
     py_dict := py_dict lab |}.

Definition uptime_field : field :=
  PlainField CIntegerField (bare_base "uptime" (default_downsamplers "numeric")).

(** A rate over the counters [rx] and [tx] of the same model. *)
Definition rate_field : field :=
  DerivedField (bare_base "rate" (default_downsamplers "numeric"))
    [{| ref_name := Some "reset"; ref_field := "#rx" |};
     {| ref_name := None; ref_field := "#tx" |}]
    "counter_derivative" [("max_value", PNone)].

(** A store that takes plain streams as [kept_store] does and refuses
    every derived one. *)
Definition picky_store : store_api kept :=
  {| api_ensure_stream := λ r s,
       match req_derive_from r with
       | Some _ => (Raise (StoreFailure 2), s)
       | None => kept_ensure r s
       end;
     api_append := λ _ _ _ s, (Return (), s);
     api_delete_streams := kept_delete |}.

(** A derived field that names itself as its source, and an environment
    that knows it. *)
Definition loop_field : field :=
  DerivedField (bare_base "loop" None)
    [{| ref_name := None; ref_field := "#loop" |}] "counter_reset" [].

Definition loop_lab : environment :=
  {| pool_get_descriptor := pool_get_descriptor lab;
     descriptor_get_field := λ d n,
       if String.eqb n "loop" then Some loop_field else descriptor_get_field lab d n;
     model_getattr := model_getattr lab;
     call_attribute := call_attribute lab;
     call_transform := call_transform lab;
     py_format := py_format lab;
     py_float := py_float lab;
     py_dict := py_dict lab |}.

(** Custom tags that hold a [name] of their own. *)
Definition renamed_heap : heap := [{["name" := VAtom (AStr "download")]}; ∅].

(** * Properties *)

(** ** Strings and dict literals *)



Lemma dict_set_fresh (k : string) (v : pyval) (m : list (string * pyval)) :
  k ∉ m.*1 → dict_set k v m = m ++ [(k, v)].
Proof.
  induction m as [|[k' v'] m IH]; simpl; [done|].
  intros Hk. apply not_elem_of_cons in Hk as [Hne Hk].
  destruct (String.eqb_spec k k'); [done|]. by rewrite IH.
Qed.

Lemma dict_update_fresh (items m : list (string * pyval)) :
  NoDup (m.*1 ++ items.*1) → dict_update m items = m ++ items.
Proof.
  unfold dict_update. revert m.
  induction items as [|[k v] items IH]; intros m Hnd; simpl.
  - by rewrite app_nil_r.
  - simpl in Hnd. rewrite dict_set_fresh.
    + rewrite IH; [by rewrite <- app_assoc|].
      rewrite fmap_app. simpl. by rewrite <- app_assoc.
    + apply NoDup_app in Hnd as (_ & Hd & _). intros Hin.
      apply (Hd k Hin). by left.
Qed.

Lemma dict_of_items_nodup (items : list (string * pyval)) :
  NoDup items.*1 → dict_of_items items = items.
Proof. intros Hnd. unfold dict_of_items. by rewrite dict_update_fresh. Qed.

(** ** Value coercion *)

(** C7, as the specification states it, fails on text: [int("3.0")] is
    not [3], the literal is refused. *)
Lemma integer_field_refuses_decimal_text :
  prepare_value lab CIntegerField (PStr "3.0") ≠ Return (PInt 3).
Proof. vm_compute. discriminate. Qed.

(** C7 (amended): an integer-typed field turns the float [3.9] and the
    text ["3"] into the integer [3] and raises [ValueError] on the text
    ["3.0"]; an integer-array-nominal field turns [[1.5, 2.5]] into
    [[1, 2]]. *)
Theorem prepare_value_integer_coercion (env : environment) :
  prepare_value env CIntegerField (PFloat float_3_9) = Return (PInt 3) ∧
  prepare_value env CIntegerField (PStr "3") = Return (PInt 3) ∧
  prepare_value env CIntegerField (PStr "3.0")
    = Raise (ValueError "invalid literal for int() with base 10") ∧
  prepare_value env CIntegerArrayNominalField
      (PList [PFloat float_1_5; PFloat float_2_5])
    = Return (PList [PInt 1; PInt 2]).
Proof. repeat split; vm_compute; reflexivity. Qed.

(** ** Tag references *)

Lemma tag_values_distinct (tags : list string) (d : descriptor) (vs : list pyval) :
  NoDup tags →
  omapM (λ ref, reduce_getitem (split "." ref) (PDict (get_stream_tags d))) tags
    = Return vs →
  tag_values tags d = Return (zip tags vs) ∧ length vs = length tags.
Proof.
  intros Hnd Hvs. unfold tag_values.
  assert (omapM (λ ref,
            obind (reduce_getitem (split "." ref) (PDict (get_stream_tags d)))
              (λ v, Return (ref, v))) tags = Return (zip tags vs)
          ∧ length vs = length tags) as [-> Hlen].
  { clear Hnd. revert vs Hvs. induction tags as [|ref tags IH]; intros vs Hvs; simpl in *.
    - by inversion Hvs.
    - destruct (reduce_getitem _ _) as [v|e]; simpl in *; [|done].
      destruct (omapM _ tags) as [vs'|e] eqn:Hrest; simpl in *; [|done].
      inversion Hvs; subst. destruct (IH vs' eq_refl) as [-> Hlen].
      simpl. by rewrite Hlen. }
  split; [|done]. simpl. rewrite dict_of_items_nodup; [done|].
  rewrite fst_zip; [done|lia].
Qed.

(** C5, as the specification states it, fails when the paths repeat:
    the resolved values are keyed by path name, so two equal paths count
    as one and the value is returned. *)
Lemma resolve_repeated_path_returns :
  (2 ≤ length ["node.uuid"; "node.uuid"])%nat ∧
  resolve lab ["node.uuid"; "node.uuid"] NoTransform node_descriptor
    = Return (PStr "n1").
Proof. split; [simpl; lia | vm_compute; reflexivity]. Qed.

(** C5 (amended): for a tag reference whose paths are distinct and all
    resolve against the descriptor's tags: with two or more paths and no
    transform, [resolve] raises [ValueError]; with a string template it
    returns the template applied with [%] to the resolved values keyed by
    path name; with exactly one path and no transform it returns that
    path's value unchanged. *)
Theorem resolve_case_split (env : environment) (tags : list string)
    (d : descriptor) (vs : list pyval) :
  NoDup tags →
  omapM (λ ref, reduce_getitem (split "." ref) (PDict (get_stream_tags d))) tags
    = Return vs →
  ((2 ≤ length tags)%nat →
   resolve env tags NoTransform d
     = Raise (ValueError "Multiple tags specified without transform callable!")) ∧
  (∀ template,
   resolve env tags (Template template) d = py_format env template (zip tags vs)) ∧
  (∀ ref v, tags = [ref] → vs = [v] → resolve env tags NoTransform d = Return v).
Proof.
  intros Hnd Hvs. destruct (tag_values_distinct tags d vs Hnd Hvs) as [Htv Hlen].
  unfold resolve. rewrite Htv. simpl. repeat split.
  - intros Hlen2. destruct tags as [|r1 [|r2 tags]]; simpl in *; try lia.
    destruct vs as [|v1 [|v2 vs]]; simpl in *; try lia. done.
  - intros ref v -> ->. done.
Qed.

Lemma resolve_case_split_witness :
  resolve lab ["node.uuid"; "node.kind"] NoTransform node_descriptor
    = Raise (ValueError "Multiple tags specified without transform callable!") ∧
  resolve lab ["node.uuid"; "node.kind"] (Template "%(node.kind)s-%(node.uuid)s")
      node_descriptor
    = Return (PStr "router-n1").
Proof.
  pose proof (resolve_case_split lab ["node.uuid"; "node.kind"] node_descriptor
                [PStr "n1"; PStr "router"]) as H.
  destruct H as (H1 & H2 & _).
  - apply (bool_decide_unpack _). vm_compute. reflexivity.
  - vm_compute. reflexivity.
  - split.
    + apply H1. simpl. lia.
    + rewrite H2. vm_compute. reflexivity.
Defined.

(** ** Resetting a tag that does not exist *)



(** ** The loops over source fields *)

Lemma for_each_stops {S A B} (body : A → SE S B) (pre post : list A) (x : A)
    (s s1 s2 : S) (ys : list B) (e : exn) :
  for_each body pre s = (Return ys, s1) →
  body x s1 = (Raise e, s2) →
  for_each body (pre ++ x :: post) s = (Raise e, s2).
Proof.
  revert s ys. induction pre as [|p pre IH]; intros s ys Hpre Hx; simpl in *.
  - inversion Hpre; subst. unfold mbind, se_bind. by rewrite Hx.
  - unfold mbind, se_bind in *.
    destruct (body p s) as [[y|e'] s'] eqn:Hp; [|done].
    change ((fix loop (xs : list A) : SE S (list B) :=
               match xs with
               | [] => mret []
               | x :: rest => y ← body x; ys ← loop rest; mret (y :: ys)
               end) ?l) with (for_each body l) in *.
    destruct (for_each body pre s') as [[ys'|e'] s''] eqn:Hrest; [|done].
    inversion Hpre; subst. by rewrite (IH s' ys' Hrest Hx).
Qed.

Lemma process_tags_keeps_world {St} (env : environment) (depth : nat)
    (type : option string) (b : field_base) (d : descriptor) (w w' : world St)
    (o : outcome (list (string * pyval) * pyval)) :
  process_tags env depth type b d w = (o, w') → w' = w.
Proof.
  unfold process_tags, mbind, se_bind, read_heap, lift_outcome, mret, se_ret.
  destruct (prepare_tags depth type b (w_heap w)); [|by inversion 1].
  destruct (_process_tag_references _ _ _); by inversion 1.
Qed.

(** ** Dynamic aggregate fields *)

(** C3: a [DynamicSumField] whose list of source fields is empty, as it
    is after construction and after [clear_source_fields], is ensured
    without any call to the store: [ensure_stream] returns [None] and
    leaves the store and the log of calls as they were. *)
Theorem dynamic_sum_without_sources_is_noop {St} (stream : store_api St)
    (env : environment) (depth : nat) (b : field_base) (d : descriptor)
    (w : world St) :
  ensure_stream stream env (S depth) (DynamicSumField b []) d w = (Return None, w) ∧
  (∀ sources, clear_source_fields (DynamicSumField b sources) = DynamicSumField b []) ∧
  (∀ kw h, match DynamicSumField_new depth kw h with
           | (Return f, _) => ∃ b', f = DynamicSumField b' []
           | (Raise _, _) => True
           end).
Proof.
  repeat split.
  intros kw h. unfold DynamicSumField_new, mbind, se_bind.
  destruct (Field_init_kwargs depth _ h) as [[b'|e] h']; [|done].
  by exists b'.
Qed.



(** ** Derived fields *)




(** C6: when the field that a locator of a [DerivedField] names is not
    in the field map of the descriptor it points to, [ensure_stream]
    raises [ImproperlyConfigured] with a message that quotes the locator.
    It raises as soon as the loop reaches the locator, so the store has
    seen the sources before it and no request for the derived field. *)
Theorem derived_missing_field_is_improperly_configured {St}
    (stream : store_api St) (env : environment) (depth : nat) (b : field_base)
    (pre post : list field_ref) (missing : field_ref) (op : string)
    (args : list (string * pyval)) (d : descriptor) (w w1 : world St)
    (streams : list derive_source) (model_reference field_name : string)
    (mdl : model) (mdl_descriptor : descriptor) :
  split "#" (ref_field missing) = [model_reference; field_name] →
  (if String.eqb model_reference "" then Return (get_model d)
   else resolve_model_reference d model_reference) = Return mdl →
  pool_get_descriptor env mdl = Return mdl_descriptor →
  descriptor_get_field env mdl_descriptor field_name = None →
  for_each (derived_source env (ensure_stream stream env depth) d) pre w
    = (Return streams, w1) →
  ensure_stream stream env (S depth)
      (DerivedField b (pre ++ missing :: post) op args) d w
    = (Raise (ImproperlyConfigured
                (String.append "Datastream field '"
                   (String.append (ref_field missing) "' not found!"))), w1).
Proof.
  intros Hsplit Hmdl Hpool Hfield Hpre. simpl.
  unfold mbind at 1. unfold se_bind at 1.
  rewrite (for_each_stops _ pre post missing w w1 w1 streams
             (ImproperlyConfigured (not_found_message (ref_field missing))) Hpre);
    [done|].
  unfold derived_source. rewrite Hsplit.
  unfold mbind, se_bind, lift_outcome, mret, se_ret.
  destruct (String.eqb model_reference ""); simpl in *.
  - inversion Hmdl; subst. rewrite Hpool. by rewrite Hfield.
  - rewrite Hmdl, Hpool. by rewrite Hfield.
Qed.

Lemma derived_missing_field_is_improperly_configured_witness :
  let w1 := (ensure_stream kept_store lab 4 rx_field node_descriptor lab_world).2 in
  ensure_stream kept_store lab 5
    (DerivedField (bare_base "rate" None)
       [{| ref_name := Some "reset"; ref_field := "#rx" |};
        {| ref_name := None; ref_field := "peer#uptime" |}]
       "counter_derivative" []) node_descriptor lab_world
  = (Raise (ImproperlyConfigured "Datastream field 'peer#uptime' not found!"), w1).
Proof.
  apply (derived_missing_field_is_improperly_configured kept_store lab 4
           (bare_base "rate" None)
           [{| ref_name := Some "reset"; ref_field := "#rx" |}] []
           {| ref_name := None; ref_field := "peer#uptime" |}
           "counter_derivative" [] node_descriptor lab_world _
           [{| ds_name := Some (Some "reset"); ds_stream := Some 0 |}]
           "peer" "uptime" 2 peer_descriptor); vm_compute; reflexivity.
Defined.

(** ** Plain fields without a value *)

(** C8: when the source attribute of a plain field resolves to [None],
    [to_stream] does what [ensure_stream] does and nothing else: with the
    tags resolved, one [ensure_stream] request reaches the store and no
    [append] does, and [to_stream] returns normally whenever the store
    answers that request. *)
Theorem to_stream_skips_absent_value {St} (stream : store_api St)
    (env : environment) (depth : nat) (cls : field_class) (b : field_base)
    (d : descriptor) (timestamp : option Z) (w : world St)
    (query_tags : list (string * pyval)) (tags : pyval) :
  source_value env b d = Return PNone →
  process_tags env depth (type_tag cls) b d w = (Return (query_tags, tags), w) →
  let request := plain_request b d query_tags tags in
  let answer := api_ensure_stream stream request (w_store w) in
  to_stream stream env (S depth) (PlainField cls b) d timestamp w
    = (match answer.1 with
       | Return _ => Return ()
       | Raise e => Raise e
       end,
       {| w_heap := w_heap w; w_store := answer.2;
          w_trace := w_trace w ++ [CallEnsure request] |}).
Proof.
  intros Hvalue Htags request answer. simpl.
  unfold mbind at 1. unfold se_bind at 1. unfold lift_outcome. rewrite Hvalue.
  unfold mbind at 1. unfold se_bind at 1. unfold Field_ensure_stream.
  unfold mbind at 1. unfold se_bind at 1. rewrite Htags.
  unfold stream_ensure_stream. fold request. fold answer.
  by destruct answer as [[sid|e] s].
Qed.

Lemma to_stream_skips_absent_value_witness :
  (to_stream kept_store lab 5 idle_field node_descriptor None lab_world).1 = Return () ∧
  w_trace (to_stream kept_store lab 5 idle_field node_descriptor None lab_world).2
    = [CallEnsure
         (plain_request (bare_base "idle" (default_downsamplers "numeric"))
            node_descriptor
            [("node", PStr "n1"); ("name", PStr "idle")]
            (PDict [("node", PDict [("uuid", PStr "n1"); ("kind", PStr "router")]);
                    ("name", PStr "idle"); ("type", PStr "integer")]))].
Proof.
  unfold idle_field.
  rewrite (to_stream_skips_absent_value kept_store lab 4 CIntegerField
             (bare_base "idle" (default_downsamplers "numeric")) node_descriptor
             None lab_world
             [("node", PStr "n1"); ("name", PStr "idle")]
             (PDict [("node", PDict [("uuid", PStr "n1"); ("kind", PStr "router")]);
                     ("name", PStr "idle"); ("type", PStr "integer")]));
    [split; reflexivity | vm_compute; reflexivity ..].
Defined.

(** ** The default tags *)

(** C4 does not hold of the code: resetting a tag whose default is a
    nested dict stores that very dict among the custom tags, and a later
    [set_tags] below that tag writes into it. The default tags, read
    after construction and after the two calls, differ. *)
Theorem default_tags_change_after_reset :
  (reset_then_set []).1
  = Return (PDict [("visualization", PDict [("initial_set", PAtom (ABool false))])],
            PDict [("visualization", PDict [("initial_set", PAtom (ABool true))])]).
Proof. vm_compute. reflexivity. Qed.

(** ** Setting tags and resetting them: the heap argument *)

Lemma ltree_nested_ind (P : ltree → Prop) :
  (∀ a, P (LAtom a)) →
  (∀ l m, Forall (λ kc, P kc.2) m → P (LDict l m)) →
  (∀ c, P c → P (LShared c)) →
  ∀ t, P t.
Proof.
  intros Ha Hd Hs. fix IH 1. intros [a|l m|c].
  - apply Ha.
  - apply Hd. induction m as [|[k c] m IHm]; constructor; [apply IH | apply IHm].
  - apply Hs, IH.
Qed.

Lemma pyval_nested_ind (P : pyval → Prop) :
  (∀ a, P (PAtom a)) →
  (∀ m, Forall (λ kv, P kv.2) m → P (PDict m)) →
  ∀ p, P p.
Proof.
  intros Ha Hd. fix IH 1. intros [a|m].
  - apply Ha.
  - apply Hd. induction m as [|[k v] m IHm]; constructor; [apply IH | apply IHm].
Qed.

(** dict literal lemmas *)
Lemma dict_get_set {A} (k k' : string) (v : A) (m : list (string * A)) :
  dict_get k' (dict_set k v m) = if decide (k' = k) then Some v else dict_get k' m.
Proof.
  induction m as [|[k0 v0] m IH]; simpl.
  - destruct (String.eqb_spec k' k); case_decide; congruence.
  - destruct (String.eqb_spec k k0) as [->|Hne]; simpl.
    + destruct (String.eqb_spec k' k0); case_decide; congruence.
    + destruct (String.eqb_spec k' k0) as [->|Hne'].
      * case_decide; congruence.
      * apply IH.
Qed.

Lemma dict_get_del {A} (k k' : string) (m : list (string * A)) :
  dict_get k' (dict_del k m) = if decide (k' = k) then None else dict_get k' m.
Proof.
  induction m as [|[k0 v0] m IH]; simpl.
  - by case_decide.
  - destruct (String.eqb_spec k k0) as [->|Hne]; simpl.
    + rewrite IH. destruct (String.eqb_spec k' k0); case_decide; congruence.
    + destruct (String.eqb_spec k' k0) as [->|Hne'].
      * case_decide; congruence.
      * apply IH.
Qed.

Lemma dict_get_elem {A} (k : string) (v : A) (m : list (string * A)) :
  dict_get k m = Some v → (k, v) ∈ m.
Proof.
  induction m as [|[k0 v0] m IH]; simpl; [done|].
  destruct (String.eqb_spec k k0) as [->|Hne].
  - intros [= ->]. by left.
  - intros H. right. by apply IH.
Qed.

Lemma dict_get_nodup {A} (k : string) (v : A) (m : list (string * A)) :
  NoDup m.*1 → (k, v) ∈ m → dict_get k m = Some v.
Proof.
  induction m as [|[k0 v0] m IH]; simpl.
  - intros _ H. by apply elem_of_nil in H.
  - intros Hnd Hin. apply NoDup_cons in Hnd as [Hk0 Hnd].
    apply elem_of_cons in Hin as [[= -> ->]|Hin].
    + by rewrite String.eqb_refl.
    + destruct (String.eqb_spec k k0) as [->|Hne]; [|by apply IH].
      exfalso. apply Hk0. apply list_elem_of_fmap. by exists (k0, v).
Qed.

Lemma dict_get_none {A} (k : string) (m : list (string * A)) :
  dict_get k m = None ↔ k ∉ m.*1.
Proof.
  induction m as [|[k0 v0] m IH]; simpl.
  - split; [intros _; apply not_elem_of_nil | done].
  - destruct (String.eqb_spec k k0) as [->|Hne].
    + split; [done|]. intros H. exfalso. apply H. by left.
    + rewrite IH, not_elem_of_cons. simpl. tauto.
Qed.

Lemma dict_of_lookup (m : list (string * ltree)) (k : string) :
  dict_of m !! k = root <$> dict_get k m.
Proof.
  unfold dict_of. induction m as [|[k0 c0] m IH]; simpl; [done|].
  destruct (String.eqb_spec k k0) as [->|Hne].
  - by rewrite lookup_insert_eq.
  - by rewrite lookup_insert_ne.
Qed.

Lemma dict_of_set (m : list (string * ltree)) (k : string) (c : ltree) :
  dict_of (dict_set k c m) = <[k := root c]> (dict_of m).
Proof.
  apply map_eq. intros k'. rewrite dict_of_lookup, dict_get_set.
  destruct (decide (k' = k)) as [->|Hne].
  - by rewrite lookup_insert_eq.
  - rewrite lookup_insert_ne by done. by rewrite dict_of_lookup.
Qed.

Lemma dict_of_del (m : list (string * ltree)) (k : string) :
  dict_of (dict_del k m) = delete k (dict_of m).
Proof.
  apply map_eq. intros k'. rewrite dict_of_lookup, dict_get_del.
  destruct (decide (k' = k)) as [->|Hne].
  - by rewrite lookup_delete_eq.
  - rewrite lookup_delete_ne by done. by rewrite dict_of_lookup.
Qed.

Lemma dict_of_empty (m : list (string * ltree)) : dict_of m = ∅ ↔ m = [].
Proof.
  split; [|by intros ->].
  destruct m as [|[k c] m]; [done|]. unfold dict_of. simpl.
  intros H. by apply insert_non_empty in H.
Qed.

Lemma dict_get_gset (k k' : string) (c : ltree) (m : list (string * ltree)) :
  dict_get k' (gset k c m) = if decide (k' = k) then Some c else dict_get k' m.
Proof.
  unfold gset. simpl. destruct (String.eqb_spec k' k) as [->|Hne].
  - by rewrite decide_True.
  - rewrite decide_False by done. rewrite dict_get_del. by rewrite decide_False.
Qed.

Lemma dict_of_gset (m : list (string * ltree)) (k : string) (c : ltree) :
  dict_of (gset k c m) = <[k := root c]> (dict_of m).
Proof.
  apply map_eq. intros k'. rewrite dict_of_lookup, dict_get_gset.
  destruct (decide (k' = k)) as [->|Hne].
  - by rewrite lookup_insert_eq.
  - rewrite lookup_insert_ne by done. by rewrite dict_of_lookup.
Qed.

Lemma dict_del_elem {A} (k k' : string) (v : A) (m : list (string * A)) :
  (k', v) ∈ dict_del k m → (k', v) ∈ m ∧ k' ≠ k.
Proof.
  induction m as [|[k0 v0] m IH]; simpl.
  - intros H. by apply elem_of_nil in H.
  - destruct (String.eqb_spec k k0) as [->|Hne].
    + intros H. destruct (IH H). split; [by right|done].
    + intros H. apply elem_of_cons in H as [[= -> ->]|H].
      * split; [by left|done].
      * destruct (IH H). split; [by right|done].
Qed.

Lemma children_locs_elem (m : list (string * ltree)) (l0 : loc) :
  l0 ∈ children_locs m ↔ ∃ k c, (k, c) ∈ m ∧ l0 ∈ own_locs c.
Proof.
  unfold children_locs. rewrite list_elem_of_bind. split.
  - intros ([k c] & Hin & Hm). by exists k, c.
  - intros (k & c & Hm & Hin). by exists (k, c).
Qed.

Lemma children_locs_del (k : string) (m : list (string * ltree)) (l0 : loc) :
  l0 ∈ children_locs (dict_del k m) → l0 ∈ children_locs m.
Proof.
  rewrite !children_locs_elem. intros (k' & c & Hin & Hl).
  apply dict_del_elem in Hin as [Hin _]. by exists k', c.
Qed.

Lemma children_locs_del_nodup (k : string) (m : list (string * ltree)) :
  NoDup (children_locs m) → NoDup (children_locs (dict_del k m)).
Proof.
  unfold children_locs. induction m as [|[k0 c0] m IH]; simpl; [done|].
  intros Hnd. apply NoDup_app in Hnd as (H1 & H2 & H3).
  destruct (String.eqb_spec k k0) as [->|Hne]; [by apply IH|].
  simpl. apply NoDup_app. split_and!; [done| |by apply IH].
  intros x Hx Hx'. apply (H2 x Hx). by apply children_locs_del in Hx'.
Qed.

Lemma children_locs_get_del (k : string) (c : ltree) (m : list (string * ltree)) (l0 : loc) :
  NoDup (children_locs m) → dict_get k m = Some c →
  l0 ∈ own_locs c → l0 ∉ children_locs (dict_del k m).
Proof.
  unfold children_locs. induction m as [|[k0 c0] m IH]; simpl; [done|].
  intros Hnd Hget Hin. apply NoDup_app in Hnd as (H1 & H2 & H3).
  destruct (String.eqb_spec k k0) as [->|Hne].
  - injection Hget as ->. intros Hx. apply (H2 l0 Hin).
    by apply children_locs_del in Hx.
  - simpl. rewrite elem_of_app. intros [Hx|Hx].
    + apply (H2 l0 Hx). apply children_locs_elem.
      exists k, c. split; [by apply dict_get_elem|done].
    + by apply (IH H3 Hget Hin).
Qed.

Lemma holds_dict (h : heap) (l : loc) (m : list (string * ltree)) :
  holds h (LDict l m) ↔ h !! l = Some (dict_of m) ∧ ∀ k c, (k, c) ∈ m → holds h c.
Proof.
  unfold holds. simpl. split.
  - intros H. split; [apply H; by left|].
    intros k c Hin l0 d Hd. apply H. right. apply list_elem_of_bind.
    by exists (k, c).
  - intros [H1 H2] l0 d Hin. apply elem_of_cons in Hin as [[= -> ->]|Hin]; [done|].
    apply list_elem_of_bind in Hin as ([k c] & Hin & Hm). by apply (H2 k c).
Qed.

Lemma dict_get_app {A} (k : string) (m1 m2 : list (string * A)) :
  dict_get k (m1 ++ m2) = match dict_get k m1 with
                          | Some v => Some v
                          | None => dict_get k m2
                          end.
Proof.
  induction m1 as [|[k0 v0] m1 IH]; simpl; [done|].
  by destruct (String.eqb k k0).
Qed.

Lemma lrep_over_nil (l : loc) (mc : list (string * ltree)) (tags : list (string * pyval)) :
  lrep (LDict l mc) (PDict tags) ↔ over (LDict l mc) tags [].
Proof.
  split.
  - inversion 1; subst. constructor; [done|done..].
  - inversion 1 as [? ? ? ? Hu Ha Hd]; subst. constructor. intros k. by apply Hu.
Qed.

Lemma update_unfold (m : list (string * pyval)) (d : val) :
  update (PDict m) d = (_ ← for_items (update_body d) m; mret d).
Proof. reflexivity. Qed.

Lemma bind_return {S A B} (m : SE S A) (k : A → SE S B) (s s' : S) (a : A) :
  m s = (Return a, s') → (x ← m; k x) s = k a s'.
Proof. intros H. unfold mbind, se_bind. by rewrite H. Qed.

Lemma for_items_cons {S A} (body : string → A → SE S unit) (k : string) (v : A)
    (rest : list (string * A)) :
  for_items body ((k, v) :: rest) = (_ ← body k v; for_items body rest).
Proof. reflexivity. Qed.

Lemma grown_refl (h : heap) (own : list loc) :
  (∀ l0, l0 ∈ own → l0 < length h) → grown h h own own.
Proof. intros Hb. repeat split; auto. Qed.

Lemma grown_trans (h h1 h2 : heap) (o o1 o2 : list loc) :
  grown h h1 o o1 → grown h1 h2 o1 o2 → grown h h2 o o2.
Proof.
  intros (L1 & S1 & B1 & F1) (L2 & S2 & B2 & F2). repeat split.
  - lia.
  - intros l0 Hl. destruct (S2 l0 Hl) as [H|H]; [|right; lia].
    destruct (S1 l0 H); [by left|by right].
  - done.
  - intros l0 Hl Hn. rewrite F2; [by apply F1|lia|].
    intros H. destruct (S1 l0 H); [done|lia].
Qed.

Lemma holds_frame (h h' : heap) (t : ltree) :
  holds h t → (∀ l0, l0 ∈ all_locs t → h' !! l0 = h !! l0) → holds h' t.
Proof.
  intros H Hf l0 d Hin. rewrite Hf; [by apply H|].
  apply list_elem_of_fmap. by exists (l0, d).
Qed.

Lemma unshared_all_locs (t : ltree) (l0 : loc) :
  unshared t = true → l0 ∈ all_locs t → l0 ∈ own_locs t.
Proof.
  unfold all_locs. revert l0. induction t as [a|l m IH|c IH] using ltree_nested_ind;
    intros l0 Hu; simpl in *; [done| |done].
  intros Hin. apply elem_of_cons in Hin as [->|Hin]; [by left|].
  right. apply list_elem_of_fmap in Hin as ([l1 d] & -> & Hin). simpl.
  apply list_elem_of_bind in Hin as ([k c] & Hin & Hm).
  apply list_elem_of_bind. exists (k, c). split; [|done].
  rewrite Forall_forall in IH. apply (IH (k, c) Hm).
  - rewrite forallb_forall in Hu. apply (Hu (k, c)). by apply list_elem_of_In.
  - apply list_elem_of_fmap. by exists (l1, d).
Qed.

Lemma unshared_child (l : loc) (m : list (string * ltree)) (k : string) (c : ltree) :
  unshared (LDict l m) = true → (k, c) ∈ m → unshared c = true.
Proof.
  simpl. rewrite forallb_forall. intros H Hin. apply (H (k, c)). by apply list_elem_of_In.
Qed.

Lemma unshared_gset (l : loc) (m : list (string * ltree)) (k : string) (c : ltree) :
  unshared (LDict l m) = true → unshared c = true → unshared (LDict l (gset k c m)) = true.
Proof.
  simpl. intros H ->. simpl. rewrite forallb_forall in *. intros [k' c'] Hin.
  apply list_elem_of_In in Hin.
  apply dict_del_elem in Hin as [Hin _]. apply (H (k', c')). by apply list_elem_of_In.
Qed.

(** the child that [d.get(k, {})] returns *)
Lemma holds_append (h : heap) (t : ltree) (d : gmap string val) :
  holds h t → holds (h ++ [d]) t.
Proof.
  intros H l0 d0 Hin. specialize (H l0 d0 Hin).
  rewrite lookup_app_l; [done|]. by apply lookup_lt_Some in H.
Qed.

Lemma own_locs_dict (l : loc) (m : list (string * ltree)) :
  own_locs (LDict l m) = l :: children_locs m.
Proof. reflexivity. Qed.

Lemma children_locs_gset (k : string) (c : ltree) (m : list (string * ltree)) :
  children_locs (gset k c m) = own_locs c ++ children_locs (dict_del k m).
Proof. reflexivity. Qed.

Lemma install (h h2 : heap) (l : loc) (mc : list (string * ltree)) (k : string)
    (c' : ltree) (W : list loc) :
  tidy h (LDict l mc) → unshared (LDict l mc) = true →
  unshared c' = true → tidy h2 c' → grown h h2 W (own_locs c') →
  (∀ l0, l0 ∈ W → l0 ∈ children_locs mc ∧ l0 ∉ children_locs (dict_del k mc)) →
  ∃ h3, setitem (VRef l) k (root c') h2 = (Return (), h3) ∧
    unshared (LDict l (gset k c' mc)) = true ∧
    tidy h3 (LDict l (gset k c' mc)) ∧
    grown h h3 (own_locs (LDict l mc)) (own_locs (LDict l (gset k c' mc))).
Proof.
  intros (Hh & Hnd & Hb) Hu Hu' (Hh' & Hnd' & Hb') (GL & GS & GB & GF) HW.
  rewrite own_locs_dict in Hnd, Hb. apply NoDup_cons in Hnd as [Hl Hnd].
  apply holds_dict in Hh as [Hhl Hhc].
  assert (l < length h) as Hll by (apply Hb; by left).
  assert (l ∉ W) as HlW by (intros HlW; by destruct (HW l HlW)).
  assert (h2 !! l = Some (dict_of mc)) as Hh2l by (by rewrite GF).
  assert (∀ l0, l0 ∈ children_locs (dict_del k mc) → l0 < length h ∧ (l0 ∉ W) ∧ l0 ≠ l)
    as HD.
  { intros l0 Hl0. split_and!.
    - apply Hb. right. by apply children_locs_del in Hl0.
    - intros HlW0. by destruct (HW l0 HlW0).
    - intros ->. apply Hl. by apply children_locs_del in Hl0. }
  assert (∀ l0, l0 ∈ own_locs c' → l0 ≠ l ∧ l0 ∉ children_locs (dict_del k mc)) as HC.
  { intros l0 Hl0. destruct (GS l0 Hl0) as [HlW0|Hge].
    - split; [by intros ->|]. by destruct (HW l0 HlW0).
    - split; [lia|]. intros Hd. destruct (HD l0 Hd). lia. }
  exists (<[l := <[k := root c']> (dict_of mc)]> h2). split_and!.
  - unfold setitem. by rewrite (list_lookup_total_correct _ _ _ Hh2l).
  - by apply unshared_gset.
  - split_and!.
    + apply holds_dict. split.
      * rewrite dict_of_gset. apply list_lookup_insert_eq. lia.
      * intros k0 c0 Hin. apply elem_of_cons in Hin as [[= -> ->]|Hin].
        -- apply (holds_frame h2); [done|]. intros l0 Hl0.
           apply unshared_all_locs in Hl0; [|done].
           apply list_lookup_insert_ne. intros ->. by destruct (HC l0 Hl0).
        -- apply dict_del_elem in Hin as [Hin Hne].
           assert (∀ l0, l0 ∈ all_locs c0 → l0 ∈ children_locs (dict_del k mc)) as Hsub.
           { intros l0 Hl0. apply unshared_all_locs in Hl0;
               [|by apply (unshared_child l mc k0)].
             apply children_locs_elem. exists k0, c0. split; [|done].
             clear -Hin Hne. induction mc as [|[k1 c1] mc IH]; simpl.
             - by apply elem_of_nil in Hin.
             - apply elem_of_cons in Hin as [[= <- <-]|Hin].
               + destruct (String.eqb_spec k k0); [congruence|by left].
               + destruct (String.eqb_spec k k1); [by apply IH|right; by apply IH]. }
           apply (holds_frame h); [by apply (Hhc k0)|]. intros l0 Hl0.
           destruct (HD l0 (Hsub l0 Hl0)) as (? & ? & ?).
           rewrite list_lookup_insert_ne by done. by apply GF.
    + rewrite own_locs_dict, children_locs_gset. apply NoDup_cons. split.
      * rewrite elem_of_app. intros [Hx|Hx].
        -- by destruct (HC l Hx).
        -- by destruct (HD l Hx) as (? & ? & ?).
      * apply NoDup_app. split_and!; [done| |by apply children_locs_del_nodup].
        intros l0 Hl0. by destruct (HC l0 Hl0).
    + rewrite length_insert. rewrite own_locs_dict, children_locs_gset.
      intros l0 Hl0. apply elem_of_cons in Hl0 as [->|Hl0]; [lia|].
      apply elem_of_app in Hl0 as [Hl0|Hl0]; [by apply Hb'|].
      destruct (HD l0 Hl0). lia.
  - rewrite !own_locs_dict, children_locs_gset. repeat split.
    + rewrite length_insert. lia.
    + intros l0 Hl0. apply elem_of_cons in Hl0 as [->|Hl0]; [left; by left|].
      apply elem_of_app in Hl0 as [Hl0|Hl0].
      * destruct (GS l0 Hl0) as [HlW0|Hge]; [|by right].
        left. right. by destruct (HW l0 HlW0).
      * left. right. by apply children_locs_del in Hl0.
    + rewrite length_insert. intros l0 Hl0.
      apply elem_of_cons in Hl0 as [->|Hl0]; [lia|].
      apply elem_of_app in Hl0 as [Hl0|Hl0]; [by apply Hb'|].
      destruct (HD l0 Hl0). lia.
    + intros l0 Hl0 Hn. apply not_elem_of_cons in Hn as [Hne Hn].
      rewrite list_lookup_insert_ne by done. apply GF; [done|].
      intros HlW0. by destruct (HW l0 HlW0).
Qed.

Lemma restorable_unfold (tags m : list (string * pyval)) :
  restorable tags (PDict m) = forallb (entry_restorable tags) m.
Proof. reflexivity. Qed.

Lemma entry_restorable_dict (tags : list (string * pyval)) (k : string)
    (u' : list (string * pyval)) :
  entry_restorable tags (k, PDict u') = true →
  restorable (subdict tags k) (PDict u') = true ∧
  (∀ a, dict_get k tags ≠ Some (PAtom a)) ∧ dict_get k tags ≠ Some (PDict []).
Proof.
  unfold entry_restorable, subdict. simpl.
  destruct (dict_get k tags) as [[a|[|e sub]]|]; try done.
Qed.

Lemma mergeable_unfold (tags m : list (string * pyval)) :
  mergeable tags (PDict m) = forallb (entry_mergeable tags) m.
Proof. reflexivity. Qed.

Lemma entry_mergeable_dict (tags : list (string * pyval)) (k : string)
    (u' : list (string * pyval)) :
  entry_mergeable tags (k, PDict u') = true →
  mergeable (subdict tags k) (PDict u') = true ∧
  (∀ a, dict_get k tags ≠ Some (PAtom a)).
Proof.
  unfold entry_mergeable, subdict. simpl.
  destruct (dict_get k tags) as [[a|sub]|]; try done.
Qed.

Lemma restorable_mergeable (u : pyval) :
  ∀ tags, restorable tags u = true → mergeable tags u = true.
Proof.
  induction u as [a|m IH] using pyval_nested_ind; intros tags; [done|].
  rewrite restorable_unfold, mergeable_unfold.
  induction IH as [|[k x] m IHx _ IHm]; cbn [forallb]; [done|].
  intros [Hx Hm]%andb_true_iff. apply andb_true_iff. split; [|by apply IHm].
  destruct x as [a|u']; [done|].
  unfold entry_restorable in Hx. unfold entry_mergeable. cbn [fst snd] in *.
  destruct (dict_get k tags) as [[a|[|e sub]]|]; try done; by apply IHx.
Qed.

Lemma over_install (l : loc) (mc : list (string * ltree)) (tags done : list (string * pyval))
    (k : string) (x : pyval) (c' : ltree) :
  over (LDict l mc) tags done → dict_get k done = None →
  (∀ a, x = PAtom a → c' = LAtom a) →
  (∀ u', x = PDict u' → over c' (subdict tags k) u') →
  over (LDict l (gset k c' mc)) tags (done ++ [(k, x)]).
Proof.
  inversion 1 as [? ? ? ? Hu Ha Hd]; subst. intros Hk Hxa Hx. constructor.
  - intros k0. rewrite dict_get_app, dict_get_gset.
    destruct (dict_get k0 done) eqn:Hk0; [done|].
    simpl. destruct (String.eqb_spec k0 k) as [->|Hne]; [done|]. intros _.
    rewrite decide_False by done. by apply Hu.
  - intros k0 a. rewrite dict_get_app, dict_get_gset.
    destruct (dict_get k0 done) eqn:Hk0.
    + intros [= ->]. rewrite decide_False by congruence. by apply (Ha k0 a).
    + simpl. destruct (String.eqb_spec k0 k) as [->|Hne]; [|done].
      intros [= ->]. rewrite decide_True by done. by rewrite (Hxa a).
  - intros k0 u'. rewrite dict_get_app, dict_get_gset.
    destruct (dict_get k0 done) eqn:Hk0.
    + intros [= ->]. rewrite decide_False by congruence. by apply (Hd k0 u').
    + simpl. destruct (String.eqb_spec k0 k) as [->|Hne]; [|done].
      intros [= ->]. rewrite decide_True by done. exists c'. split; [done|].
      by apply Hx.
Qed.

Lemma lrep_dict_inv (c : ltree) (m : list (string * pyval)) :
  unshared c = true → lrep c (PDict m) → ∃ l mc, c = LDict l mc.
Proof. intros Hu H. inversion H; subst; [by eexists _, _|done]. Qed.

Lemma tidy_child (h : heap) (l : loc) (mc : list (string * ltree)) (k : string) (c : ltree) :
  tidy h (LDict l mc) → (k, c) ∈ mc → tidy h c.
Proof.
  intros (Hh & Hnd & Hb) Hin. apply holds_dict in Hh as [_ Hh].
  rewrite own_locs_dict in Hnd, Hb. apply NoDup_cons in Hnd as [_ Hnd].
  split_and!.
  - by apply (Hh k).
  - clear -Hnd Hin. unfold children_locs in Hnd.
    induction mc as [|[k1 c1] mc IH]; [by apply elem_of_nil in Hin|].
    simpl in Hnd. apply NoDup_app in Hnd as (H1 & _ & H3).
    apply elem_of_cons in Hin as [[= <- <-]|Hin]; [done|by apply IH].
  - intros l0 Hl0. apply Hb. right. apply children_locs_elem. by exists k, c.
Qed.

Lemma update_step (l : loc) (tags done : list (string * pyval)) (k : string) (x : pyval)
    (h : heap) (mc : list (string * ltree)) :
  update_ok x → dict_get k done = None →
  wf_dict x = true → entry_mergeable tags (k, x) = true →
  unshared (LDict l mc) = true → over (LDict l mc) tags done → tidy h (LDict l mc) →
  ∃ h1 mc1, update_body (VRef l) k x h = (Return (), h1) ∧
    unshared (LDict l mc1) = true ∧ over (LDict l mc1) tags (done ++ [(k, x)]) ∧
    tidy h1 (LDict l mc1) ∧
    grown h h1 (own_locs (LDict l mc)) (own_locs (LDict l mc1)).
Proof.
  intros IHx Hk Hwf Hres Hu Hover Ht.
  destruct x as [a|u'].
  - (* a leaf replaces whatever was there *)
    destruct (install h h l mc k (LAtom a) []) as (h3 & Hset & Hu3 & Ht3 & Hg3);
      try done.
    + destruct Ht as (? & ? & ?). split_and!; [by intros ? ? ?%elem_of_nil|constructor|].
      by intros ? ?%elem_of_nil.
    + apply grown_refl. by intros ? ?%elem_of_nil.
    + by intros ? ?%elem_of_nil.
    + exists h3, (gset k (LAtom a) mc). split_and!; try done.
      apply over_install; [done|done|by intros ? [= <-]|done].
  - (* a nested mapping is merged into the dict under the key *)
    apply entry_mergeable_dict in Hres as (Hres & Hnoatom).
    pose proof Ht as (Hh & Hnd & Hb). apply holds_dict in Hh as [Hhl Hhc].
    inversion Hover as [? ? ? ? Hou Hoa Hod]; subst.
    pose proof (Hou k Hk) as Hslot.
    assert (l < length h) as Hll by (apply Hb; by left).
    destruct (dict_get k mc) as [c0|] eqn:Hget.
    + (* the key holds a dict already *)
      inversion Hslot as [? t0 Hrep Hc0 Ht0|]; subst. symmetry in Ht0.
      assert ((k, c0) ∈ mc) as Hin by by apply dict_get_elem.
      assert (unshared c0 = true) as Hu0 by by apply (unshared_child l mc k).
      assert (∃ sub, t0 = PDict sub) as [sub ->].
      { destruct t0 as [a|sub]; [by destruct (Hnoatom a)|by exists sub]. }
      destruct (lrep_dict_inv c0 sub Hu0 Hrep) as (l0 & mc0 & ->).
      assert (subdict tags k = sub) as Hsub by (unfold subdict; by rewrite Ht0).
      destruct (IHx h l0 mc0 sub u' eq_refl Hwf) as (h1 & mc0' & Hupd & Hu1 & Ho1 & Ht1 & Hg1);
        [by rewrite <- Hsub|done|done|by apply (tidy_child h l mc k)|].
      destruct (install h h1 l mc k (LDict l0 mc0') (own_locs (LDict l0 mc0)))
        as (h3 & Hset & Hu3 & Ht3 & Hg3); try done.
      { intros l1 Hl1. split.
        - apply children_locs_elem. by exists k, (LDict l0 mc0).
        - apply (children_locs_get_del k (LDict l0 mc0)); try done.
          rewrite own_locs_dict in Hnd. by apply NoDup_cons in Hnd as [_ Hnd]. }
      exists h3, (gset k (LDict l0 mc0') mc). split_and!; try done.
      * unfold update_body. erewrite bind_return; last first.
        { unfold get_or_new. rewrite (list_lookup_total_correct _ _ _ Hhl).
          rewrite dict_of_lookup, Hget. reflexivity. }
        simpl. erewrite bind_return; [|exact Hupd]. exact Hset.
      * apply over_install; [done|done|done|]. intros ? [= <-]. by rewrite Hsub.
    + (* the key is new: the merge starts from an empty dict *)
      inversion Hslot as [|Hc0 Ht0]; subst. symmetry in Ht0.
      assert (subdict tags k = []) as Hsub by (unfold subdict; by rewrite Ht0).
      pose (c0 := LDict (length h) []).
      assert (tidy (h ++ [∅]) c0) as Ht0'.
      { split_and!.
        - apply holds_dict. split; [|by intros ? ? ?%elem_of_nil].
          by rewrite list_lookup_middle.
        - simpl. apply NoDup_singleton.
        - simpl. intros l1 ->%list_elem_of_singleton. rewrite length_app. simpl. lia. }
      destruct (IHx (h ++ [∅]) (length h) [] [] u' eq_refl Hwf)
        as (h1 & mc0' & Hupd & Hu1 & Ho1 & Ht1 & Hg1); try done.
      { by rewrite <- Hsub. }
      { constructor. intros k0. simpl. constructor. }
      assert (grown h h1 [] (own_locs (LDict (length h) mc0'))) as Hg.
      { destruct Hg1 as (GL & GS & GB & GF). rewrite length_app in *. simpl in *.
        repeat split.
        - lia.
        - intros l1 Hl1. right. destruct (GS l1 Hl1) as [Hx|Hx]; [|lia].
          apply list_elem_of_singleton in Hx. lia.
        - done.
        - intros l1 Hl1 _. rewrite GF; [by apply lookup_app_l|lia|].
          intros Hx%list_elem_of_singleton. lia. }
      destruct (install h h1 l mc k (LDict (length h) mc0') [])
        as (h3 & Hset & Hu3 & Ht3 & Hg3); try done.
      { by intros ? ?%elem_of_nil. }
      exists h3, (gset k (LDict (length h) mc0') mc). split_and!; try done.
      * unfold update_body. erewrite bind_return; last first.
        { unfold get_or_new. rewrite (list_lookup_total_correct _ _ _ Hhl).
          rewrite dict_of_lookup, Hget. reflexivity. }
        simpl. erewrite bind_return; [|exact Hupd]. exact Hset.
      * apply over_install; [done|done|done|]. intros ? [= <-]. by rewrite Hsub.
Qed.

Lemma update_loop (l : loc) (tags : list (string * pyval)) (rest : list (string * pyval)) :
  Forall (λ kv, update_ok kv.2) rest →
  ∀ done h mc,
    NoDup (done ++ rest).*1 →
    forallb (λ kv, wf_dict kv.2) rest = true →
    forallb (entry_mergeable tags) rest = true →
    unshared (LDict l mc) = true → over (LDict l mc) tags done → tidy h (LDict l mc) →
    ∃ h' mc', for_items (update_body (VRef l)) rest h = (Return (), h') ∧
      unshared (LDict l mc') = true ∧ over (LDict l mc') tags (done ++ rest) ∧
      tidy h' (LDict l mc') ∧
      grown h h' (own_locs (LDict l mc)) (own_locs (LDict l mc')).
Proof.
  induction 1 as [|[k x] rest IHx _ IH]; intros done h mc Hnd Hwf Hres Hu Hover Ht.
  - exists h, mc. rewrite app_nil_r. split_and!; try done.
    apply grown_refl. by destruct Ht as (_ & _ & ?).
  - simpl in Hwf, Hres. apply andb_true_iff in Hwf as [Hwfx Hwf].
    apply andb_true_iff in Hres as [Hresx Hres].
    assert (dict_get k done = None) as Hk.
    { apply dict_get_none. rewrite fmap_app in Hnd.
      apply NoDup_app in Hnd as (_ & Hd & _). intros Hin. apply (Hd k Hin). by left. }
    destruct (update_step l tags done k x h mc IHx Hk Hwfx Hresx Hu Hover Ht)
      as (h1 & mc1 & Hstep & Hu1 & Ho1 & Ht1 & Hg1).
    destruct (IH (done ++ [(k, x)]) h1 mc1) as (h2 & mc2 & Hloop & Hu2 & Ho2 & Ht2 & Hg2);
      try done.
    { by rewrite <- app_assoc. }
    exists h2, mc2. split_and!; try done.
    + rewrite for_items_cons. by erewrite bind_return.
    + by rewrite <- app_assoc in Ho2.
    + by apply (grown_trans h h1 h2 _ (own_locs (LDict l mc1))).
Qed.

Lemma wf_dict_unfold (m : list (string * pyval)) :
  wf_dict (PDict m) = true ↔ NoDup m.*1 ∧ forallb (λ kv, wf_dict kv.2) m = true.
Proof.
  simpl. rewrite andb_true_iff, bool_decide_eq_true. done.
Qed.

Lemma update_refines (u : pyval) : update_ok u.
Proof.
  induction u as [a|ms IH] using pyval_nested_ind;
    intros h l mc tags ms' Heq Hwf Hres Hu Hrep Ht; [done|].
  injection Heq as <-. apply wf_dict_unfold in Hwf as [Hnd Hwf].
  rewrite mergeable_unfold in Hres.
  destruct (update_loop l tags ms IH [] h mc) as (h' & mc' & Hloop & Hu' & Ho' & Ht' & Hg');
    try done.
  { by apply lrep_over_nil. }
  exists h', mc'. split_and!; try done.
  rewrite update_unfold. by erewrite bind_return.
Qed.

Lemma all_locs_dict (l : loc) (m : list (string * ltree)) (l0 : loc) :
  l0 ∈ all_locs (LDict l m) ↔ l0 = l ∨ ∃ k c, (k, c) ∈ m ∧ l0 ∈ all_locs c.
Proof.
  unfold all_locs. simpl. rewrite elem_of_cons. apply or_iff_compat_l.
  rewrite list_elem_of_fmap. split.
  - intros ([l1 d] & -> & Hin). apply list_elem_of_bind in Hin as ([k c] & Hin & Hm).
    exists k, c. split; [done|]. apply list_elem_of_fmap. by exists (l1, d).
  - intros (k & c & Hm & Hin). apply list_elem_of_fmap in Hin as ([l1 d] & -> & Hin).
    exists (l1, d). split; [done|]. apply list_elem_of_bind. by exists (k, c).
Qed.

Lemma borrowed_dict (l : loc) (m : list (string * ltree)) (l0 : loc) :
  l0 ∈ borrowed (LDict l m) ↔ ∃ k c, (k, c) ∈ m ∧ l0 ∈ borrowed c.
Proof.
  simpl. rewrite list_elem_of_bind. split.
  - intros ([k c] & Hin & Hm). by exists k, c.
  - intros (k & c & Hm & Hin). by exists (k, c).
Qed.

Lemma all_locs_split (t : ltree) (l0 : loc) :
  l0 ∈ all_locs t → l0 ∈ own_locs t ∨ l0 ∈ borrowed t.
Proof.
  revert l0. induction t as [a|l m IH|c IH] using ltree_nested_ind; intros l0 Hin.
  - by apply elem_of_nil in Hin.
  - apply all_locs_dict in Hin as [->|(k & c & Hm & Hin)]; [left; by left|].
    rewrite Forall_forall in IH. destruct (IH (k, c) Hm l0 Hin) as [H|H].
    + left. rewrite own_locs_dict. right. apply children_locs_elem. by exists k, c.
    + right. apply borrowed_dict. by exists k, c.
  - by right.
Qed.

Lemma unshared_borrowed (t : ltree) (l0 : loc) :
  unshared t = true → l0 ∉ borrowed t.
Proof.
  revert l0. induction t as [a|l m IH|c IH] using ltree_nested_ind; intros l0 Hu.
  - apply not_elem_of_nil.
  - intros (k & c & Hm & Hin)%borrowed_dict. rewrite Forall_forall in IH.
    by apply (IH (k, c) Hm l0 (unshared_child l m k c Hu Hm)).
  - done.
Qed.

Lemma lent_child (F : list loc) (l : loc) (m : list (string * ltree)) (k : string)
    (c : ltree) :
  lent F (LDict l m) → (k, c) ∈ m → lent F c.
Proof. intros H Hin l0 Hl0. apply H. apply borrowed_dict. by exists k, c. Qed.

Lemma dict_del_elem_2 {A} (k k' : string) (v : A) (m : list (string * A)) :
  (k', v) ∈ m → k' ≠ k → (k', v) ∈ dict_del k m.
Proof.
  intros Hin Hne. induction m as [|[k1 c1] m IH]; simpl.
  - by apply elem_of_nil in Hin.
  - apply elem_of_cons in Hin as [[= <- <-]|Hin].
    + destruct (String.eqb_spec k k'); [congruence|by left].
    + destruct (String.eqb_spec k k1); [by apply IH|right; by apply IH].
Qed.

Lemma children_locs_app (m1 m2 : list (string * ltree)) :
  children_locs (m1 ++ m2) = children_locs m1 ++ children_locs m2.
Proof. unfold children_locs. apply bind_app. Qed.

(** Replacing what a dict holds under one key. *)
Lemma renode (h h2 : heap) (l : loc) (mc extra : list (string * ltree)) (k : string)
    (W F : list loc) :
  tidy h (LDict l mc) → lent F (LDict l mc) →
  (∀ l0, l0 ∈ F → l0 < length h ∧ l0 ∉ own_locs (LDict l mc)) →
  (∀ k0 c0, (k0, c0) ∈ extra → holds h2 c0 ∧ lent F c0) →
  NoDup (children_locs extra) →
  grown h h2 W (children_locs extra) →
  (∀ l0, l0 ∈ W → l0 ∈ children_locs mc ∧ l0 ∉ children_locs (dict_del k mc)) →
  let mc1 := extra ++ dict_del k mc in
  let h3 := <[l := dict_of mc1]> h2 in
  h2 !! l = Some (dict_of mc) ∧
  tidy h3 (LDict l mc1) ∧ lent F (LDict l mc1) ∧
  grown h h3 (own_locs (LDict l mc)) (own_locs (LDict l mc1)).
Proof.
  intros (Hh & Hnd & Hb) Hlent HF Hextra Hnd' (GL & GS & GB & GF) HW mc1 h3.
  rewrite own_locs_dict in Hnd, Hb. apply NoDup_cons in Hnd as [Hl Hnd].
  apply holds_dict in Hh as [Hhl Hhc].
  assert (l < length h) as Hll by (apply Hb; by left).
  assert (l ∉ W) as HlW.
  { intros HlW. by destruct (HW l HlW). }
  assert (h2 !! l = Some (dict_of mc)) as Hh2l by (by rewrite GF).
  assert (∀ l0, l0 ∈ children_locs (dict_del k mc) → l0 < length h ∧ (l0 ∉ W) ∧ l0 ≠ l)
    as HD.
  { intros l0 Hl0. split_and!.
    - apply Hb. right. by apply children_locs_del in Hl0.
    - intros HlW0. by destruct (HW l0 HlW0).
    - intros ->. apply Hl. by apply children_locs_del in Hl0. }
  assert (∀ l0, l0 ∈ children_locs extra →
            l0 ≠ l ∧ l0 ∉ children_locs (dict_del k mc)) as HC.
  { intros l0 Hl0. destruct (GS l0 Hl0) as [HlW0|Hge].
    - split; [by intros ->|]. by destruct (HW l0 HlW0).
    - split; [lia|]. intros Hd. destruct (HD l0 Hd). lia. }
  assert (∀ l0, l0 ∈ F → h3 !! l0 = h !! l0) as HF3.
  { intros l0 Hl0. destruct (HF l0 Hl0) as [Hlt Hno]. rewrite own_locs_dict in Hno.
    apply not_elem_of_cons in Hno as [Hne Hno]. unfold h3.
    rewrite list_lookup_insert_ne by done. apply GF; [done|].
    intros HlW0. by destruct (HW l0 HlW0). }
  split; [done|]. split_and!.
  - split_and!.
    + apply holds_dict. split.
      * apply list_lookup_insert_eq. lia.
      * intros k0 c0 Hin. apply elem_of_app in Hin as [Hin|Hin].
        -- destruct (Hextra k0 c0 Hin) as [Hh0 Hl0].
           apply (holds_frame h2); [done|]. intros l0 Hin0.
           apply all_locs_split in Hin0 as [Hin0|Hin0].
           ++ apply list_lookup_insert_ne. intros ->.
              destruct (HC l0) as [? _]; [|done].
              apply children_locs_elem. by exists k0, c0.
           ++ specialize (Hl0 l0 Hin0). destruct (HF l0 Hl0) as [Hlt Hno].
              rewrite own_locs_dict in Hno. apply not_elem_of_cons in Hno as [Hne Hno].
              by apply list_lookup_insert_ne.
        -- pose proof Hin as Hin'. apply dict_del_elem in Hin as [Hin Hne].
           apply (holds_frame h); [by apply (Hhc k0)|]. intros l0 Hin0.
           apply all_locs_split in Hin0 as [Hin0|Hin0].
           ++ destruct (HD l0) as (? & ? & ?).
              { apply children_locs_elem. by exists k0, c0. }
              unfold h3. rewrite list_lookup_insert_ne by done. by apply GF.
           ++ apply HF3. by apply (lent_child F l mc k0 c0).
    + rewrite own_locs_dict. unfold mc1. rewrite children_locs_app.
      apply NoDup_cons. split.
      * rewrite elem_of_app. intros [Hx|Hx].
        -- by destruct (HC l Hx).
        -- by destruct (HD l Hx) as (? & ? & ?).
      * apply NoDup_app. split_and!; [done| |by apply children_locs_del_nodup].
        intros l0 Hl0. by destruct (HC l0 Hl0).
    + unfold h3. rewrite length_insert. rewrite own_locs_dict. unfold mc1.
      rewrite children_locs_app.
      intros l0 Hl0. apply elem_of_cons in Hl0 as [->|Hl0]; [lia|].
      apply elem_of_app in Hl0 as [Hl0|Hl0]; [by apply GB|].
      destruct (HD l0 Hl0). lia.
  - intros l0 (k0 & c0 & Hin & Hl0)%borrowed_dict.
    apply elem_of_app in Hin as [Hin|Hin].
    + destruct (Hextra k0 c0 Hin) as [_ Hlent0]. by apply Hlent0.
    + apply dict_del_elem in Hin as [Hin _]. by apply (lent_child F l mc k0 c0).
  - rewrite !own_locs_dict. unfold mc1, h3. rewrite children_locs_app. repeat split.
    + rewrite length_insert. lia.
    + intros l0 Hl0. apply elem_of_cons in Hl0 as [->|Hl0]; [left; by left|].
      apply elem_of_app in Hl0 as [Hl0|Hl0].
      * destruct (GS l0 Hl0) as [HlW0|Hge]; [|by right].
        left. right. by destruct (HW l0 HlW0).
      * left. right. by apply children_locs_del in Hl0.
    + rewrite length_insert. intros l0 Hl0.
      apply elem_of_cons in Hl0 as [->|Hl0]; [lia|].
      apply elem_of_app in Hl0 as [Hl0|Hl0]; [by apply GB|].
      destruct (HD l0 Hl0). lia.
    + intros l0 Hl0 Hn. apply not_elem_of_cons in Hn as [Hne Hn].
      rewrite list_lookup_insert_ne by done. apply GF; [done|].
      intros HlW0. by destruct (HW l0 HlW0).
Qed.

Lemma reset_unfold (m : list (string * pyval)) (c d : val) :
  reset_tags (PDict m) c d = for_items (reset_body c d) m.
Proof. reflexivity. Qed.

Lemma over_uninstall (l : loc) (mc mc1 : list (string * ltree))
    (tags rest : list (string * pyval)) (k : string) (x : pyval) :
  over (LDict l mc) tags ((k, x) :: rest) → dict_get k rest = None →
  option_Forall2 lrep (dict_get k mc1) (dict_get k tags) →
  (∀ k0, k0 ≠ k → dict_get k0 mc1 = dict_get k0 mc) →
  over (LDict l mc1) tags rest.
Proof.
  inversion 1 as [? ? ? ? Hu Ha Hd]; subst. intros Hk Hslot Hsame.
  assert (∀ k0, k0 ≠ k → dict_get k0 ((k, x) :: rest) = dict_get k0 rest) as Hcons.
  { intros k0 Hne. simpl. by destruct (String.eqb_spec k0 k). }
  constructor.
  - intros k0 Hk0. destruct (decide (k0 = k)) as [->|Hne]; [done|].
    rewrite Hsame by done. apply Hu. by rewrite Hcons.
  - intros k0 a Hk0. assert (k0 ≠ k) as Hne by congruence.
    rewrite Hsame by done. apply (Ha k0 a). by rewrite Hcons.
  - intros k0 u' Hk0. assert (k0 ≠ k) as Hne by congruence.
    rewrite Hsame by done. apply (Hd k0 u'). by rewrite Hcons.
Qed.

Lemma dict_get_extra_del {A} (k k0 : string) (m : list (string * A)) :
  k0 ≠ k → dict_get k0 (dict_del k m) = dict_get k0 m.
Proof. intros Hne. rewrite dict_get_del. by rewrite decide_False. Qed.

Lemma lrep_nil (l : loc) (mc : list (string * ltree)) (m : list (string * pyval)) :
  lrep (LDict l mc) (PDict m) → (mc = [] ↔ m = []).
Proof.
  inversion 1 as [|? ? ? Hslot|]; subst. split; intros ->.
  - destruct m as [|[k t] m]; [done|]. specialize (Hslot k). simpl in Hslot.
    rewrite String.eqb_refl in Hslot. inversion Hslot.
  - destruct mc as [|[k c] mc]; [done|]. specialize (Hslot k). simpl in Hslot.
    rewrite String.eqb_refl in Hslot. inversion Hslot.
Qed.

Lemma lrep_unshared_dict (c : ltree) (m : list (string * pyval)) :
  unshared c = true → lrep c (PDict m) →
  ∃ l mc, c = LDict l mc ∧ ∀ k, option_Forall2 lrep (dict_get k mc) (dict_get k m).
Proof. intros Hu H. inversion H; subst; [by eexists _, _|done]. Qed.

Lemma holds_child (h : heap) (l : loc) (m : list (string * ltree)) (k : string) (c : ltree) :
  holds h (LDict l m) → (k, c) ∈ m → holds h c.
Proof. intros [_ H]%holds_dict Hin. by apply (H k). Qed.

Lemma all_locs_child (l : loc) (m : list (string * ltree)) (k : string) (c : ltree)
    (l0 : loc) :
  (k, c) ∈ m → l0 ∈ all_locs c → l0 ∈ all_locs (LDict l m).
Proof. intros Hin Hl0. apply all_locs_dict. right. by exists k, c. Qed.

(** The dict operations on a node of the shape. *)
Section Node.

Context (h : heap) (l : loc) (m : list (string * ltree)) (k : string).

Hypothesis Hnode : h !! l = Some (dict_of m).

Lemma get_or_new_present (c : ltree) :
  dict_get k m = Some c → get_or_new (VRef l) k h = (Return (root c), h).
Proof.
  intros Hget. unfold get_or_new. rewrite (list_lookup_total_correct _ _ _ Hnode).
  by rewrite dict_of_lookup, Hget.
Qed.

Lemma get_or_new_absent :
  dict_get k m = None →
  get_or_new (VRef l) k h = (Return (VRef (length h)), h ++ [∅]).
Proof.
  intros Hget. unfold get_or_new. rewrite (list_lookup_total_correct _ _ _ Hnode).
  by rewrite dict_of_lookup, Hget.
Qed.

Lemma setdefault_present (c : ltree) :
  dict_get k m = Some c → setdefault_new (VRef l) k h = (Return (root c), h).
Proof.
  intros Hget. unfold setdefault_new. rewrite (list_lookup_total_correct _ _ _ Hnode).
  by rewrite dict_of_lookup, Hget.
Qed.

Lemma contains_key_present (c : ltree) :
  dict_get k m = Some c → contains_key (VRef l) k h = (Return true, h).
Proof.
  intros Hget. unfold contains_key. rewrite (list_lookup_total_correct _ _ _ Hnode).
  by rewrite dict_of_lookup, Hget.
Qed.

Lemma contains_key_absent :
  dict_get k m = None → contains_key (VRef l) k h = (Return false, h).
Proof.
  intros Hget. unfold contains_key. rewrite (list_lookup_total_correct _ _ _ Hnode).
  by rewrite dict_of_lookup, Hget.
Qed.

Lemma getitem_dict_present (c : ltree) :
  dict_get k m = Some c → getitem_dict (VRef l) k h = (Return (root c), h).
Proof.
  intros Hget. unfold getitem_dict. rewrite (list_lookup_total_correct _ _ _ Hnode).
  by rewrite dict_of_lookup, Hget.
Qed.

Lemma setitem_node (c : ltree) :
  setitem (VRef l) k (root c) h = (Return (), <[l := dict_of (gset k c m)]> h).
Proof.
  unfold setitem. rewrite (list_lookup_total_correct _ _ _ Hnode).
  by rewrite dict_of_gset.
Qed.

Lemma delitem_node (c : ltree) :
  dict_get k m = Some c →
  delitem (VRef l) k h = (Return (), <[l := dict_of (dict_del k m)]> h).
Proof.
  intros Hget. unfold delitem. rewrite (list_lookup_total_correct _ _ _ Hnode).
  by rewrite dict_of_lookup, Hget, dict_of_del.
Qed.

Lemma falsy_node : falsy (VRef l) h = (Return (bool_decide (m = [])), h).
Proof.
  unfold falsy. rewrite (list_lookup_total_correct _ _ _ Hnode).
  do 2 f_equal. apply bool_decide_ext. apply dict_of_empty.
Qed.

End Node.

Lemma children_locs_single (k : string) (c : ltree) :
  children_locs [(k, c)] = own_locs c.
Proof. unfold children_locs. simpl. apply app_nil_r. Qed.

Lemma dict_get_single_del (k k0 : string) (c : ltree) (m : list (string * ltree)) :
  k0 ≠ k → dict_get k0 ([(k, c)] ++ dict_del k m) = dict_get k0 m.
Proof.
  intros Hne. change ([(k, c)] ++ dict_del k m) with (gset k c m).
  rewrite dict_get_gset. by rewrite decide_False.
Qed.

Lemma dict_get_single_eq (k : string) (c : ltree) (m : list (string * ltree)) :
  dict_get k ([(k, c)] ++ dict_del k m) = Some c.
Proof.
  change ([(k, c)] ++ dict_del k m) with (gset k c m).
  rewrite dict_get_gset. by rewrite decide_True.
Qed.

Lemma own_child_apart (l : loc) (mc : list (string * ltree)) (k : string) (c : ltree)
    (l0 : loc) :
  NoDup (own_locs (LDict l mc)) → dict_get k mc = Some c → l0 ∈ own_locs c →
  l0 ∈ children_locs mc ∧ l0 ∉ children_locs (dict_del k mc).
Proof.
  intros Hnd Hget Hl0. rewrite own_locs_dict in Hnd. apply NoDup_cons in Hnd as [_ Hnd].
  split.
  - apply children_locs_elem. exists k, c. split; [by apply dict_get_elem|done].
  - by apply (children_locs_get_del k c).
Qed.

Lemma reset_step (l : loc) (tags rest : list (string * pyval)) (k : string) (x : pyval)
    (h : heap) (mc : list (string * ltree)) (dt : ltree) (F : list loc) :
  reset_ok x → dict_get k rest = None →
  wf_dict x = true → entry_restorable tags (k, x) = true →
  over (LDict l mc) tags ((k, x) :: rest) → tidy h (LDict l mc) → lent F (LDict l mc) →
  unshared dt = true → lrep dt (PDict tags) → holds h dt →
  (∀ l0, l0 ∈ all_locs dt → l0 ∈ F) →
  (∀ l0, l0 ∈ F → l0 < length h ∧ l0 ∉ own_locs (LDict l mc)) →
  ∃ h1 mc1, reset_body (VRef l) (root dt) k (selectors x) h = (Return (), h1) ∧
    over (LDict l mc1) tags rest ∧ tidy h1 (LDict l mc1) ∧ lent F (LDict l mc1) ∧
    grown h h1 (own_locs (LDict l mc)) (own_locs (LDict l mc1)).
Proof.
  intros IHx Hk Hwf Hres Hover Ht Hlent Hud Hrepd Hhd HdF HF.
  destruct (lrep_unshared_dict dt tags Hud Hrepd) as (ld & md & -> & Hslots).
  pose proof Hhd as [Hhld Hhdc]%holds_dict.
  pose proof Ht as (Hh & Hnd & Hb). pose proof Hh as [Hhl Hhc]%holds_dict.
  inversion Hover as [? ? ? ? Hou Hoa Hod]; subst.
  assert (∀ l0, l0 ∈ own_locs (LDict l mc) → l0 < length h) as Hb' by done.
  destruct x as [a|u'].
  - (* the selector is True *)
    assert (is_Some (dict_get k mc)) as [c Hget].
    { rewrite (Hoa k a); [by eexists|]. simpl. by rewrite String.eqb_refl. }
    simpl selectors. unfold reset_body, PTrue.
    destruct (dict_get k md) as [dc|] eqn:Hgetd.
    + (* the default holds the tag: the very value goes back *)
      pose proof (Hslots k) as Hslot. rewrite Hgetd in Hslot.
      inversion Hslot as [? t Hrep Hx Ht0|]; subst. symmetry in Ht0.
      destruct (renode h h l mc [(k, LShared dc)] k [] F)
        as (Hl2 & Ht1 & Hlent1 & Hg1); try done.
      * intros k0 c0 [= -> ->]%list_elem_of_singleton. split.
        -- change (holds h dc). apply (holds_child h ld md k); [done|by apply dict_get_elem].
        -- intros l0 Hl0. apply HdF. simpl in Hl0.
           apply (all_locs_child ld md k dc); [by apply dict_get_elem|done].
      * rewrite children_locs_single. simpl. constructor.
      * rewrite children_locs_single. simpl. apply grown_refl.
        by intros ? ?%elem_of_nil.
      * by intros ? ?%elem_of_nil.
      * eexists _, _. split_and!; [ | | exact Ht1 | exact Hlent1 | exact Hg1].
        -- erewrite bind_return; [|by apply (contains_key_present h ld md k Hhld dc)].
           simpl. erewrite bind_return;
             [|by apply (getitem_dict_present h ld md k Hhld dc)].
           apply (setitem_node h l mc k Hhl (LShared dc)).
        -- apply (over_uninstall l mc _ tags rest k (PAtom a)); try done.
           ++ rewrite dict_get_single_eq, Ht0. constructor. by constructor.
           ++ intros k0 Hne. by apply dict_get_single_del.
    + (* the default does not hold the tag: the tag is deleted *)
      pose proof (Hslots k) as Hslot. rewrite Hgetd in Hslot.
      inversion Hslot as [|Hx Ht0]; subst. symmetry in Ht0.
      destruct (renode h h l mc [] k [] F) as (Hl2 & Ht1 & Hlent1 & Hg1); try done.
      * by intros ? ? ?%elem_of_nil.
      * constructor.
      * apply grown_refl. by intros ? ?%elem_of_nil.
      * by intros ? ?%elem_of_nil.
      * eexists _, _. split_and!; [ | | exact Ht1 | exact Hlent1 | exact Hg1].
        -- erewrite bind_return; [|by apply (contains_key_absent h ld md k Hhld)].
           simpl. apply (delitem_node h l mc k Hhl c Hget).
        -- apply (over_uninstall l mc _ tags rest k (PAtom a)); try done.
           ++ simpl. rewrite dict_get_del, decide_True by done. rewrite Ht0. constructor.
           ++ intros k0 Hne. simpl. by apply dict_get_extra_del.
  - (* the selector is a nested mapping *)
    apply entry_restorable_dict in Hres as (Hres & Hnoatom & Hnoempty).
    destruct (Hod k u') as (c & Hget & Hoverc).
    { simpl. by rewrite String.eqb_refl. }
    inversion Hoverc as [lc mcc ? ? _ _ _]; subst.
    assert ((k, LDict lc mcc) ∈ mc) as Hin by by apply dict_get_elem.
    pose proof (tidy_child h l mc k _ Ht Hin) as (Hhc0 & Hndc & Hbc).
    pose proof (lent_child F l mc k _ Hlent Hin) as Hlentc.
    assert (∀ l0, l0 ∈ own_locs (LDict lc mcc) → l0 ∈ own_locs (LDict l mc)) as Hsubown.
    { intros l0 Hl0. rewrite (own_locs_dict l). right.
      apply children_locs_elem. by exists k, (LDict lc mcc). }
    change (selectors (PDict u')) with (PDict (selector_items u')).
    unfold reset_body.
    destruct (dict_get k md) as [dc|] eqn:Hgetd.
    + (* the default holds a dict under the tag *)
      pose proof (Hslots k) as Hslot. rewrite Hgetd in Hslot.
      inversion Hslot as [? t Hrep Hx Ht0|]; subst. symmetry in Ht0.
      assert (∃ sub, t = PDict sub) as [sub ->].
      { destruct t as [a|sub]; [by destruct (Hnoatom a)|by exists sub]. }
      assert (sub ≠ []) as Hsubne by (by intros ->).
      assert (subdict tags k = sub) as Hsub by (unfold subdict; by rewrite Ht0).
      assert ((k, dc) ∈ md) as Hind by by apply dict_get_elem.
      assert (unshared dc = true) as Hudc by by apply (unshared_child ld md k).
      destruct (IHx h lc mcc dc sub u' F eq_refl Hwf)
        as (h2 & mcc' & Hreset & Hrep' & Ht' & Hlent' & Hg'); try done.
      { by rewrite <- Hsub. }
      { by rewrite <- Hsub. }
      { by apply (holds_child h ld md k). }
      { intros l0 Hl0. apply HdF. by apply (all_locs_child ld md k dc). }
      { intros l0 Hl0. destruct (HF l0 Hl0) as [? Hno]. split; [done|].
        intros Hx. apply Hno. by apply Hsubown. }
      assert (mcc' ≠ []) as Hne'.
      { intros ->. apply Hsubne. by apply (lrep_nil lc [] sub). }
      destruct (lrep_unshared_dict dc sub Hudc Hrep) as (ld' & md' & -> & _).
      destruct (renode h h2 l mc [(k, LDict lc mcc')] k (own_locs (LDict lc mcc)) F)
        as (Hl2 & Ht1 & Hlent1 & Hg1); try done.
      * intros k0 c0 [= -> ->]%list_elem_of_singleton. split; [|done].
        by destruct Ht' as (? & _ & _).
      * rewrite children_locs_single. by destruct Ht' as (_ & ? & _).
      * by rewrite children_locs_single.
      * intros l0 Hl0. by apply (own_child_apart l mc k (LDict lc mcc)).
      * assert (<[l := dict_of ([(k, LDict lc mcc')] ++ dict_del k mc)]> h2 = h2) as Hid.
        { apply list_insert_id.
          change ([(k, LDict lc mcc')] ++ dict_del k mc) with (gset k (LDict lc mcc') mc).
          rewrite dict_of_gset. rewrite insert_id; [done|].
          by rewrite dict_of_lookup, Hget. }
        rewrite Hid in Ht1, Hg1.
        eexists _, _. split_and!; [ | | exact Ht1 | exact Hlent1 | exact Hg1].
        -- erewrite bind_return;
             [|by apply (get_or_new_present h ld md k Hhld (LDict ld' md'))].
           simpl. erewrite bind_return;
             [|by apply (setdefault_present h l mc k Hhl (LDict lc mcc))].
           simpl. erewrite bind_return; [|exact Hreset].
           erewrite bind_return; last first.
           { apply (falsy_node h2 lc mcc'). destruct Ht' as (Hh' & _ & _).
             by apply holds_dict in Hh' as [? _]. }
           by rewrite bool_decide_eq_false_2.
        -- apply (over_uninstall l mc _ tags rest k (PDict u')); try done.
           ++ rewrite dict_get_single_eq, Ht0. by constructor.
           ++ intros k0 Hne. by apply dict_get_single_del.
    + (* the default does not hold the tag: the branch is emptied and deleted *)
      pose proof (Hslots k) as Hslot. rewrite Hgetd in Hslot.
      inversion Hslot as [|Hx Ht0]; subst. symmetry in Ht0.
      assert (subdict tags k = []) as Hsub by (unfold subdict; by rewrite Ht0).
      pose (dc := LDict (length h) []).
      destruct (IHx (h ++ [∅]) lc mcc dc [] u' (length h :: F) eq_refl Hwf)
        as (h2 & mcc' & Hreset & Hrep' & Ht' & Hlent' & Hg'); try done.
      { by rewrite <- Hsub. }
      { by rewrite <- Hsub. }
      { split_and!; [by apply holds_append|done|].
        intros l0 Hl0. rewrite length_app. simpl. specialize (Hbc l0 Hl0). lia. }
      { intros l0 Hl0. right. by apply Hlentc. }
      { constructor. intros k0. constructor. }
      { apply holds_dict. split; [by rewrite list_lookup_middle|].
        by intros ? ? ?%elem_of_nil. }
      { intros l0 Hl0. apply all_locs_dict in Hl0 as [->|(? & ? & ?%elem_of_nil & _)];
          [by left|done]. }
      { intros l0 Hl0. rewrite length_app. simpl.
        apply elem_of_cons in Hl0 as [->|Hl0].
        - split; [lia|]. intros Hy. specialize (Hbc _ Hy). lia.
        - destruct (HF l0 Hl0) as [? Hno]. split; [lia|].
          intros Hy. apply Hno. by apply Hsubown. }
      assert (mcc' = []) as -> by (by apply (lrep_nil lc mcc' [])).
      assert (grown h h2 (own_locs (LDict lc mcc)) (children_locs [])) as Hg.
      { destruct Hg' as (GL & GS & GB & GF). rewrite length_app in *. simpl in *.
        repeat split.
        - lia.
        - by intros ? ?%elem_of_nil.
        - by intros ? ?%elem_of_nil.
        - intros l0 Hl0 Hno. rewrite GF; [by apply lookup_app_l|lia|done]. }
      destruct (renode h h2 l mc [] k (own_locs (LDict lc mcc)) F)
        as (Hl2 & Ht1 & Hlent1 & Hg1); try done.
      * by intros ? ? ?%elem_of_nil.
      * constructor.
      * intros l0 Hl0. by apply (own_child_apart l mc k (LDict lc mcc)).
      * eexists _, _. split_and!; [ | | exact Ht1 | exact Hlent1 | exact Hg1].
        -- erewrite bind_return; [|by apply (get_or_new_absent h ld md k Hhld)].
           simpl. erewrite bind_return; last first.
           { apply (setdefault_present (h ++ [∅]) l mc k); [|exact Hget].
             rewrite lookup_app_l; [done|]. apply Hb'. by left. }
           simpl. erewrite bind_return; [|exact Hreset].
           erewrite bind_return; last first.
           { apply (falsy_node h2 lc []). destruct Ht' as (Hh' & _ & _).
             by apply holds_dict in Hh' as [? _]. }
           simpl. apply (delitem_node h2 l mc k Hl2 _ Hget).
        -- apply (over_uninstall l mc _ tags rest k (PDict u')); try done.
           ++ simpl. rewrite dict_get_del, decide_True by done. rewrite Ht0. constructor.
           ++ intros k0 Hne. simpl. by apply dict_get_extra_del.
Qed.

Lemma reset_loop (l : loc) (tags : list (string * pyval)) (dt : ltree) (F : list loc)
    (rest : list (string * pyval)) :
  Forall (λ kv, reset_ok kv.2) rest →
  unshared dt = true → lrep dt (PDict tags) → (∀ l0, l0 ∈ all_locs dt → l0 ∈ F) →
  ∀ h mc,
    NoDup rest.*1 →
    forallb (λ kv, wf_dict kv.2) rest = true →
    forallb (entry_restorable tags) rest = true →
    over (LDict l mc) tags rest → tidy h (LDict l mc) → lent F (LDict l mc) →
    holds h dt →
    (∀ l0, l0 ∈ F → l0 < length h ∧ l0 ∉ own_locs (LDict l mc)) →
    ∃ h' mc',
      for_items (reset_body (VRef l) (root dt)) (selector_items rest) h = (Return (), h') ∧
      over (LDict l mc') tags [] ∧ tidy h' (LDict l mc') ∧ lent F (LDict l mc') ∧
      grown h h' (own_locs (LDict l mc)) (own_locs (LDict l mc')).
Proof.
  intros IHs Hud Hrepd HdF.
  induction IHs as [|[k x] rest IHx _ IH]; intros h mc Hnd Hwf Hres Hover Ht Hlent Hhd HF.
  - exists h, mc. split_and!; try done.
    apply grown_refl. by destruct Ht as (_ & _ & ?).
  - simpl in Hwf, Hres, Hnd. apply andb_true_iff in Hwf as [Hwfx Hwf].
    apply andb_true_iff in Hres as [Hresx Hres].
    apply NoDup_cons in Hnd as [Hk Hnd]. apply dict_get_none in Hk.
    destruct (reset_step l tags rest k x h mc dt F IHx Hk Hwfx Hresx Hover Ht Hlent
                Hud Hrepd Hhd HdF HF) as (h1 & mc1 & Hstep & Ho1 & Ht1 & Hl1 & Hg1).
    pose proof Hg1 as (GL & GS & GB & GF).
    destruct (IH h1 mc1) as (h2 & mc2 & Hloop & Ho2 & Ht2 & Hl2 & Hg2); try done.
    { apply (holds_frame h); [done|]. intros l0 Hl0.
      destruct (HF l0 (HdF l0 Hl0)). by apply GF. }
    { intros l0 Hl0. destruct (HF l0 Hl0) as [Hlt Hno]. split; [lia|].
      intros Hx. destruct (GS l0 Hx); [done|lia]. }
    exists h2, mc2. split_and!; try done.
    + change (selector_items ((k, x) :: rest))
        with ((k, selectors x) :: selector_items rest).
      rewrite for_items_cons. by erewrite bind_return.
    + by apply (grown_trans h h1 h2 _ (own_locs (LDict l mc1))).
Qed.

Lemma reset_refines (u : pyval) : reset_ok u.
Proof.
  induction u as [a|ms IH] using pyval_nested_ind;
    intros h l mc dt tags ms' F Heq Hwf Hres Hover Ht Hlent Hud Hrepd Hhd HdF HF;
    [done|].
  injection Heq as <-. apply wf_dict_unfold in Hwf as [Hnd Hwf].
  rewrite restorable_unfold in Hres.
  destruct (reset_loop l tags dt F ms IH Hud Hrepd HdF h mc)
    as (h' & mc' & Hloop & Ho' & Ht' & Hl' & Hg'); try done.
  exists h', mc'. split_and!; try done. by apply lrep_over_nil.
Qed.

Lemma lheight_child (l : loc) (m : list (string * ltree)) (k : string) (c : ltree) :
  (k, c) ∈ m → lheight c < lheight (LDict l m).
Proof.
  simpl. induction m as [|[k1 c1] m IH]; intros Hin.
  - by apply elem_of_nil in Hin.
  - simpl. apply elem_of_cons in Hin as [[= <- <-]|Hin]; [lia|].
    specialize (IH Hin). lia.
Qed.

Lemma holds_prefix (h h' : heap) (t : ltree) :
  h `prefix_of` h' → holds h t → holds h' t.
Proof.
  intros [tail ->] H l0 d Hin. specialize (H l0 d Hin).
  rewrite lookup_app_l; [done|]. by apply lookup_lt_Some in H.
Qed.

Lemma alloc_items_shape (m : list (string * pyval)) :
  Forall (λ kv, alloc_ok kv.2) m → NoDup m.*1 →
  forallb (λ kv, wf_dict kv.2) m = true →
  ∀ gm h,
    ∃ new, (alloc_items alloc m (dict_of gm) h).1 = dict_of (new ++ gm) ∧
      h `prefix_of` (alloc_items alloc m (dict_of gm) h).2 ∧
      (∀ k, option_Forall2 lrep (dict_get k new) (dict_get k m)) ∧
      (∀ k c, (k, c) ∈ new →
         holds (alloc_items alloc m (dict_of gm) h).2 c ∧ unshared c = true ∧
         lheight c ≤ foldr (λ kv n, Nat.max (dict_depth kv.2) n) 0 m) ∧
      NoDup (children_locs new) ∧
      (∀ l0, l0 ∈ children_locs new →
         length h ≤ l0 < length (alloc_items alloc m (dict_of gm) h).2).
Proof.
  induction 1 as [|[k x] m IHx _ IH]; intros Hnd Hwf gm h.
  - exists []. simpl. split_and!; try done.
    + intros k. constructor.
    + by intros ? ? ?%elem_of_nil.
    + constructor.
    + by intros ? ?%elem_of_nil.
  - simpl in Hnd, Hwf. apply NoDup_cons in Hnd as [Hk Hnd].
    apply andb_true_iff in Hwf as [Hwfx Hwf]. simpl in IHx.
    destruct (IHx Hwfx h) as (c & Hroot & Hu & Hrep & Hh & Hndc & Hb & Hpre & Hht).
    simpl. destruct (alloc x h) as [v h1] eqn:Halloc. simpl in *. subst v.
    change (<[k := root c]> (dict_of gm)) with (dict_of ((k, c) :: gm)).
    destruct (IH Hnd Hwf ((k, c) :: gm) h1)
      as (new & Hd & Hpre' & Hslots & Hnew & Hndn & Hbn).
    set (r := alloc_items alloc m (dict_of ((k, c) :: gm)) h1) in *.
    assert (length h ≤ length h1) as Hlen by by apply prefix_length.
    assert (length h1 ≤ length r.2) as Hlen' by by apply prefix_length.
    exists (new ++ [(k, c)]). split_and!.
    + by rewrite <- app_assoc.
    + by trans h1.
    + intros k0. rewrite dict_get_app. simpl.
      specialize (Hslots k0). destruct (String.eqb_spec k0 k) as [->|Hne].
      * apply dict_get_none in Hk. rewrite Hk in Hslots.
        inversion Hslots. by constructor.
      * by destruct (dict_get k0 new).
    + intros k0 c0 Hin. apply elem_of_app in Hin as [Hin|Hin].
      * destruct (Hnew k0 c0 Hin) as (? & ? & ?). split_and!; [done|done|lia].
      * apply list_elem_of_singleton in Hin as [= -> ->].
        split_and!; [by apply (holds_prefix h1)|done|lia].
    + rewrite children_locs_app, children_locs_single. apply NoDup_app.
      split_and!; [done| |done].
      intros l0 Hl0 Hl0'. specialize (Hbn l0 Hl0). specialize (Hb l0 Hl0'). lia.
    + rewrite children_locs_app, children_locs_single. intros l0 Hl0.
      apply elem_of_app in Hl0 as [Hl0|Hl0].
      * specialize (Hbn l0 Hl0). lia.
      * specialize (Hb l0 Hl0). lia.
Qed.

Lemma alloc_shape (p : pyval) : alloc_ok p.
Proof.
  induction p as [a|m IH] using pyval_nested_ind; intros Hwf h.
  - exists (LAtom a). simpl. split_and!; try done.
    + constructor.
    + by intros ? ? ?%elem_of_nil.
    + constructor.
    + by intros ? ?%elem_of_nil.
  - apply wf_dict_unfold in Hwf as [Hnd Hwf].
    destruct (alloc_items_shape m IH Hnd Hwf [] h)
      as (new & Hd & Hpre & Hslots & Hnew & Hndn & Hbn).
    rewrite app_nil_r in Hd. simpl.
    change (dict_of []) with (∅ : gmap string val) in *.
    destruct (alloc_items alloc m ∅ h) as [d h1] eqn:Hitems. simpl in *. subst d.
    assert (length h ≤ length h1) as Hlen by by apply prefix_length.
    exists (LDict (length h1) new). split_and!.
    + done.
    + simpl. apply forallb_forall. intros [k c] Hin%list_elem_of_In.
      by destruct (Hnew k c Hin) as (? & ? & ?).
    + by constructor.
    + apply holds_dict. split; [by rewrite list_lookup_middle|].
      intros k c Hin. destruct (Hnew k c Hin) as (? & ? & ?).
      apply (holds_prefix h1); [by apply prefix_app_r|done].
    + rewrite own_locs_dict. apply NoDup_cons. split; [|done].
      intros Hin. specialize (Hbn _ Hin). lia.
    + rewrite own_locs_dict, length_app. simpl. intros l0 Hl0.
      apply elem_of_cons in Hl0 as [->|Hl0]; [lia|]. specialize (Hbn l0 Hl0). lia.
    + trans h1; [done|]. by apply prefix_app_r.
    + apply le_n_S. clear -Hnew. induction new as [|[k c] new IHn]; simpl; [lia|].
      apply Nat.max_lub.
      * destruct (Hnew k c) as (_ & _ & ?); [by left|done].
      * apply IHn. intros k0 c0 Hin. apply (Hnew k0 c0). by right.
Qed.

Lemma deepcopy_items_shape (l : loc) (m : list (string * ltree)) (depth : nat)
    (h : heap) :
  Forall (λ kc, deepcopy_ok kc.2) m → unshared (LDict l m) = true →
  lheight (LDict l m) ≤ S depth → holds h (LDict l m) →
  ∀ msub, copied h m (map_fold (deepcopy_item (deepcopy depth)) (Return ∅, h) msub) msub.
Proof.
  intros IH Hu Hht Hh.
  apply (map_fold_weak_ind (copied h m)).
  - intros _. exists []. simpl. split_and!; try done.
    + by intros ? ? ?%elem_of_nil.
    + constructor.
    + by intros ? ?%elem_of_nil.
  - intros i x msub r Hi Hr Hsub.
    destruct Hr as (new & Hd & Hpre & Hdom & Hcopy & Hnew & Hnd & Hb).
    { intros k v Hk. apply Hsub. rewrite lookup_insert_ne; [done|]. congruence. }
    destruct r as [o h1]. simpl in *. subst o.
    assert (∃ c, dict_get i m = Some c ∧ root c = x) as (c & Hget & <-).
    { specialize (Hsub i x). rewrite lookup_insert_eq in Hsub.
      specialize (Hsub eq_refl). rewrite dict_of_lookup in Hsub.
      destruct (dict_get i m) as [c|]; simpl in Hsub; [|done]. exists c.
      split; [done|]. by injection Hsub. }
    assert ((i, c) ∈ m) as Hin by by apply dict_get_elem.
    rewrite Forall_forall in IH.
    destruct (IH (i, c) Hin (unshared_child l m i c Hu Hin) depth h1)
      as (c' & Hroot & Hpre' & Hu' & Hh' & Hnd' & Hb' & Hrep').
    { pose proof (lheight_child l m i c Hin) as Hlt. simpl in Hlt, Hht |- *. lia. }
    { apply (holds_prefix h); [done|]. by apply (holds_child h l m i). }
    simpl in *. destruct (deepcopy depth (root c) h1) as [o h2]. simpl in *. subst o.
    assert (length h ≤ length h1) as Hlen by by apply prefix_length.
    assert (length h1 ≤ length h2) as Hlen' by by apply prefix_length.
    exists ((i, c') :: new). simpl. split_and!.
    + done.
    + by trans h1.
    + intros k. destruct (String.eqb_spec k i) as [->|Hne].
      * by rewrite lookup_insert_eq.
      * rewrite lookup_insert_ne by done. apply Hdom.
    + intros k c0. destruct (String.eqb_spec k i) as [->|Hne].
      * intros [= <-]. by exists c.
      * apply Hcopy.
    + intros k c0 Hin0. apply elem_of_cons in Hin0 as [[= -> ->]|Hin0]; [done|].
      destruct (Hnew k c0 Hin0). split; [|done]. by apply (holds_prefix h1).
    + change (NoDup (children_locs ([(i, c')] ++ new))).
      rewrite children_locs_app, children_locs_single. apply NoDup_app.
      split_and!; [done| |done].
      intros l0 Hl0 Hl0'. specialize (Hb l0 Hl0'). specialize (Hb' l0 Hl0). lia.
    + change (∀ l0, l0 ∈ children_locs ([(i, c')] ++ new) → length h ≤ l0 < length h2).
      rewrite children_locs_app, children_locs_single. intros l0 Hl0.
      apply elem_of_app in Hl0 as [Hl0|Hl0].
      * specialize (Hb' l0 Hl0). lia.
      * specialize (Hb l0 Hl0). lia.
Qed.

Lemma deepcopy_shape (ct : ltree) : deepcopy_ok ct.
Proof.
  induction ct as [a|l m IH|c IH] using ltree_nested_ind; intros Hu depth h Hht Hh;
    [| |done].
  - exists (LAtom a).
    destruct depth; simpl;
      (split_and!; [done|done|done|done|apply NoDup_nil_2|by intros ? ?%elem_of_nil|done]).
  - destruct depth as [|depth]; [simpl in Hht; lia|].
    pose proof Hh as [Hhl _]%holds_dict.
    destruct (deepcopy_items_shape l m depth h IH Hu Hht Hh (dict_of m))
      as (new & Hd & Hpre & Hdom & Hcopy & Hnew & Hnd & Hb); [done|].
    simpl. rewrite (list_lookup_total_correct _ _ _ Hhl).
    destruct (map_fold _ _ (dict_of m)) as [o h1]. simpl in *. subst o.
    assert (length h ≤ length h1) as Hlen by by apply prefix_length.
    exists (LDict (length h1) new). simpl. split_and!.
    + done.
    + trans h1; [done|]. by apply prefix_app_r.
    + apply forallb_forall. intros [k c] Hin%list_elem_of_In.
      by destruct (Hnew k c Hin).
    + apply holds_dict. split; [by rewrite list_lookup_middle|].
      intros k c Hin. destruct (Hnew k c Hin).
      apply (holds_prefix h1); [by apply prefix_app_r|done].
    + apply NoDup_cons. split; [|done]. intros Hin. specialize (Hb _ Hin). lia.
    + rewrite length_app. simpl. intros l0 Hl0.
      apply elem_of_cons in Hl0 as [->|Hl0]; [lia|]. specialize (Hb l0 Hl0). lia.
    + intros t Hrep. inversion Hrep as [|? ? tm Hslots|]; subst. constructor.
      intros k. specialize (Hslots k). specialize (Hdom k). specialize (Hcopy k).
      rewrite dict_of_lookup in Hdom.
      destruct (dict_get k new) as [c'|].
      * destruct (Hcopy c' eq_refl) as (c & Hget & Hrep'). rewrite Hget in Hslots.
        inversion Hslots; subst. constructor. by apply Hrep'.
      * destruct (dict_get k m) as [c|].
        -- destruct Hdom as [Hdom _]. by specialize (Hdom eq_refl).
        -- done.
Qed.

(** From the shape to the tags. *)
Lemma represents_items (h : heap) (d : gmap string val) (m : list (string * pyval)) :
  (∀ k t, (k, t) ∈ m → ∃ v, d !! k = Some v ∧ represents h v t) →
  (fix items (m : list (string * pyval)) : Prop :=
     match m with
     | [] => True
     | (k, t') :: m' => (∃ v', d !! k = Some v' ∧ represents h v' t') ∧ items m'
     end) m.
Proof.
  induction m as [|[k t] m IH]; intros H; [done|]. split.
  - apply H. by left.
  - apply IH. intros k0 t0 Hin. apply H. by right.
Qed.

Lemma holds_represents (h : heap) (ct : ltree) :
  ∀ t, wf_dict t = true → holds h ct → lrep ct t → represents h (root ct) t.
Proof.
  induction ct as [a|l mc IH|c IH] using ltree_nested_ind; intros t Hwf Hh Hrep.
  - inversion Hrep; subst. done.
  - inversion Hrep as [|? ? m Hslots|]; subst.
    apply wf_dict_unfold in Hwf as [Hnd Hwf].
    apply holds_dict in Hh as [Hhl Hhc]. simpl.
    exists l, (dict_of mc). split_and!; [done|done| |].
    + intros k. rewrite dict_of_lookup. specialize (Hslots k).
      destruct (dict_get k mc), (dict_get k m); simpl; try done; inversion Hslots.
    + apply represents_items. intros k t Hin.
      pose proof (dict_get_nodup k t m Hnd Hin) as Hget.
      specialize (Hslots k). rewrite Hget in Hslots.
      inversion Hslots as [c ? Hrepc Hgetc|]; subst. symmetry in Hgetc.
      exists (root c). split; [by rewrite dict_of_lookup, Hgetc|].
      assert ((k, c) ∈ mc) as Hinc by by apply dict_get_elem.
      rewrite Forall_forall in IH. apply (IH (k, c) Hinc); [|by apply (Hhc k)|done].
      rewrite forallb_forall in Hwf. apply (Hwf (k, t)). by apply list_elem_of_In.
  - inversion Hrep; subst. by apply IH.
Qed.

(** What the constructor leaves in the heap: the custom tags as an
    unshared tree, and their deep copy in dicts of its own. *)
Lemma Field_init_shape (depth : nat) (attr : option attribute_source)
    (downsamplers : option (list string)) (type : string)
    (tags : list (string * pyval)) (h : heap) :
  wf_dict (PDict tags) = true →
  dict_depth (PDict tags) ≤ depth →
  ∃ b h1 lc mc dt,
    Field_init depth attr (Some tags) downsamplers type h = (Return b, h1) ∧
    custom_tags b = VRef lc ∧ default_tags b = root dt ∧
    name b = None ∧ attribute b = attr ∧ value_type b = type ∧
    unshared (LDict lc mc) = true ∧ lrep (LDict lc mc) (PDict tags) ∧
    tidy h1 (LDict lc mc) ∧
    unshared dt = true ∧ lrep dt (PDict tags) ∧ holds h1 dt ∧
    (∀ l0, l0 ∈ all_locs dt → l0 < length h1 ∧ l0 ∉ own_locs (LDict lc mc)) ∧
    h `prefix_of` h1.
Proof.
  intros Hwft Hdepth.
  destruct (alloc_shape (PDict tags) Hwft h)
    as (ct & Hrootc & Huc & Hrepc & Hhc & Hndc & Hbc & Hprec & Hhtc).
  destruct (alloc (PDict tags) h) as [vc h0] eqn:Halloc.
  assert (alloc_dict tags h = (Return vc, h0)) as Hcustom.
  { unfold alloc_dict. by rewrite Halloc. }
  clear Halloc. cbn [fst snd] in *. subst vc.
  destruct (deepcopy_shape ct Huc depth h0)
    as (dt & Hrootd & Hpred & Hud & Hhd & Hndd & Hbd & Hrepd); [lia|done|].
  destruct (deepcopy depth (root ct) h0) as [od h1] eqn:Hcopy.
  cbn [fst snd] in *. subst od.
  destruct (lrep_unshared_dict ct tags Huc Hrepc) as (lc & mc & -> & _).
  assert (length h0 ≤ length h1) as Hlen by (by apply prefix_length).
  eexists _, h1, lc, mc, dt. split_and!.
  - unfold Field_init. erewrite bind_return; last first.
    { simpl default. exact Hcustom. }
    simpl. by erewrite bind_return.
  - done.
  - done.
  - done.
  - done.
  - done.
  - done.
  - done.
  - split_and!; [by apply (holds_prefix h0)|done|].
    intros l0 Hl0. specialize (Hbc l0 Hl0). lia.
  - done.
  - by apply Hrepd.
  - done.
  - intros l0 Hl0. apply unshared_all_locs in Hl0; [|done].
    specialize (Hbd l0 Hl0). split; [lia|].
    intros Hx. specialize (Hbc l0 Hx). lia.
  - by etrans.
Qed.

(** [set_tags] on tags that nothing else refers to: it returns, the
    custom tags carry the overrides, and every dict outside the custom
    tags is as it was. *)
Lemma set_tags_shape (b : field_base) (h1 : heap) (lc : loc)
    (mc : list (string * ltree)) (dt : ltree) (tags overrides : list (string * pyval)) :
  custom_tags b = VRef lc →
  wf_dict (PDict overrides) = true →
  mergeable tags (PDict overrides) = true →
  unshared (LDict lc mc) = true → lrep (LDict lc mc) (PDict tags) →
  tidy h1 (LDict lc mc) → holds h1 dt →
  (∀ l0, l0 ∈ all_locs dt → l0 < length h1 ∧ l0 ∉ own_locs (LDict lc mc)) →
  ∃ h2 mc',
    set_tags b overrides h1 = (Return (), h2) ∧
    over (LDict lc mc') tags overrides ∧ tidy h2 (LDict lc mc') ∧
    unshared (LDict lc mc') = true ∧ holds h2 dt ∧
    (∀ l0, l0 ∈ all_locs dt → l0 < length h2 ∧ l0 ∉ own_locs (LDict lc mc')).
Proof.
  intros Hb Hwfo Hres Huc Hrepc Htc Hhd Hdlocs.
  destruct (update_refines (PDict overrides) h1 lc mc tags overrides eq_refl Hwfo Hres
              Huc Hrepc Htc) as (h2 & mc' & Hupd & Hu' & Hover & Ht' & Hg').
  pose proof Hg' as (GL & GS & GB & GF).
  exists h2, mc'. split_and!; try done.
  - unfold set_tags. rewrite Hb. by erewrite bind_return.
  - apply (holds_frame h1); [done|]. intros l0 Hl0.
    destruct (Hdlocs l0 Hl0) as [Hlt Hnot]. by apply GF.
  - intros l0 Hl0. destruct (Hdlocs l0 Hl0) as [Hlt Hnot]. split; [lia|].
    intros Hx. destruct (GS l0 Hx) as [Hy|Hy]; [done|lia].
Qed.

(** X1: a field right after construction with tags [tags]: setting
    overrides that are [restorable] and then resetting the same nested
    keys returns, and the custom tags (and the default tags) are again
    the tags the field was built with. *)
Theorem set_tags_then_reset_restores_fresh_tags (depth : nat)
    (attr : option attribute_source) (downsamplers : option (list string))
    (type : string) (tags overrides : list (string * pyval)) (h : heap) :
  wf_dict (PDict tags) = true →
  wf_dict (PDict overrides) = true →
  restorable tags (PDict overrides) = true →
  dict_depth (PDict tags) ≤ depth →
  ∃ b h1 h2 h3,
    Field_init depth attr (Some tags) downsamplers type h = (Return b, h1) ∧
    represents h1 (custom_tags b) (PDict tags) ∧
    set_tags b overrides h1 = (Return (), h2) ∧
    reset_tags_to_default b (selector_items overrides) h2 = (Return (), h3) ∧
    represents h3 (custom_tags b) (PDict tags) ∧
    represents h3 (default_tags b) (PDict tags).
Proof.
  intros Hwft Hwfo Hres Hdepth.
  destruct (Field_init_shape depth attr downsamplers type tags h Hwft Hdepth)
    as (b & h1 & lc & mc & dt & Hinit & Hbc & Hbd & _ & _ & _ & Huc & Hrepc & Htc
        & Hud & Hrepd & Hhd & Hdlocs & _).
  destruct (set_tags_shape b h1 lc mc dt tags overrides Hbc Hwfo
              (restorable_mergeable _ _ Hres) Huc Hrepc Htc Hhd Hdlocs)
    as (h2 & mc' & Hset & Hover & Ht' & Hu' & Hhd2 & Hdlocs2).
  destruct (reset_refines (PDict overrides) h2 lc mc' dt tags overrides (all_locs dt)
              eq_refl Hwfo Hres Hover Ht') as (h3 & mc'' & Hreset & Hrep'' & Ht'' & _ & Hg'');
    try done.
  { intros l0 Hl0. by apply unshared_borrowed in Hl0. }
  pose proof Hg'' as (GL' & GS' & GB' & GF').
  exists b, h1, h2, h3. split_and!.
  - done.
  - rewrite Hbc. apply (holds_represents h1 (LDict lc mc)); [done| |done]. by destruct Htc.
  - done.
  - unfold reset_tags_to_default. rewrite Hbc, Hbd. exact Hreset.
  - rewrite Hbc. apply (holds_represents h3 (LDict lc mc'')); [done| |done].
    by destruct Ht''.
  - rewrite Hbd. apply (holds_represents h3 dt); [done| |done].
    apply (holds_frame h2); [done|]. intros l0 Hl0.
    destruct (Hdlocs2 l0 Hl0) as [Hlt Hnot]. by apply GF'.
Qed.

Lemma set_tags_then_reset_restores_fresh_tags_witness :
  ∃ b h1 h2 h3,
    Field_init 10 None
      (Some [("visualization",
              PDict [("initial_set", PAtom (ABool false)); ("foo", PStr "bar")])])
      None "numeric" [] = (Return b, h1) ∧
    represents h1 (custom_tags b)
      (PDict [("visualization",
               PDict [("initial_set", PAtom (ABool false)); ("foo", PStr "bar")])]) ∧
    set_tags b [("visualization", PDict [("initial_set", PTrue)]); ("unit", PStr "B")] h1
      = (Return (), h2) ∧
    reset_tags_to_default b
      (selector_items
         [("visualization", PDict [("initial_set", PTrue)]); ("unit", PStr "B")]) h2
      = (Return (), h3) ∧
    represents h3 (custom_tags b)
      (PDict [("visualization",
               PDict [("initial_set", PAtom (ABool false)); ("foo", PStr "bar")])]) ∧
    represents h3 (default_tags b)
      (PDict [("visualization",
               PDict [("initial_set", PAtom (ABool false)); ("foo", PStr "bar")])]).
Proof.
  apply set_tags_then_reset_restores_fresh_tags;
    [vm_compute; reflexivity | vm_compute; reflexivity | vm_compute; reflexivity
    | simpl; lia].
Defined.

(** X2: the constructor returns for tags no deeper than the recursion
    depth at hand, and leaves the custom tags and the default tags both
    equal to the tags given, in two different dicts; what was in the heap
    before is still there. *)
Theorem Field_init_takes_snapshot (depth : nat) (attr : option attribute_source)
    (downsamplers : option (list string)) (type : string)
    (tags : list (string * pyval)) (h : heap) :
  wf_dict (PDict tags) = true →
  dict_depth (PDict tags) ≤ depth →
  ∃ b h1,
    Field_init depth attr (Some tags) downsamplers type h = (Return b, h1) ∧
    represents h1 (custom_tags b) (PDict tags) ∧
    represents h1 (default_tags b) (PDict tags) ∧
    custom_tags b ≠ default_tags b ∧
    h `prefix_of` h1 ∧
    name b = None ∧ attribute b = attr ∧ value_type b = type.
Proof.
  intros Hwft Hdepth.
  destruct (Field_init_shape depth attr downsamplers type tags h Hwft Hdepth)
    as (b & h1 & lc & mc & dt & Hinit & Hbc & Hbd & Hn & Ha & Hv & Huc & Hrepc & Htc
        & Hud & Hrepd & Hhd & Hdlocs & Hpre).
  exists b, h1. split_and!; try done.
  - rewrite Hbc. apply (holds_represents h1 (LDict lc mc)); [done| |done]. by destruct Htc.
  - rewrite Hbd. by apply (holds_represents h1 dt).
  - rewrite Hbc, Hbd. intros Heq.
    destruct (lrep_unshared_dict dt tags Hud Hrepd) as (ld & md & -> & _).
    simpl in Heq. injection Heq as <-.
    destruct (Hdlocs lc) as [_ Hnot].
    + unfold all_locs. simpl. by left.
    + apply Hnot. simpl. by left.
Qed.

Lemma Field_init_takes_snapshot_witness :
  ∃ b h1,
    Field_init 10 (Some (AttrName "uptime"))
      (Some [("visualization", PDict [("initial_set", PAtom (ABool false))])])
      None "numeric" [] = (Return b, h1) ∧
    represents h1 (custom_tags b)
      (PDict [("visualization", PDict [("initial_set", PAtom (ABool false))])]) ∧
    represents h1 (default_tags b)
      (PDict [("visualization", PDict [("initial_set", PAtom (ABool false))])]) ∧
    custom_tags b ≠ default_tags b ∧
    [] `prefix_of` h1 ∧
    name b = None ∧ attribute b = Some (AttrName "uptime") ∧ value_type b = "numeric".
Proof.
  apply Field_init_takes_snapshot; [vm_compute; reflexivity | simpl; lia].
Defined.

(** X3: on a field right after construction, [set_tags] with
    [mergeable] overrides returns and leaves the default tags equal to
    the tags the field was built with. *)
Theorem set_tags_keeps_fresh_default_tags (depth : nat)
    (attr : option attribute_source) (downsamplers : option (list string))
    (type : string) (tags overrides : list (string * pyval)) (h : heap) :
  wf_dict (PDict tags) = true →
  wf_dict (PDict overrides) = true →
  mergeable tags (PDict overrides) = true →
  dict_depth (PDict tags) ≤ depth →
  ∃ b h1 h2,
    Field_init depth attr (Some tags) downsamplers type h = (Return b, h1) ∧
    set_tags b overrides h1 = (Return (), h2) ∧
    represents h2 (default_tags b) (PDict tags).
Proof.
  intros Hwft Hwfo Hres Hdepth.
  destruct (Field_init_shape depth attr downsamplers type tags h Hwft Hdepth)
    as (b & h1 & lc & mc & dt & Hinit & Hbc & Hbd & _ & _ & _ & Huc & Hrepc & Htc
        & Hud & Hrepd & Hhd & Hdlocs & _).
  destruct (set_tags_shape b h1 lc mc dt tags overrides Hbc Hwfo Hres Huc Hrepc Htc
              Hhd Hdlocs) as (h2 & mc' & Hset & Hover & Ht' & Hu' & Hhd2 & Hdlocs2).
  exists b, h1, h2. split_and!; try done.
  rewrite Hbd. by apply (holds_represents h2 dt).
Qed.

Lemma set_tags_keeps_fresh_default_tags_witness :
  ∃ b h1 h2,
    Field_init 10 None
      (Some [("visualization", PDict [("initial_set", PAtom (ABool false))])])
      None "numeric" [] = (Return b, h1) ∧
    set_tags b [("visualization", PDict [("initial_set", PTrue)])] h1 = (Return (), h2) ∧
    represents h2 (default_tags b)
      (PDict [("visualization", PDict [("initial_set", PAtom (ABool false))])]).
Proof.
  apply set_tags_keeps_fresh_default_tags;
    [vm_compute; reflexivity | vm_compute; reflexivity | vm_compute; reflexivity
    | simpl; lia].
Defined.

(** ** What [set_tags] leaves in the custom tags *)

Lemma updated_cons (d : list (string * pyval)) (k : string) (v : pyval)
    (m : list (string * pyval)) :
  updated d (PDict ((k, v) :: m))
  = updated match v with
            | PDict _ => dict_set k (PDict (updated (subdict d k) v)) d
            | PAtom _ => dict_set k v d
            end (PDict m).
Proof. reflexivity. Qed.

Lemma subdict_set_ne (d : list (string * pyval)) (k k1 : string) (v : pyval) :
  k ≠ k1 → subdict (dict_set k1 v d) k = subdict d k.
Proof. intros Hne. unfold subdict. rewrite dict_get_set. by rewrite decide_False. Qed.

Lemma updated_get (ms : list (string * pyval)) :
  NoDup ms.*1 → ∀ d k,
    dict_get k (updated d (PDict ms))
    = match dict_get k ms with
      | None => dict_get k d
      | Some (PAtom a) => Some (PAtom a)
      | Some (PDict u') => Some (PDict (updated (subdict d k) (PDict u')))
      end.
Proof.
  induction ms as [|[k1 v1] ms IH]; intros Hnd d k; [done|].
  simpl in Hnd. apply NoDup_cons in Hnd as [Hk1 Hnd].
  rewrite updated_cons, (IH Hnd). cbn [dict_get].
  destruct (String.eqb_spec k k1) as [->|Hne].
  - rewrite (proj2 (dict_get_none k1 ms) Hk1).
    destruct v1 as [a|u']; rewrite dict_get_set; by rewrite decide_True.
  - destruct (dict_get k ms) as [[a|u']|] eqn:Hget; [done| |].
    + by destruct v1; rewrite subdict_set_ne.
    + destruct v1; rewrite dict_get_set; by rewrite decide_False.
Qed.

Lemma over_updated (u : pyval) :
  ∀ t tags ms, u = PDict ms → wf_dict u = true → over t tags ms →
    lrep t (PDict (updated tags u)).
Proof.
  induction u as [a|ms IH] using pyval_nested_ind; intros t tags ms' Heq Hwf Hover;
    [done|].
  injection Heq as <-. apply wf_dict_unfold in Hwf as [Hnd Hwf].
  inversion Hover as [l mc ? ? Hu Ha Hd]; subst. constructor. intros k.
  rewrite (updated_get ms Hnd).
  destruct (dict_get k ms) as [[a|u']|] eqn:Hget.
  - rewrite (Ha k a Hget). constructor. constructor.
  - destruct (Hd k u' Hget) as (c & -> & Hc). constructor.
    apply dict_get_elem in Hget.
    rewrite Forall_forall in IH. rewrite forallb_forall in Hwf.
    apply (IH (k, PDict u') Hget c (subdict tags k) u'); [done| |done].
    apply (Hwf (k, PDict u')). by apply list_elem_of_In.
  - by apply Hu.
Qed.

Lemma dict_set_keys {A} (k : string) (v : A) (m : list (string * A)) :
  (dict_set k v m).*1 = if bool_decide (k ∈ m.*1) then m.*1 else m.*1 ++ [k].
Proof.
  induction m as [|[k1 v1] m IH]; [done|]. cbn [dict_set].
  destruct (String.eqb_spec k k1) as [->|Hne]; rewrite !fmap_cons; cbn [fst].
  - rewrite bool_decide_eq_true_2; [done|by left].
  - rewrite IH. destruct (decide (k ∈ m.*1)) as [Hin|Hnot].
    + rewrite !bool_decide_eq_true_2; [done|by right|done].
    + rewrite !bool_decide_eq_false_2; [done| |done].
      by intros [?|?]%elem_of_cons.
Qed.

Lemma wf_dict_set (k : string) (v : pyval) (m : list (string * pyval)) :
  wf_dict (PDict m) = true → wf_dict v = true →
  wf_dict (PDict (dict_set k v m)) = true.
Proof.
  rewrite !wf_dict_unfold. intros [Hnd Hwf] Hv. split.
  - rewrite dict_set_keys. case_bool_decide; [done|].
    apply NoDup_app. split_and!; [done| |apply NoDup_singleton].
    by intros k0 Hin ->%list_elem_of_singleton.
  - clear Hnd. induction m as [|[k1 v1] m IH]; simpl.
    + by rewrite Hv.
    + simpl in Hwf. apply andb_true_iff in Hwf as [H1 H2].
      destruct (String.eqb_spec k k1); simpl.
      * by rewrite Hv.
      * rewrite H1. by apply IH.
Qed.

Lemma wf_subdict (d : list (string * pyval)) (k : string) :
  wf_dict (PDict d) = true → wf_dict (PDict (subdict d k)) = true.
Proof.
  intros [Hnd Hwf]%wf_dict_unfold. unfold subdict.
  destruct (dict_get k d) as [[a|sub]|] eqn:Hget; try done.
  rewrite forallb_forall in Hwf. apply dict_get_elem in Hget.
  apply (Hwf (k, PDict sub)). by apply list_elem_of_In.
Qed.

Lemma updated_wf (u : pyval) :
  ∀ d, wf_dict (PDict d) = true → wf_dict u = true →
    wf_dict (PDict (updated d u)) = true.
Proof.
  induction u as [a|ms IH] using pyval_nested_ind; intros d Hd Hwf; [done|].
  apply wf_dict_unfold in Hwf as [_ Hwf]. revert d Hd.
  induction IH as [|[k v] ms IHv _ IHms]; intros d Hd; [done|].
  simpl in Hwf. apply andb_true_iff in Hwf as [Hv Hwf].
  rewrite updated_cons. apply IHms; [done|].
  destruct v as [a|u']; apply wf_dict_set; try done.
  apply IHv; [|done]. by apply wf_subdict.
Qed.

(** X4: on a field right after construction with tags [tags],
    [set_tags] with [mergeable] overrides returns and the custom tags
    are the tags with the overrides merged in, level by level
    ([updated]). *)
Theorem set_tags_merges_overrides (depth : nat)
    (attr : option attribute_source) (downsamplers : option (list string))
    (type : string) (tags overrides : list (string * pyval)) (h : heap) :
  wf_dict (PDict tags) = true →
  wf_dict (PDict overrides) = true →
  mergeable tags (PDict overrides) = true →
  dict_depth (PDict tags) ≤ depth →
  ∃ b h1 h2,
    Field_init depth attr (Some tags) downsamplers type h = (Return b, h1) ∧
    set_tags b overrides h1 = (Return (), h2) ∧
    represents h2 (custom_tags b) (PDict (updated tags (PDict overrides))).
Proof.
  intros Hwft Hwfo Hres Hdepth.
  destruct (Field_init_shape depth attr downsamplers type tags h Hwft Hdepth)
    as (b & h1 & lc & mc & dt & Hinit & Hbc & Hbd & _ & _ & _ & Huc & Hrepc & Htc
        & Hud & Hrepd & Hhd & Hdlocs & _).
  destruct (set_tags_shape b h1 lc mc dt tags overrides Hbc Hwfo Hres Huc Hrepc Htc
              Hhd Hdlocs) as (h2 & mc' & Hset & Hover & Ht' & Hu' & Hhd2 & Hdlocs2).
  exists b, h1, h2. split_and!; try done.
  rewrite Hbc. apply (holds_represents h2 (LDict lc mc')).
  - by apply updated_wf.
  - by destruct Ht'.
  - by apply (over_updated (PDict overrides) _ tags overrides).
Qed.

Lemma set_tags_merges_overrides_witness :
  ∃ b h1 h2,
    Field_init 10 None
      (Some [("visualization",
              PDict [("initial_set", PAtom (ABool false)); ("foo", PStr "bar")])])
      None "numeric" [] = (Return b, h1) ∧
    set_tags b [("visualization", PDict [("initial_set", PTrue)]); ("unit", PStr "B")] h1
      = (Return (), h2) ∧
    represents h2 (custom_tags b)
      (PDict [("visualization",
               PDict [("initial_set", PTrue); ("foo", PStr "bar")]);
              ("unit", PStr "B")]).
Proof.
  apply (set_tags_merges_overrides 10 None None "numeric"
           [("visualization",
             PDict [("initial_set", PAtom (ABool false)); ("foo", PStr "bar")])]
           [("visualization", PDict [("initial_set", PTrue)]); ("unit", PStr "B")] []);
    [vm_compute; reflexivity | vm_compute; reflexivity | vm_compute; reflexivity
    | simpl; lia].
Defined.

(** ** What the engine sends to the store *)

Section Logs.

Context {St : Type} (stream : store_api St) (env : environment).
Context (P : list store_call → Prop).
Hypothesis P_nil : P [].
Hypothesis P_app : ∀ c1 c2, P c1 → P c2 → P (c1 ++ c2).
Hypothesis P_ensure : ∀ r, P [CallEnsure r].
Hypothesis P_delete : ∀ b d q t streams,
  P [CallEnsure (sum_request b d q t streams None); CallDelete q].

Lemma logs_refl (w : world St) : logs P w w.
Proof. split; [done|]. exists []. by rewrite app_nil_r. Qed.

Lemma logs_trans (w1 w2 w3 : world St) :
  logs P w1 w2 → logs P w2 w3 → logs P w1 w3.
Proof.
  intros [Hh1 (c1 & Ht1 & Hp1)] [Hh2 (c2 & Ht2 & Hp2)]. split; [congruence|].
  exists (c1 ++ c2). split; [|by apply P_app].
  by rewrite Ht2, Ht1, <- app_assoc.
Qed.

Lemma logs_bind {A B} (m : SE (world St) A) (k : A → SE (world St) B) (w : world St) :
  logs P w (m w).2 → (∀ a w', logs P w' (k a w').2) → logs P w ((m ≫= k) w).2.
Proof.
  intros Hm Hk. unfold mbind, se_bind.
  destruct (m w) as [[a|e] w'] eqn:Heq; simpl in *; [|done].
  by apply (logs_trans w w').
Qed.

Lemma logs_for_each {A B} (body : A → SE (world St) B) (xs : list A) :
  (∀ x w, logs P w (body x w).2) → ∀ w, logs P w (for_each body xs w).2.
Proof.
  intros Hbody. induction xs as [|x xs IH]; intros w; [apply logs_refl|].
  change (for_each body (x :: xs)) with (y ← body x; ys ← for_each body xs; mret (y :: ys)).
  apply logs_bind; [done|]. intros y w'.
  apply logs_bind; [done|]. intros ys w''. apply logs_refl.
Qed.

Lemma logs_process_tags (depth : nat) (type : option string) (b : field_base)
    (d : descriptor) (w : world St) :
  logs P w (process_tags env depth type b d w).2.
Proof.
  destruct (process_tags env depth type b d w) as [o w'] eqn:Heq.
  apply process_tags_keeps_world in Heq as ->. apply logs_refl.
Qed.

Lemma logs_stream_ensure_stream (r : ensure_request) (w : world St) :
  logs P w (stream_ensure_stream stream r w).2.
Proof.
  unfold stream_ensure_stream. destruct (api_ensure_stream stream r (w_store w)).
  split; [done|]. by exists [CallEnsure r].
Qed.

Lemma logs_lift_outcome {A} (o : outcome A) (w : world St) :
  logs P w (lift_outcome o w).2.
Proof. apply logs_refl. Qed.

Lemma logs_sum_request (b : field_base) (d : descriptor)
    (q : list (string * pyval)) (t : pyval) (streams : list derive_source)
    (w : world St) :
  logs P w
    (try_except_inconsistent
       (stream_ensure_stream stream (sum_request b d q t streams None))
       (_ ← stream_delete_streams stream q;
        stream_ensure_stream stream (sum_request b d q t streams (Some false))) w).2.
Proof.
  unfold try_except_inconsistent.
  pose proof (logs_stream_ensure_stream (sum_request b d q t streams None) w) as Hfirst.
  unfold stream_ensure_stream in *.
  destruct (api_ensure_stream stream _ (w_store w)) as [[sid|e] s1]; [done|].
  destruct e; try done. cbn [snd] in *.
  unfold mbind, se_bind, stream_delete_streams. cbn [w_store w_heap w_trace].
  destruct (api_delete_streams stream q s1) as [[[]|e] s2]; cbn [w_store w_heap w_trace].
  - destruct (api_ensure_stream stream _ s2) as [o s3]. split; [done|]. cbn [snd w_trace].
    exists ([CallEnsure (sum_request b d q t streams None); CallDelete q]
            ++ [CallEnsure (sum_request b d q t streams (Some false))]).
    split; [by rewrite <- !app_assoc|]. apply P_app; [apply P_delete|apply P_ensure].
  - split; [done|]. cbn [snd w_trace].
    exists [CallEnsure (sum_request b d q t streams None); CallDelete q].
    split; [by rewrite <- !app_assoc|]. apply P_delete.
Qed.

Lemma logs_ensure_stream (depth : nat) :
  ∀ f d (w : world St), logs P w (ensure_stream stream env depth f d w).2.
Proof.
  induction depth as [|depth IH]; intros f d w; [apply logs_refl|].
  destruct f as [cls b|b streams_ op args|b sources]; cbn [ensure_stream].
  - apply logs_bind; [|intros; apply logs_refl].
    unfold Field_ensure_stream. apply logs_bind; [apply logs_process_tags|].
    intros [q t] w'. apply logs_stream_ensure_stream.
  - apply logs_bind.
    + apply logs_for_each. intros r w'. unfold derived_source.
      destruct (split "#" (ref_field r)) as [|p1 [|p2 [|p3 ps]]]; try apply logs_refl.
      apply logs_bind.
      { destruct (String.eqb p1 ""); [apply logs_refl|apply logs_lift_outcome]. }
      intros mdl w1. apply logs_bind; [apply logs_lift_outcome|].
      intros md w2. destruct (descriptor_get_field env md p2); [|apply logs_refl].
      apply logs_bind; [apply IH|]. intros; apply logs_refl.
    + intros streams w1. apply logs_bind; [apply logs_process_tags|].
      intros [q t] w2. apply logs_bind; [apply logs_stream_ensure_stream|].
      intros; apply logs_refl.
  - apply logs_bind.
    + apply logs_for_each. intros src w'. unfold sum_source.
      apply logs_bind; [apply IH|]. intros; apply logs_refl.
    + intros [|s streams] w1; [apply logs_refl|].
      apply logs_bind; [apply logs_process_tags|].
      intros [q t] w2. apply logs_bind; [apply logs_sum_request|].
      intros; apply logs_refl.
Qed.

Hypothesis P_append : ∀ sid v ts, P [CallAppend sid v ts].

Lemma logs_to_stream (depth : nat) (f : field) (d : descriptor) (ts : option Z)
    (w : world St) :
  logs P w (to_stream stream env depth f d ts w).2.
Proof.
  destruct depth as [|depth]; [by apply logs_refl|].
  assert (∀ w0 : world St, logs P w0 ((_ ← ensure_stream stream env depth f d; mret ()) w0).2)
    as Hens.
  { intros w0. apply logs_bind; [by apply logs_ensure_stream|].
    intros; by apply logs_refl. }
  destruct f as [cls b|b streams_ op args|b sources]; cbn [to_stream]; [|done..].
  apply logs_bind; [by apply logs_refl|]. intros value w1.
  apply logs_bind.
  - unfold Field_ensure_stream. apply logs_bind; [by apply logs_process_tags|].
    intros [q t] w'. by apply logs_stream_ensure_stream.
  - intros sid w2.
    assert (logs P w2 ((value' ← lift_outcome (prepare_value env cls value);
                        stream_append stream sid value' ts) w2).2) as Happ.
    { apply logs_bind; [by apply logs_refl|]. intros v w3.
      unfold stream_append. destruct (api_append stream sid v ts (w_store w3)).
      split; [done|]. by exists [CallAppend sid v ts]. }
    destruct value as [[]|]; try done. by apply logs_refl.
Qed.

End Logs.

Lemma deletes_guarded_weaken (prev : option store_call) (calls : list store_call) :
  deletes_guarded None calls → deletes_guarded prev calls.
Proof.
  destruct calls as [|c calls]; [done|]. simpl. intros [Hc Hrest]. split; [|done].
  destruct c; try done. by destruct Hc as (r & Hr & _).
Qed.

Lemma deletes_guarded_app (c1 c2 : list store_call) :
  ∀ prev, deletes_guarded prev c1 → deletes_guarded None c2 →
    deletes_guarded prev (c1 ++ c2).
Proof.
  induction c1 as [|c c1 IH]; intros prev H1 H2.
  - by apply deletes_guarded_weaken.
  - destruct H1 as [Hc H1]. split; [done|]. by apply IH.
Qed.

(** X5: [ensure_stream], of whatever field and however it ends, leaves
    every tag dict as it was, keeps the log of store calls it found and
    adds no [append] to it; [to_stream] on a [DerivedField] or a
    [DynamicSumField] does the same. *)
Theorem ensure_stream_never_appends {St} (stream : store_api St)
    (env : environment) (depth : nat) (f : field) (d : descriptor)
    (timestamp : option Z) (w : world St) :
  let quiet := λ w' : world St,
    w_heap w' = w_heap w ∧
    ∃ calls, w_trace w' = w_trace w ++ calls ∧
             forallb (λ c, negb (is_append c)) calls = true in
  quiet (ensure_stream stream env depth f d w).2 ∧
  match f with
  | PlainField _ _ => True
  | _ => quiet (to_stream stream env depth f d timestamp w).2
  end.
Proof.
  assert (∀ depth, logs (λ calls, forallb (λ c, negb (is_append c)) calls = true) w
                     (ensure_stream stream env depth f d w).2) as H.
  { intros depth'. apply logs_ensure_stream; try done.
    intros c1 c2 H1 H2. rewrite forallb_app. by rewrite H1, H2. }
  split; [apply H|].
  destruct f as [cls b|b streams_ op args|b sources]; [done| |];
    (destruct depth as [|depth]; [split; [done|]; exists []; by rewrite app_nil_r|]);
    cbn [to_stream]; unfold mbind, se_bind;
    specialize (H depth);
    by destruct (ensure_stream stream env depth _ d w) as [[sid|e] w'].
Qed.

(** X6: whatever [to_stream] and [ensure_stream] add to the log of store
    calls, every [delete_streams] in it comes right after the request of
    a [DynamicSumField] (operator [sum], no [derive_backprocess]) for
    the very query tags that are deleted. *)
Theorem deletes_follow_sum_requests {St} (stream : store_api St)
    (env : environment) (depth : nat) (f : field) (d : descriptor)
    (timestamp : option Z) (w : world St) :
  (∃ calls, w_trace (ensure_stream stream env depth f d w).2 = w_trace w ++ calls ∧
            deletes_guarded None calls) ∧
  (∃ calls, w_trace (to_stream stream env depth f d timestamp w).2 = w_trace w ++ calls ∧
            deletes_guarded None calls).
Proof.
  split.
  - apply (logs_ensure_stream stream env (deletes_guarded None)); try done.
    + intros c1 c2. apply deletes_guarded_app.
    + intros b0 d0 q t streams. simpl. split_and!; try done. by eexists.
  - apply (logs_to_stream stream env (deletes_guarded None)); try done.
    + intros c1 c2. apply deletes_guarded_app.
    + intros b0 d0 q t streams. simpl. split_and!; try done. by eexists.
Qed.

(** X7: a plain field whose source attribute has a value: once the
    tags are resolved and the store has answered [ensure_stream] with an
    identifier, [to_stream] appends the value as [prepare_value] returns
    it, to that identifier and with the timestamp given, and ends as the
    [append] call ends. The store sees these two calls and no other. *)
Theorem to_stream_appends_prepared_value {St} (stream : store_api St)
    (env : environment) (depth : nat) (cls : field_class) (b : field_base)
    (d : descriptor) (timestamp : option Z) (w : world St)
    (query_tags : list (string * pyval)) (tags value prepared : pyval)
    (sid : stream_id) (s1 : St) :
  source_value env b d = Return value →
  value ≠ PNone →
  process_tags env depth (type_tag cls) b d w = (Return (query_tags, tags), w) →
  api_ensure_stream stream (plain_request b d query_tags tags) (w_store w)
    = (Return sid, s1) →
  prepare_value env cls value = Return prepared →
  to_stream stream env (S depth) (PlainField cls b) d timestamp w
    = ((api_append stream sid prepared timestamp s1).1,
       {| w_heap := w_heap w;
          w_store := (api_append stream sid prepared timestamp s1).2;
          w_trace := w_trace w ++
            [CallEnsure (plain_request b d query_tags tags);
             CallAppend sid prepared timestamp] |}).
Proof.
  intros Hvalue Hsome Htags Hensure Hprep. cbn [to_stream].
  unfold mbind at 1. unfold se_bind at 1. unfold lift_outcome. rewrite Hvalue.
  unfold mbind at 1. unfold se_bind at 1. unfold Field_ensure_stream.
  unfold mbind at 1. unfold se_bind at 1. rewrite Htags.
  unfold stream_ensure_stream. rewrite Hensure.
  assert ((value' ← lift_outcome (prepare_value env cls value);
           stream_append stream sid value' timestamp)
            {| w_heap := w_heap w; w_store := s1;
               w_trace := w_trace w ++ [CallEnsure (plain_request b d query_tags tags)] |}
          = ((api_append stream sid prepared timestamp s1).1,
             {| w_heap := w_heap w;
                w_store := (api_append stream sid prepared timestamp s1).2;
                w_trace := w_trace w ++
                  [CallEnsure (plain_request b d query_tags tags);
                   CallAppend sid prepared timestamp] |})) as Happ.
  { unfold mbind, se_bind, lift_outcome. rewrite Hprep. unfold stream_append.
    cbn [w_heap w_store w_trace].
    destruct (api_append stream sid prepared timestamp s1). cbn [fst snd].
    by rewrite <- app_assoc. }
  destruct value as [[]|]; try done.
Qed.

(** X8: the stream is ensured before the value is converted: when
    [prepare_value] raises on a value that is not [None], [to_stream]
    raises the same error after the one [ensure_stream] request, and
    nothing is appended. *)
Theorem to_stream_conversion_error_after_ensure {St} (stream : store_api St)
    (env : environment) (depth : nat) (cls : field_class) (b : field_base)
    (d : descriptor) (timestamp : option Z) (w : world St)
    (query_tags : list (string * pyval)) (tags value : pyval)
    (sid : stream_id) (s1 : St) (e : exn) :
  source_value env b d = Return value →
  value ≠ PNone →
  process_tags env depth (type_tag cls) b d w = (Return (query_tags, tags), w) →
  api_ensure_stream stream (plain_request b d query_tags tags) (w_store w)
    = (Return sid, s1) →
  prepare_value env cls value = Raise e →
  to_stream stream env (S depth) (PlainField cls b) d timestamp w
    = (Raise e,
       {| w_heap := w_heap w; w_store := s1;
          w_trace := w_trace w ++ [CallEnsure (plain_request b d query_tags tags)] |}).
Proof.
  intros Hvalue Hsome Htags Hensure Hprep. cbn [to_stream].
  unfold mbind at 1. unfold se_bind at 1. unfold lift_outcome. rewrite Hvalue.
  unfold mbind at 1. unfold se_bind at 1. unfold Field_ensure_stream.
  unfold mbind at 1. unfold se_bind at 1. rewrite Htags.
  unfold stream_ensure_stream. rewrite Hensure.
  destruct value as [[]|]; try done; unfold mbind, se_bind, lift_outcome;
    by rewrite Hprep.
Qed.

Lemma to_stream_appends_prepared_value_witness :
  (to_stream kept_store lab 5 rx_field node_descriptor (Some 100%Z) lab_world).1
    = Return () ∧
  w_trace (to_stream kept_store lab 5 rx_field node_descriptor (Some 100%Z) lab_world).2
    = [CallEnsure
         (plain_request (bare_base "rx" (Some [])) node_descriptor
            [("node", PStr "n1"); ("name", PStr "rx")]
            (PDict [("node", PDict [("uuid", PStr "n1"); ("kind", PStr "router")]);
                    ("name", PStr "rx"); ("type", PStr "integer")]));
       CallAppend 0 (PInt 10) (Some 100%Z)].
Proof.
  unfold rx_field.
  rewrite (to_stream_appends_prepared_value kept_store lab 4 CCounterField
             (bare_base "rx" (Some [])) node_descriptor (Some 100%Z) lab_world
             [("node", PStr "n1"); ("name", PStr "rx")]
             (PDict [("node", PDict [("uuid", PStr "n1"); ("kind", PStr "router")]);
                     ("name", PStr "rx"); ("type", PStr "integer")])
             (PInt 10) (PInt 10) 0
             {| next_id := 1;
                live := [{| ks_id := 0; ks_key := "rx"; ks_inputs := [] |}] |});
    [split; reflexivity | first [discriminate | vm_compute; reflexivity] ..].
Defined.

Lemma to_stream_conversion_error_after_ensure_witness :
  (to_stream kept_store text_lab 5 uptime_field node_descriptor None lab_world).1
    = Raise (ValueError "invalid literal for int() with base 10") ∧
  w_trace (to_stream kept_store text_lab 5 uptime_field node_descriptor None lab_world).2
    = [CallEnsure
         (plain_request (bare_base "uptime" (default_downsamplers "numeric"))
            node_descriptor
            [("node", PStr "n1"); ("name", PStr "uptime")]
            (PDict [("node", PDict [("uuid", PStr "n1"); ("kind", PStr "router")]);
                    ("name", PStr "uptime"); ("type", PStr "integer")]))].
Proof.
  unfold uptime_field.
  rewrite (to_stream_conversion_error_after_ensure kept_store text_lab 4 CIntegerField
             (bare_base "uptime" (default_downsamplers "numeric")) node_descriptor
             None lab_world
             [("node", PStr "n1"); ("name", PStr "uptime")]
             (PDict [("node", PDict [("uuid", PStr "n1"); ("kind", PStr "router")]);
                     ("name", PStr "uptime"); ("type", PStr "integer")])
             (PStr "3.0") 0
             {| next_id := 1;
                live := [{| ks_id := 0; ks_key := "uptime"; ks_inputs := [] |}] |}
             (ValueError "invalid literal for int() with base 10"));
    [split; reflexivity | first [discriminate | vm_compute; reflexivity] ..].
Defined.

(** X9: the source attribute is read before the store is contacted:
    when reading it raises (the model has no such attribute, the
    callable fails, or the field has neither attribute nor name),
    [to_stream] raises that error and nothing has reached the store. *)
Theorem to_stream_without_source_sends_nothing {St} (stream : store_api St)
    (env : environment) (depth : nat) (cls : field_class) (b : field_base)
    (d : descriptor) (timestamp : option Z) (w : world St) (e : exn) :
  source_value env b d = Raise e →
  to_stream stream env (S depth) (PlainField cls b) d timestamp w = (Raise e, w).
Proof.
  intros Hvalue. cbn [to_stream]. unfold mbind, se_bind, lift_outcome.
  by rewrite Hvalue.
Qed.

Lemma to_stream_without_source_sends_nothing_witness :
  to_stream kept_store lab 5
    (PlainField CField
       {| name := None; attribute := None; custom_tags := VRef 0;
          default_tags := VRef 1; value_downsamplers := None;
          value_type := "numeric" |})
    node_descriptor None lab_world
  = (Raise TypeError, lab_world) ∧
  to_stream kept_store lab 5
    (PlainField CField (bare_base "load" None)) node_descriptor None lab_world
  = (Raise AttributeError, lab_world).
Proof.
  split; apply to_stream_without_source_sends_nothing; reflexivity.
Defined.

(** X10: an error while a source field of a [DynamicSumField] is
    ensured ends [ensure_stream] with that error, also when it is
    [InconsistentStreamConfiguration]: the sources are ensured outside
    the [try], so nothing is deleted and no request for the sum is
    sent. *)
Theorem dynamic_sum_source_error_propagates {St} (stream : store_api St)
    (env : environment) (depth : nat) (b : field_base)
    (pre post : list (field * descriptor)) (src : field * descriptor)
    (d : descriptor) (w w1 w2 : world St) (streams : list derive_source) (e : exn) :
  for_each (sum_source (ensure_stream stream env depth)) pre w = (Return streams, w1) →
  ensure_stream stream env depth src.1 src.2 w1 = (Raise e, w2) →
  ensure_stream stream env (S depth) (DynamicSumField b (pre ++ src :: post)) d w
    = (Raise e, w2).
Proof.
  intros Hpre Hsrc. cbn [ensure_stream]. unfold mbind at 1. unfold se_bind at 1.
  rewrite (for_each_stops _ pre post src w w1 w2 streams e Hpre); [done|].
  unfold sum_source, mbind, se_bind. by rewrite Hsrc.
Qed.

Lemma dynamic_sum_source_error_propagates_witness :
  let w1 := (ensure_stream kept_store lab 4 rx_field node_descriptor lab_world).2 in
  ensure_stream kept_store lab 5
    (total_field
       [(rx_field, node_descriptor);
        (DerivedField (bare_base "rate" None)
           [{| ref_name := None; ref_field := "#uptime" |}] "counter_reset" [],
         node_descriptor);
        (tx_field, node_descriptor)])
    node_descriptor lab_world
  = (Raise (ImproperlyConfigured "Datastream field '#uptime' not found!"), w1).
Proof.
  apply (dynamic_sum_source_error_propagates kept_store lab 4
           (bare_base "total" (default_downsamplers "numeric"))
           [(rx_field, node_descriptor)] [(tx_field, node_descriptor)]
           (DerivedField (bare_base "rate" None)
              [{| ref_name := None; ref_field := "#uptime" |}] "counter_reset" [],
            node_descriptor)
           node_descriptor lab_world
           (ensure_stream kept_store lab 4 rx_field node_descriptor lab_world).2
           (ensure_stream kept_store lab 4 rx_field node_descriptor lab_world).2
           [{| ds_name := None; ds_stream := Some 0 |}]);
    vm_compute; reflexivity.
Defined.

(** X11: a [DerivedField] whose sources are ensured and whose tags are
    resolved sends one request, with the source streams in the order of
    [self.streams], its operator and arguments and no
    [derive_backprocess], and ends as the store answers it: an
    [InconsistentStreamConfiguration] answer is passed on like any
    other, nothing is deleted and nothing is tried again. *)
Theorem derived_field_returns_store_answer {St} (stream : store_api St)
    (env : environment) (depth : nat) (b : field_base)
    (sources : list field_ref) (op : string) (args : list (string * pyval))
    (d : descriptor) (w w1 : world St) (streams : list derive_source)
    (query_tags : list (string * pyval)) (tags : pyval) :
  for_each (derived_source env (ensure_stream stream env depth) d) sources w
    = (Return streams, w1) →
  process_tags env depth None b d w1 = (Return (query_tags, tags), w1) →
  let request :=
    {| req_query_tags := query_tags;
       req_tags := tags;
       req_downsamplers := get_downsamplers b;
       req_highest_granularity := get_stream_highest_granularity d;
       req_value_type := value_type b;
       req_derive_from := Some streams;
       req_derive_op := Some op;
       req_derive_args := Some args;
       req_derive_backprocess := None |} in
  let answer := api_ensure_stream stream request (w_store w1) in
  ensure_stream stream env (S depth) (DerivedField b sources op args) d w
    = (match answer.1 with
       | Return sid => Return (Some sid)
       | Raise e => Raise e
       end,
       {| w_heap := w_heap w1; w_store := answer.2;
          w_trace := w_trace w1 ++ [CallEnsure request] |}).
Proof.
  intros Hsrc Htags request answer. cbn [ensure_stream].
  unfold mbind at 1. unfold se_bind at 1. rewrite Hsrc.
  unfold mbind at 1. unfold se_bind at 1. rewrite Htags.
  unfold mbind, se_bind, stream_ensure_stream. fold request. fold answer.
  by destruct answer as [[sid|e] s].
Qed.

Lemma derived_field_returns_store_answer_witness :
  (ensure_stream kept_store lab 5 rate_field node_descriptor lab_world).1
    = Return (Some 2) ∧
  w_trace (ensure_stream kept_store lab 5 rate_field node_descriptor lab_world).2
    = w_trace (for_each (derived_source lab (ensure_stream kept_store lab 4)
                           node_descriptor)
                 [{| ref_name := Some "reset"; ref_field := "#rx" |};
                  {| ref_name := None; ref_field := "#tx" |}] lab_world).2
      ++ [CallEnsure
            {| req_query_tags := [("node", PStr "n1"); ("name", PStr "rate")];
               req_tags :=
                 PDict [("node", PDict [("uuid", PStr "n1"); ("kind", PStr "router")]);
                        ("name", PStr "rate")];
               req_downsamplers := default_downsamplers "numeric";
               req_highest_granularity := "seconds";
               req_value_type := "numeric";
               req_derive_from :=
                 Some [{| ds_name := Some (Some "reset"); ds_stream := Some 0 |};
                       {| ds_name := Some None; ds_stream := Some 1 |}];
               req_derive_op := Some "counter_derivative";
               req_derive_args := Some [("max_value", PNone)];
               req_derive_backprocess := None |}].
Proof.
  unfold rate_field.
  rewrite (derived_field_returns_store_answer kept_store lab 4
             (bare_base "rate" (default_downsamplers "numeric"))
             [{| ref_name := Some "reset"; ref_field := "#rx" |};
              {| ref_name := None; ref_field := "#tx" |}]
             "counter_derivative" [("max_value", PNone)] node_descriptor lab_world
             (for_each (derived_source lab (ensure_stream kept_store lab 4)
                          node_descriptor)
                [{| ref_name := Some "reset"; ref_field := "#rx" |};
                 {| ref_name := None; ref_field := "#tx" |}] lab_world).2
             [{| ds_name := Some (Some "reset"); ds_stream := Some 0 |};
              {| ds_name := Some None; ds_stream := Some 1 |}]
             [("node", PStr "n1"); ("name", PStr "rate")]
             (PDict [("node", PDict [("uuid", PStr "n1"); ("kind", PStr "router")]);
                     ("name", PStr "rate")]));
    [split; reflexivity | vm_compute; reflexivity ..].
Defined.

(** ** Tags: the error branches *)

Lemma for_items_stops {S A} (body : string → A → SE S unit)
    (pre post : list (string * A)) (k : string) (v : A) (s s1 s2 : S) (e : exn) :
  for_items body pre s = (Return (), s1) →
  body k v s1 = (Raise e, s2) →
  for_items body (pre ++ (k, v) :: post) s = (Raise e, s2).
Proof.
  revert s. induction pre as [|[k0 v0] pre IH]; intros s Hpre Hbody.
  - injection Hpre as <-. rewrite app_nil_l, for_items_cons.
    unfold mbind, se_bind. by rewrite Hbody.
  - rewrite <- app_comm_cons. rewrite for_items_cons in *. unfold mbind, se_bind in *.
    destruct (body k0 v0 s) as [[[]|e0] s0]; [|done]. by apply IH.
Qed.

(** X12: a selector of [reset_tags_to_default] that is neither a
    mapping nor [True] (so [False], [None], a number, a text, ...) makes
    the call raise [ValueError] when the loop reaches it; the tags reset
    before it stay reset. *)
Theorem reset_rejects_other_selectors (b : field_base)
    (pre post : list (string * pyval)) (tag : string) (a : atom) (h h1 : heap) :
  a ≠ ABool true →
  reset_tags_to_default b pre h = (Return (), h1) →
  reset_tags_to_default b (pre ++ (tag, PAtom a) :: post) h
    = (Raise (ValueError
                "Reset tag value should be either a dictionary or a boolean True."),
       h1).
Proof.
  unfold reset_tags_to_default. rewrite !reset_unfold. intros Ha Hpre.
  apply (for_items_stops _ pre post tag (PAtom a) h h1 h1 _ Hpre).
  unfold reset_body. by destruct a as [|[]| | | | |].
Qed.

Lemma reset_rejects_other_selectors_witness :
  reset_tags_to_default (bare_base "rx" None) [("initial_set", PAtom (ABool false))]
    bare_heap
  = (Raise (ValueError
              "Reset tag value should be either a dictionary or a boolean True."),
     bare_heap).
Proof.
  apply (reset_rejects_other_selectors (bare_base "rx" None) [] [] "initial_set"
           (ABool false) bare_heap bare_heap); [discriminate|reflexivity].
Defined.

(** X13: [set_tags] cannot put a mapping that is not empty over a tag
    that holds a leaf: [update] goes on inside the leaf, and the first
    item of the mapping raises [TypeError] (item assignment on the leaf)
    or, when it is a mapping itself, [AttributeError] (the leaf has no
    [get]). The overrides before it have been applied, the tag keeps its
    leaf. *)
Theorem set_tags_mapping_over_leaf_raises (b : field_base) (l : loc)
    (pre post inner : list (string * pyval)) (k k2 : string) (v2 : pyval) (a : atom)
    (h h1 : heap) :
  custom_tags b = VRef l →
  set_tags b pre h = (Return (), h1) →
  (h1 !!! l) !! k = Some (VAtom a) →
  set_tags b (pre ++ (k, PDict ((k2, v2) :: inner)) :: post) h
    = (Raise match v2 with
             | PDict _ => AttributeError
             | PAtom _ => TypeError
             end, h1).
Proof.
  unfold set_tags. intros -> Hpre Hleaf. rewrite update_unfold in *.
  assert (for_items (update_body (VRef l)) pre h = (Return (), h1)) as Hloop.
  { unfold mbind, se_bind in Hpre.
    destruct (for_items (update_body (VRef l)) pre h) as [[[]|e] h']; [|done].
    unfold mret, se_ret in Hpre. by injection Hpre as <-. }
  unfold mbind at 1. unfold se_bind at 1. unfold mbind at 1. unfold se_bind at 1.
  rewrite (for_items_stops _ pre post k (PDict ((k2, v2) :: inner)) h h1 h1
             match v2 with PDict _ => AttributeError | PAtom _ => TypeError end Hloop);
    [done|].
  unfold update_body. unfold mbind at 1. unfold se_bind at 1.
  unfold get_or_new. rewrite Hleaf. rewrite update_unfold, for_items_cons.
  unfold update_body. by destruct v2.
Qed.

Lemma set_tags_mapping_over_leaf_raises_witness :
  set_tags (bare_base "rx" None) [("unit", PDict [("scale", PInt 8)])]
    [{["unit" := VAtom (AStr "B")]}; ∅]
  = (Raise TypeError, [{["unit" := VAtom (AStr "B")]}; ∅]).
Proof.
  apply (set_tags_mapping_over_leaf_raises (bare_base "rx" None) 0
           [] [] [] "unit" "scale" (PInt 8) (AStr "B")
           [{["unit" := VAtom (AStr "B")]}; ∅] [{["unit" := VAtom (AStr "B")]}; ∅]);
    [reflexivity | reflexivity | reflexivity].
Defined.

(** ** Tag references: a path that does not resolve *)

Lemma omapM_stops {A B} (f : A → outcome B) (pre post : list A) (x : A)
    (ys : list B) (e : exn) :
  omapM f pre = Return ys → f x = Raise e → omapM f (pre ++ x :: post) = Raise e.
Proof.
  revert ys. induction pre as [|p pre IH]; intros ys Hpre Hx; simpl.
  - by rewrite Hx.
  - simpl in Hpre. destruct (f p) as [y|e']; simpl in *; [|done].
    destruct (omapM f pre) as [ys'|e']; simpl in *; [|done].
    by rewrite (IH ys').
Qed.

Lemma omapM_paired {A B} (f : A → outcome B) (xs : list A) (ys : list B) :
  omapM f xs = Return ys →
  omapM (λ x, obind (f x) (λ y, Return (x, y))) xs = Return (zip xs ys).
Proof.
  revert ys. induction xs as [|x xs IH]; intros ys H; simpl in *.
  - by injection H as <-.
  - destruct (f x) as [y|e]; simpl in *; [|done].
    destruct (omapM f xs) as [ys'|e]; simpl in *; [|done].
    injection H as <-. by rewrite (IH ys').
Qed.

Lemma reduce_getitem_app (p1 p2 : list string) (x : pyval) :
  reduce_getitem (p1 ++ p2) x = obind (reduce_getitem p1 x) (reduce_getitem p2).
Proof.
  revert x. induction p1 as [|y p1 IH]; intros x; simpl; [done|].
  destruct (getitem x y) as [v|e]; simpl; [apply IH|done].
Qed.

(** X14: a tag reference with a path that names a tag the descriptor
    does not have cannot be resolved, whatever its transform: when the
    paths before it resolve and some component of the path is missing
    from the dict that the components before it lead to, [resolve]
    raises [KeyError] with that component. Neither a callable nor a
    template is applied. *)
Theorem resolve_missing_tag_raises (env : environment) (pre post : list string)
    (ref : string) (tr : transform) (d : descriptor) (vs : list pyval)
    (p1 p2 : list string) (c : string) (m : list (string * pyval)) :
  omapM (λ ref, reduce_getitem (split "." ref) (PDict (get_stream_tags d))) pre
    = Return vs →
  split "." ref = p1 ++ c :: p2 →
  reduce_getitem p1 (PDict (get_stream_tags d)) = Return (PDict m) →
  dict_get c m = None →
  resolve env (pre ++ ref :: post) tr d = Raise (KeyError c).
Proof.
  intros Hpre Hsplit Hp1 Hc. unfold resolve, tag_values.
  rewrite (omapM_stops _ pre post ref (zip pre vs) (KeyError c)); [done| |].
  - by apply (omapM_paired
                (λ ref, reduce_getitem (split "." ref) (PDict (get_stream_tags d)))).
  - rewrite Hsplit, reduce_getitem_app, Hp1. simpl. by rewrite Hc.
Qed.

Lemma resolve_missing_tag_raises_witness :
  resolve lab ["node.uuid"; "node.site"] (Template "%(node.uuid)s") node_descriptor
  = Raise (KeyError "site").
Proof.
  apply (resolve_missing_tag_raises lab ["node.uuid"] [] "node.site"
           (Template "%(node.uuid)s") node_descriptor [PStr "n1"]
           ["node"] [] "site" [("uuid", PStr "n1"); ("kind", PStr "router")]);
    vm_compute; reflexivity.
Defined.

(** ** The tags of a request *)

(** X15: the query tags of a request are the descriptor's query tags
    with [name] set to the name of the field: a [name] among the
    descriptor's query tags is overwritten, every other one is kept. *)
Theorem process_tags_names_the_stream {St} (env : environment) (depth : nat)
    (type : option string) (b : field_base) (d : descriptor) (w w' : world St)
    (query_tags : list (string * pyval)) (tags : pyval) :
  process_tags env depth type b d w = (Return (query_tags, tags), w') →
  dict_get "name" query_tags = Some (name_value b) ∧
  ∀ k, k ≠ "name" → dict_get k query_tags = dict_get k (get_stream_query_tags d).
Proof.
  unfold process_tags, mbind, se_bind, read_heap, lift_outcome, mret, se_ret.
  destruct (prepare_tags depth type b (w_heap w)); [|done].
  destruct (_process_tag_references _ _ _); [|done].
  intros [= <- _ _]. unfold prepare_query_tags, dict_update. simpl. split.
  - rewrite dict_get_set. by rewrite decide_True.
  - intros k Hne. rewrite dict_get_set. by rewrite decide_False.
Qed.

Lemma process_tags_names_the_stream_witness :
  dict_get "name" [("node", PStr "n1"); ("name", PStr "rx")] = Some (PStr "rx") ∧
  ∀ k, k ≠ "name" →
    dict_get k [("node", PStr "n1"); ("name", PStr "rx")]
    = dict_get k (get_stream_query_tags node_descriptor).
Proof.
  apply (process_tags_names_the_stream lab 4 (Some "integer")
           (bare_base "rx" (Some [])) node_descriptor lab_world lab_world
           [("node", PStr "n1"); ("name", PStr "rx")]
           (PDict [("node", PDict [("uuid", PStr "n1"); ("kind", PStr "router")]);
                   ("name", PStr "rx"); ("type", PStr "integer")])).
  vm_compute. reflexivity.
Defined.

(** X16: the type tag of the class wins: when [prepare_tags] of a class
    with a type tag ([integer], [float], [multipoint]) returns, the tags
    hold that text under [type], whatever the custom tags hold there. *)
Theorem prepare_tags_type_wins (depth : nat) (t : string) (b : field_base)
    (h : heap) (tags : list (string * pyval)) :
  prepare_tags depth (Some t) b h = Return tags →
  dict_get "type" tags = Some (PStr t).
Proof.
  unfold prepare_tags. destruct (read_val depth h (custom_tags b)) as [[a|items]|e];
    simpl; try done.
  intros [= <-]. unfold dict_update at 1. simpl.
  rewrite dict_get_set. by rewrite decide_True.
Qed.

Lemma prepare_tags_type_wins_witness :
  dict_get "type" [("name", PStr "rx"); ("type", PStr "integer")]
  = Some (PStr "integer").
Proof.
  apply (prepare_tags_type_wins 4 "integer" (bare_base "rx" None)
           [{["type" := VAtom (AStr "counter")]}; ∅]).
  vm_compute. reflexivity.
Defined.

(** ** Values *)

Lemma omapM_py_int_ints (zs : list Z) : omapM py_int (PInt <$> zs) = Return zs.
Proof.
  induction zs as [|z zs IH]; [done|].
  rewrite fmap_cons. cbn [omapM]. rewrite IH. done.
Qed.

(** X17: [prepare_value] of the classes that convert with [int()] (and
    of those that convert nothing) gives values that it leaves as they
    are: preparing a prepared value again returns it unchanged. *)
Theorem prepare_value_idempotent (env : environment) (cls : field_class)
    (value prepared : pyval) :
  converts_by_int cls = true →
  prepare_value env cls value = Return prepared →
  prepare_value env cls prepared = Return prepared.
Proof.
  intros Hcls Hprep. destruct cls; try done; simpl in *.
  1-3: destruct (py_int value) as [z|e]; simpl in *; [|done]; by injection Hprep as <-.
  destruct (py_iter value) as [xs|e]; simpl in *; [|done].
  destruct (omapM py_int xs) as [zs|e]; simpl in *; [|done].
  injection Hprep as <-. simpl. by rewrite omapM_py_int_ints.
Qed.

Lemma prepare_value_idempotent_witness :
  prepare_value lab CIntegerArrayNominalField (PList [PInt 1; PInt 2])
  = Return (PList [PInt 1; PInt 2]).
Proof.
  apply (prepare_value_idempotent lab CIntegerArrayNominalField
           (PList [PFloat float_1_5; PStr " 2 "])); vm_compute; reflexivity.
Defined.

(** ** Constructors *)

Lemma Field_init_fields (depth : nat) (attr : option attribute_source)
    (tags : option (list (string * pyval))) (downsamplers : option (list string))
    (type : string) (h h1 : heap) (b : field_base) :
  Field_init depth attr tags downsamplers type h = (Return b, h1) →
  value_downsamplers b = match downsamplers with
                         | None => default_downsamplers type
                         | Some ds => Some ds
                         end.
Proof.
  unfold Field_init, mbind, se_bind, alloc_dict.
  destruct (deepcopy depth _ _) as [[v|e] h2]; [|done].
  by intros [= <- _].
Qed.

Lemma Field_init_kwargs_built (depth : nat) (kw : kwargs) (h : heap) :
  wf_dict (PDict (default [] (kw_tags kw))) = true →
  dict_depth (PDict (default [] (kw_tags kw))) ≤ depth →
  ∃ b h1,
    Field_init_kwargs depth kw h = (Return b, h1) ∧
    name b = None ∧ attribute b = kw_attribute kw ∧
    value_type b = default "numeric" (kw_value_type kw) ∧
    value_downsamplers b
      = match kw_value_downsamplers kw with
        | Some ds => Some ds
        | None => default_downsamplers (default "numeric" (kw_value_type kw))
        end ∧
    represents h1 (custom_tags b) (PDict (default [] (kw_tags kw))) ∧
    represents h1 (default_tags b) (PDict (default [] (kw_tags kw))).
Proof.
  intros Hwf Hdepth. unfold Field_init_kwargs.
  assert (Field_init depth (kw_attribute kw) (kw_tags kw) (kw_value_downsamplers kw)
            (default "numeric" (kw_value_type kw))
          = Field_init depth (kw_attribute kw) (Some (default [] (kw_tags kw)))
              (kw_value_downsamplers kw) (default "numeric" (kw_value_type kw))) as ->.
  { by destruct (kw_tags kw). }
  destruct (Field_init_shape depth (kw_attribute kw) (kw_value_downsamplers kw)
              (default "numeric" (kw_value_type kw)) (default [] (kw_tags kw)) h Hwf Hdepth)
    as (b & h1 & lc & mc & dt & Hinit & Hbc & Hbd & Hn & Ha & Hv & Huc & Hrepc & Htc
        & Hud & Hrepd & Hhd & Hdlocs & Hpre).
  exists b, h1. split_and!; try done.
  - rewrite (Field_init_fields _ _ _ _ _ _ _ _ Hinit). by destruct (kw_value_downsamplers kw).
  - rewrite Hbc. apply (holds_represents h1 (LDict lc mc)); [done| |done]. by destruct Htc.
  - rewrite Hbd. by apply (holds_represents h1 dt).
Qed.

(** X18: the typed constructors fix the value type, whatever the
    [value_type] keyword says: [numeric] for [IntegerField],
    [FloatField], [MultiPointField], [RateField] and [DynamicSumField],
    [graph] for [GraphField], [nominal] for the nominal classes and
    [ResetField]; [Field] and [DerivedField] keep the keyword (default
    [numeric]). Without a [value_downsamplers] keyword the field gets
    the downsamplers of its value type. A [ResetField] derives
    [counter_reset] from the one stream [reset], a [RateField]
    [counter_derivative] from [reset] and an unnamed stream with
    argument [max_value], a [DynamicSumField] starts without sources. *)
Theorem constructors_fix_value_type (depth : nat) (kw : kwargs) (h : heap)
    (locator other : string) (max_value : pyval) :
  wf_dict (PDict (default [] (kw_tags kw))) = true →
  dict_depth (PDict (default [] (kw_tags kw))) ≤ depth →
  let built := λ (r : outcome field * heap) (type : string) (shape : field → Prop),
    ∃ f h1, r = (Return f, h1) ∧ shape f ∧
      value_type (base f) = type ∧
      value_downsamplers (base f)
        = match kw_value_downsamplers kw with
          | Some ds => Some ds
          | None => default_downsamplers type
          end ∧
      represents h1 (custom_tags (base f)) (PDict (default [] (kw_tags kw))) in
  let plain := λ cls f, ∃ b, f = PlainField cls b in
  built (Field_new depth kw h) (default "numeric" (kw_value_type kw)) (plain CField) ∧
  built (IntegerField_new depth kw h) "numeric" (plain CIntegerField) ∧
  built (FloatField_new depth kw h) "numeric" (plain CFloatField) ∧
  built (MultiPointField_new depth kw h) "numeric" (plain CMultiPointField) ∧
  built (GraphField_new depth kw h) "graph" (plain CGraphField) ∧
  built (NominalField_new depth kw h) "nominal" (plain CNominalField) ∧
  built (IntegerNominalField_new depth kw h) "nominal" (plain CIntegerNominalField) ∧
  built (IntegerArrayNominalField_new depth kw h) "nominal"
    (plain CIntegerArrayNominalField) ∧
  built (ResetField_new depth locator kw h) "nominal"
    (λ f, ∃ b, f = DerivedField b [{| ref_name := Some "reset"; ref_field := locator |}]
                     "counter_reset" []) ∧
  built (RateField_new depth locator other max_value kw h) "numeric"
    (λ f, ∃ b, f = DerivedField b
                     [{| ref_name := Some "reset"; ref_field := locator |};
                      {| ref_name := None; ref_field := other |}]
                     "counter_derivative" [("max_value", max_value)]) ∧
  built (DynamicSumField_new depth kw h) "numeric"
    (λ f, ∃ b, f = DynamicSumField b []).
Proof.
  intros Hwf Hdepth built plain.
  assert (∀ type, ∃ b h1,
            Field_init_kwargs depth (with_value_type type kw) h = (Return b, h1) ∧
            value_type b = type ∧
            value_downsamplers b
              = match kw_value_downsamplers kw with
                | Some ds => Some ds
                | None => default_downsamplers type
                end ∧
            represents h1 (custom_tags b) (PDict (default [] (kw_tags kw)))) as Htyped.
  { intros type.
    destruct (Field_init_kwargs_built depth (with_value_type type kw) h Hwf Hdepth)
      as (b & h1 & Hinit & _ & _ & Hv & Hd & Hc & _).
    by exists b, h1. }
  assert (∀ type (wrap : field_base → field),
            (∀ b, base (wrap b) = b) →
            ∀ shape : field → Prop, (∀ b, shape (wrap b)) →
            built ((b ← Field_init_kwargs depth (with_value_type type kw); mret (wrap b)) h)
              type shape) as Hbuilt.
  { intros type wrap Hbase shape Hshape.
    destruct (Htyped type) as (b & h1 & Hinit & Hv & Hd & Hc).
    exists (wrap b), h1. rewrite Hbase. split_and!; try done.
    unfold mbind, se_bind. by rewrite Hinit. }
  split_and!.
  - destruct (Field_init_kwargs_built depth kw h Hwf Hdepth)
      as (b & h1 & Hinit & _ & _ & Hv & Hd & Hc & _).
    exists (PlainField CField b), h1. split_and!; try done.
    + unfold Field_new, mbind, se_bind. by rewrite Hinit.
    + by exists b.
  - apply (Hbuilt "numeric" (PlainField CIntegerField)); [done|]. intros b. by exists b.
  - apply (Hbuilt "numeric" (PlainField CFloatField)); [done|]. intros b. by exists b.
  - apply (Hbuilt "numeric" (PlainField CMultiPointField)); [done|]. intros b. by exists b.
  - apply (Hbuilt "graph" (PlainField CGraphField)); [done|]. intros b. by exists b.
  - apply (Hbuilt "nominal" (PlainField CNominalField)); [done|]. intros b. by exists b.
  - apply (Hbuilt "nominal" (PlainField CIntegerNominalField)); [done|].
    intros b. by exists b.
  - apply (Hbuilt "nominal" (PlainField CIntegerArrayNominalField)); [done|].
    intros b. by exists b.
  - apply (Hbuilt "nominal"
             (λ b, DerivedField b [{| ref_name := Some "reset"; ref_field := locator |}]
                     "counter_reset" [])); [done|]. intros b. by exists b.
  - apply (Hbuilt "numeric"
             (λ b, DerivedField b
                     [{| ref_name := Some "reset"; ref_field := locator |};
                      {| ref_name := None; ref_field := other |}]
                     "counter_derivative" [("max_value", max_value)])); [done|].
    intros b. by exists b.
  - apply (Hbuilt "numeric" (λ b, DynamicSumField b [])); [done|]. intros b. by exists b.
Qed.

Lemma constructors_fix_value_type_witness :
  ∃ f h1,
    IntegerField_new 10
      {| kw_attribute := None;
         kw_tags := Some [("unit", PStr "B")];
         kw_value_downsamplers := None;
         kw_value_type := Some "nominal" |} [] = (Return f, h1) ∧
    (∃ b, f = PlainField CIntegerField b) ∧
    value_type (base f) = "numeric" ∧
    value_downsamplers (base f) = default_downsamplers "numeric" ∧
    represents h1 (custom_tags (base f)) (PDict [("unit", PStr "B")]).
Proof.
  destruct (constructors_fix_value_type 10
              {| kw_attribute := None;
                 kw_tags := Some [("unit", PStr "B")];
                 kw_value_downsamplers := None;
                 kw_value_type := Some "nominal" |} [] "#rx" "#tx" PNone)
    as (_ & H & _); [vm_compute; reflexivity | simpl; lia | exact H].
Defined.

Lemma counter_tags_wf (tags tags' : list (string * pyval)) :
  wf_dict (PDict tags) = true → counter_tags tags = Return tags' →
  wf_dict (PDict tags') = true.
Proof.
  intros Hwf. unfold counter_tags.
  destruct (dict_get "visualization" tags) as [[a|vis]|] eqn:Hget; [done| |];
    intros [= <-]; apply wf_dict_set; try done.
  apply wf_dict_set; [|done].
  pose proof (wf_subdict tags "visualization" Hwf) as Hsub.
  unfold subdict in Hsub. by rewrite Hget in Hsub.
Qed.

(** X19: a [CounterField] is built with the tag
    [visualization.initial_set] set to [False], whatever the [tags]
    keyword holds there; the other tags, also those beside it under
    [visualization], are the ones given (none where the keyword is
    missing). Custom and default tags both hold the result. The value
    type is [numeric]. The value downsamplers are the empty list where
    the keyword [value_downsamplers] is missing, the downsamplers of
    [numeric] where it is passed as [None], and the ones given
    otherwise. With [tags] passed as [None] the constructor raises
    [AttributeError] and builds nothing. *)
Theorem CounterField_new_clears_initial_set (depth : nat) (kw : counter_kwargs)
    (h : heap) :
  (∀ tags tags',
     ckw_tags kw = None ∧ tags = [] ∨ ckw_tags kw = Some (Some tags) →
     wf_dict (PDict tags) = true →
     counter_tags tags = Return tags' →
     dict_depth (PDict tags') ≤ depth →
     ∃ b h1 visualization,
       CounterField_new depth kw h = (Return (PlainField CCounterField b), h1) ∧
       represents h1 (custom_tags b) (PDict tags') ∧
       represents h1 (default_tags b) (PDict tags') ∧
       dict_get "visualization" tags' = Some (PDict visualization) ∧
       dict_get "initial_set" visualization = Some (PAtom (ABool false)) ∧
       (∀ k, k ≠ "initial_set" →
             dict_get k visualization = dict_get k (subdict tags "visualization")) ∧
       (∀ k, k ≠ "visualization" → dict_get k tags' = dict_get k tags) ∧
       value_type b = "numeric" ∧
       value_downsamplers b
         = match ckw_value_downsamplers kw with
           | None => Some []
           | Some None => default_downsamplers "numeric"
           | Some (Some given) => Some given
           end) ∧
  (ckw_tags kw = Some None →
   CounterField_new depth kw h = (Raise AttributeError, h)).
Proof.
  split; last first.
  { intros Hnone. unfold CounterField_new, mbind, se_bind, lift_outcome.
    by rewrite Hnone. }
  intros tags tags' Hgiven Hwf Hcounter Hdepth.
  pose proof (counter_tags_wf _ _ Hwf Hcounter) as Hwf'.
  destruct (Field_init_kwargs_built depth
              {| kw_attribute := ckw_attribute kw;
                 kw_tags := Some tags';
                 kw_value_downsamplers :=
                   match ckw_value_downsamplers kw with
                   | None => Some []
                   | Some given => given
                   end;
                 kw_value_type := Some "numeric" |} h Hwf' Hdepth)
    as (b & h1 & Hinit & _ & _ & Hv & Hd & Hc & Hdef).
  cbn [kw_tags kw_value_downsamplers kw_value_type default] in *.
  assert (CounterField_new depth kw h = (Return (PlainField CCounterField b), h1)) as Hnew.
  { unfold CounterField_new, mbind, se_bind, lift_outcome.
    destruct Hgiven as [[-> ->]| ->]; rewrite Hcounter; by rewrite Hinit. }
  assert (value_downsamplers b
          = match ckw_value_downsamplers kw with
            | None => Some []
            | Some None => default_downsamplers "numeric"
            | Some (Some given) => Some given
            end) as Hdown.
  { rewrite Hd. by destruct (ckw_value_downsamplers kw) as [[given|]|]. }
  clear Hgiven. unfold counter_tags, subdict in *.
  destruct (dict_get "visualization" tags) as [[a|vis]|] eqn:Hget;
    [done| |]; injection Hcounter as <-.
  - exists b, h1, (dict_set "initial_set" (PAtom (ABool false)) vis).
    split_and!; try done.
    + rewrite dict_get_set. by rewrite decide_True.
    + rewrite dict_get_set. by rewrite decide_True.
    + intros k Hne. rewrite dict_get_set. by rewrite decide_False.
    + intros k Hne. rewrite dict_get_set. by rewrite decide_False.
  - exists b, h1, [("initial_set", PAtom (ABool false))].
    split_and!; try done.
    + rewrite dict_get_set. by rewrite decide_True.
    + intros k Hne. simpl. by destruct (String.eqb_spec k "initial_set").
    + intros k Hne. rewrite dict_get_set. by rewrite decide_False.
Qed.

Lemma CounterField_new_clears_initial_set_witness :
  ∃ b h1 visualization,
    CounterField_new 10
      {| ckw_attribute := None;
         ckw_tags := Some (Some [("visualization",
                                  PDict [("initial_set", PTrue); ("hidden", PTrue)])]);
         ckw_value_downsamplers := Some None |} []
      = (Return (PlainField CCounterField b), h1) ∧
    represents h1 (custom_tags b)
      (PDict [("visualization",
               PDict [("initial_set", PAtom (ABool false)); ("hidden", PTrue)])]) ∧
    represents h1 (default_tags b)
      (PDict [("visualization",
               PDict [("initial_set", PAtom (ABool false)); ("hidden", PTrue)])]) ∧
    dict_get "visualization"
      [("visualization",
        PDict [("initial_set", PAtom (ABool false)); ("hidden", PTrue)])]
      = Some (PDict visualization) ∧
    dict_get "initial_set" visualization = Some (PAtom (ABool false)) ∧
    (∀ k, k ≠ "initial_set" →
          dict_get k visualization
          = dict_get k
              (subdict [("visualization",
                         PDict [("initial_set", PTrue); ("hidden", PTrue)])]
                 "visualization")) ∧
    (∀ k, k ≠ "visualization" →
          dict_get k
            [("visualization",
              PDict [("initial_set", PAtom (ABool false)); ("hidden", PTrue)])]
          = dict_get k
              [("visualization", PDict [("initial_set", PTrue); ("hidden", PTrue)])]) ∧
    value_type b = "numeric" ∧
    value_downsamplers b
      = Some ["mean"; "sum"; "min"; "max"; "std_dev"; "count"].
Proof.
  destruct (CounterField_new_clears_initial_set 10
              {| ckw_attribute := None;
                 ckw_tags := Some (Some [("visualization",
                                          PDict [("initial_set", PTrue);
                                                 ("hidden", PTrue)])]);
                 ckw_value_downsamplers := Some None |} []) as [H _].
  apply (H [("visualization", PDict [("initial_set", PTrue); ("hidden", PTrue)])]
           [("visualization",
             PDict [("initial_set", PAtom (ABool false)); ("hidden", PTrue)])]);
    [by right | vm_compute; reflexivity | vm_compute; reflexivity | simpl; lia].
Defined.

(** ** Tags without references *)

Lemma pyval_deep_ind (P : pyval → Prop) :
  (∀ a, match a with AList _ => True | _ => P (PAtom a) end) →
  (∀ l, Forall P l → P (PList l)) →
  (∀ m, Forall (λ kv, P kv.2) m → P (PDict m)) →
  ∀ p, P p.
Proof.
  intros Ha Hl Hd. fix IH 1. intros [a|m].
  - destruct a as [|b|z|f|s|l|refs tr];
      try (by apply (Ha ANone) || by apply (Ha (ABool b)) || by apply (Ha (AInt z))
           || by apply (Ha (AFloat f)) || by apply (Ha (AStr s))
           || by apply (Ha (ATagRef refs tr))).
    apply Hl. induction l as [|x l IHl]; constructor; [apply IH | apply IHl].
  - apply Hd. induction m as [|[k v] m IHm]; constructor; [apply IH | apply IHm].
Qed.

(** X20: [_process_tag_references] changes nothing in tags that hold no
    [TagReference]: the result equals the tags given, for dicts and
    lists nested to any depth. *)
Theorem process_tag_references_keeps_plain_tags (env : environment)
    (tags : pyval) (d : descriptor) :
  ref_free tags = true → _process_tag_references env tags d = Return tags.
Proof.
  revert tags.
  apply (pyval_deep_ind
           (λ tags, ref_free tags = true → _process_tag_references env tags d = Return tags)).
  - intros a. by destruct a.
  - intros l IH Hfree. simpl in Hfree. simpl.
    assert ((fix elements (l : list pyval) : outcome (list pyval) :=
               match l with
               | [] => Return []
               | value :: l' =>
                   obind (_process_tag_references env value d) (λ v,
                     obind (elements l') (λ out, Return (v :: out)))
               end) l = Return l) as ->; [|done].
    induction IH as [|x l Hx _ IHl]; [done|].
    simpl in Hfree. apply andb_true_iff in Hfree as [Hfx Hfl].
    rewrite (Hx Hfx). simpl. by rewrite (IHl Hfl).
  - intros m IH Hfree. simpl in Hfree. apply andb_true_iff in Hfree as [Hnd Hfree].
    apply bool_decide_eq_true in Hnd. simpl.
    assert ((fix items (m : list (string * pyval)) : outcome (list (string * pyval)) :=
               match m with
               | [] => Return []
               | (key, value) :: m' =>
                   obind (_process_tag_references env value d) (λ v,
                     obind (items m') (λ out, Return ((key, v) :: out)))
               end) m = Return m) as ->.
    { clear Hnd. induction IH as [|[k x] m Hx _ IHm]; [done|].
      simpl in Hfree. apply andb_true_iff in Hfree as [Hfx Hfm].
      simpl in Hx. rewrite (Hx Hfx). simpl. by rewrite (IHm Hfm). }
    simpl. by rewrite dict_of_items_nodup.
Qed.

Lemma process_tag_references_keeps_plain_tags_witness :
  _process_tag_references lab
    (PDict [("node", PDict [("uuid", PStr "n1")]);
            ("labels", PList [PStr "a"; PDict [("b", PInt 1)]])])
    node_descriptor
  = Return (PDict [("node", PDict [("uuid", PStr "n1")]);
                   ("labels", PList [PStr "a"; PDict [("b", PInt 1)]])]).
Proof.
  apply process_tag_references_keeps_plain_tags. vm_compute. reflexivity.
Defined.

(** ** A default that is an empty mapping *)

Lemma dict_del_keys {A} (k : string) (m : list (string * A)) :
  (dict_del k m).*1 = filter (λ k', k' ≠ k) m.*1.
Proof.
  induction m as [|[k1 v1] m IH]; [done|]. cbn [dict_del].
  rewrite fmap_cons. cbn [fst]. rewrite filter_cons.
  destruct (String.eqb_spec k k1) as [->|Hne].
  - by rewrite decide_False by (by intros ?).
  - rewrite decide_True by done. rewrite fmap_cons. cbn [fst]. by rewrite IH.
Qed.

Lemma wf_dict_del (k : string) (m : list (string * pyval)) :
  wf_dict (PDict m) = true → wf_dict (PDict (dict_del k m)) = true.
Proof.
  rewrite !wf_dict_unfold. intros [Hnd Hwf]. split.
  - rewrite dict_del_keys. by apply NoDup_filter.
  - clear Hnd. induction m as [|[k1 v1] m IH]; [done|].
    simpl in Hwf. apply andb_true_iff in Hwf as [H1 H2]. cbn [dict_del].
    destruct (String.eqb_spec k k1); [by apply IH|].
    simpl. rewrite H1. by apply IH.
Qed.

Lemma lrep_empty_dict (c : ltree) :
  unshared c = true → lrep c (PDict []) → ∃ l, c = LDict l [].
Proof.
  intros Hu Hrep. destruct (lrep_dict_inv c [] Hu Hrep) as (l & mc & ->).
  exists l. f_equal. by apply (lrep_nil l mc []).
Qed.

(** X21: a selector that is a mapping takes an empty branch away even
    where the defaults have it. On a field right after construction
    whose tags hold an empty mapping under [k], resetting with the
    selector [{k: {}}] returns and the custom tags have lost [k], while
    the default tags still hold it: the custom tags are not reset to the
    defaults there. *)
Theorem reset_drops_empty_default_branch (depth : nat)
    (attr : option attribute_source) (downsamplers : option (list string))
    (type : string) (tags : list (string * pyval)) (k : string) (h : heap) :
  wf_dict (PDict tags) = true →
  dict_depth (PDict tags) ≤ depth →
  dict_get k tags = Some (PDict []) →
  ∃ b h1 h2,
    Field_init depth attr (Some tags) downsamplers type h = (Return b, h1) ∧
    reset_tags_to_default b [(k, PDict [])] h1 = (Return (), h2) ∧
    represents h2 (custom_tags b) (PDict (dict_del k tags)) ∧
    represents h2 (default_tags b) (PDict tags).
Proof.
  intros Hwf Hdepth Hk.
  destruct (Field_init_shape depth attr downsamplers type tags h Hwf Hdepth)
    as (b & h1 & lc & mc & dt & Hinit & Hbc & Hbd & _ & _ & _ & Huc & Hrepc & Htc
        & Hud & Hrepd & Hhd & Hdlocs & _).
  destruct (lrep_unshared_dict dt tags Hud Hrepd) as (ld & md & -> & Hslotsd).
  destruct (lrep_unshared_dict _ tags Huc Hrepc) as (? & ? & [= <- <-] & Hslotsc).
  (* the branch under [k], among the custom and the default tags *)
  pose proof (Hslotsc k) as Hc. rewrite Hk in Hc.
  inversion Hc as [c ? Hrc Hgetc|]; subst. symmetry in Hgetc.
  pose proof (Hslotsd k) as Hd. rewrite Hk in Hd.
  inversion Hd as [cd ? Hrd Hgetd|]; subst. symmetry in Hgetd.
  destruct (lrep_empty_dict c) as [lk ->]; [|done|].
  { apply (unshared_child lc mc k); [done|by apply dict_get_elem]. }
  destruct (lrep_empty_dict cd) as [ldk ->]; [|done|].
  { apply (unshared_child ld md k); [done|by apply dict_get_elem]. }
  pose proof Htc as (Hhc & _ & _).
  pose proof Hhc as [Hnodec Hchildc]%holds_dict.
  pose proof Hhd as [Hnoded _]%holds_dict.
  assert (h1 !! lk = Some (dict_of [])) as Hnodek.
  { assert (holds h1 (LDict lk [])) as [Hx _]%holds_dict; [|done].
    apply (Hchildc k). by apply dict_get_elem. }
  destruct (renode h1 h1 lc mc [] k [] (all_locs (LDict ld md)))
    as (_ & Ht3 & _ & Hg3); try done.
  { intros l0 Hl0. by apply unshared_borrowed in Hl0. }
  { by intros ? ? ?%elem_of_nil. }
  { apply NoDup_nil_2. }
  { apply grown_refl. by intros ? ?%elem_of_nil. }
  { by intros ? ?%elem_of_nil. }
  rewrite app_nil_l in Ht3, Hg3.
  exists b, h1, (<[lc := dict_of (dict_del k mc)]> h1). split_and!.
  - done.
  - unfold reset_tags_to_default. rewrite Hbc, Hbd. cbn [root].
    rewrite reset_unfold, for_items_cons.
    assert (reset_body (VRef lc) (VRef ld) k (PDict []) h1
            = (Return (), <[lc := dict_of (dict_del k mc)]> h1)) as Hbody;
      [|by erewrite bind_return].
    unfold reset_body.
    erewrite bind_return; [|by apply (get_or_new_present h1 ld md k Hnoded (LDict ldk []))].
    cbn [root is_mapping].
    erewrite bind_return; [|by apply (setdefault_present h1 lc mc k Hnodec (LDict lk []))].
    cbn [root]. erewrite bind_return; [|reflexivity].
    erewrite bind_return; [|by apply (falsy_node h1 lk [] Hnodek)].
    rewrite bool_decide_eq_true_2 by done.
    by apply (delitem_node h1 lc mc k Hnodec (LDict lk [])).
  - rewrite Hbc. apply (holds_represents _ (LDict lc (dict_del k mc))).
    + by apply wf_dict_del.
    + by destruct Ht3.
    + constructor. intros k'. rewrite !dict_get_del. case_decide; [constructor|done].
  - rewrite Hbd. apply (holds_represents _ (LDict ld md)); [done| |done].
    destruct Hg3 as (_ & _ & _ & GF).
    apply (holds_frame h1); [done|]. intros l0 Hl0.
    destruct (Hdlocs l0 Hl0) as [Hlt Hnot]. by apply GF.
Qed.

Lemma reset_drops_empty_default_branch_witness :
  ∃ b h1 h2,
    Field_init 10 None (Some [("unit", PStr "B"); ("visualization", PDict [])])
      None "numeric" [] = (Return b, h1) ∧
    reset_tags_to_default b [("visualization", PDict [])] h1 = (Return (), h2) ∧
    represents h2 (custom_tags b) (PDict [("unit", PStr "B")]) ∧
    represents h2 (default_tags b)
      (PDict [("unit", PStr "B"); ("visualization", PDict [])]).
Proof.
  apply (reset_drops_empty_default_branch 10 None None "numeric"
           [("unit", PStr "B"); ("visualization", PDict [])] "visualization" []);
    [vm_compute; reflexivity | simpl; lia | reflexivity].
Defined.

(** ** Tag references with a callable, or without a path *)

(** X22: a tag reference with a callable transform and distinct paths
    that all resolve returns what the callable returns for the
    descriptor's model and the resolved values keyed by path, for any
    number of paths: also a single value goes through the callable, and
    with no path at all the callable is called without values. Without
    any path and without a transform, [resolve] raises [ValueError]. *)
Theorem resolve_applies_callable (env : environment) (tags : list string)
    (c : nat) (d : descriptor) (vs : list pyval) :
  NoDup tags →
  omapM (λ ref, reduce_getitem (split "." ref) (PDict (get_stream_tags d))) tags
    = Return vs →
  resolve env tags (Callable c) d = call_transform env c (get_model d) (zip tags vs) ∧
  resolve env [] (Callable c) d = call_transform env c (get_model d) [] ∧
  resolve env [] NoTransform d
    = Raise (ValueError "Multiple tags specified without transform callable!").
Proof.
  intros Hnd Hvs. destruct (tag_values_distinct tags d vs Hnd Hvs) as [Htv _].
  unfold resolve. by rewrite Htv.
Qed.

Lemma resolve_applies_callable_witness :
  resolve lab ["node.uuid"] (Callable 0) node_descriptor
  = Return (PDict [("node.uuid", PStr "n1")]).
Proof.
  destruct (resolve_applies_callable lab ["node.uuid"] 0 node_descriptor [PStr "n1"])
    as (H & _).
  - apply (bool_decide_unpack _). vm_compute. reflexivity.
  - vm_compute. reflexivity.
  - rewrite H. reflexivity.
Defined.

(** ** Dynamic aggregate fields: the other answers of the store *)

(** X23: a [DynamicSumField] reconciles once and only on
    [InconsistentStreamConfiguration]. With the sources ensured and the
    tags resolved: any other error of the first request ends
    [ensure_stream] with that error and nothing is deleted; an error of
    [delete_streams] ends it after the delete, with no second request;
    an error of the second request, [InconsistentStreamConfiguration]
    included, ends it after that request, which is not repeated. *)
Theorem dynamic_sum_reconciles_once {St} (stream : store_api St) (env : environment)
    (depth : nat) (b : field_base) (sources : list (field * descriptor))
    (d : descriptor) (w w1 : world St) (streams : list derive_source)
    (query_tags : list (string * pyval)) (tags : pyval) :
  sources ≠ [] →
  for_each (sum_source (ensure_stream stream env depth)) sources w
    = (Return streams, w1) →
  process_tags env depth None b d w1 = (Return (query_tags, tags), w1) →
  let first := sum_request b d query_tags tags streams None in
  let again := sum_request b d query_tags tags streams (Some false) in
  let ends_with := λ (e : exn) (s : St) (calls : list store_call),
    ensure_stream stream env (S depth) (DynamicSumField b sources) d w
    = (Raise e, {| w_heap := w_heap w1; w_store := s;
                   w_trace := w_trace w1 ++ calls |}) in
  (∀ e s2,
     api_ensure_stream stream first (w_store w1) = (Raise e, s2) →
     e ≠ InconsistentStreamConfiguration →
     ends_with e s2 [CallEnsure first]) ∧
  (∀ e s2 s3,
     api_ensure_stream stream first (w_store w1)
       = (Raise InconsistentStreamConfiguration, s2) →
     api_delete_streams stream query_tags s2 = (Raise e, s3) →
     ends_with e s3 [CallEnsure first; CallDelete query_tags]) ∧
  (∀ e s2 s3 s4,
     api_ensure_stream stream first (w_store w1)
       = (Raise InconsistentStreamConfiguration, s2) →
     api_delete_streams stream query_tags s2 = (Return (), s3) →
     api_ensure_stream stream again s3 = (Raise e, s4) →
     ends_with e s4 [CallEnsure first; CallDelete query_tags; CallEnsure again]).
Proof.
  intros Hne Hsrc Htags first again ends_with.
  assert (∃ s0 ss, streams = s0 :: ss) as (s0 & ss & ->).
  { destruct streams as [|s0 ss]; [|by eexists _, _].
    destruct sources as [|src sources]; [done|].
    simpl in Hsrc. unfold mbind, se_bind in Hsrc.
    destruct (sum_source _ src w) as [[y|e] w']; [|done].
    by destruct (for_each _ sources w') as [[ys|e] w'']. }
  assert (∀ r, ensure_stream stream env (S depth) (DynamicSumField b sources) d w = r ↔
               (sid ← try_except_inconsistent
                         (stream_ensure_stream stream first)
                         (_ ← stream_delete_streams stream query_tags;
                          stream_ensure_stream stream again);
                mret (Some sid)) w1 = r) as Hrun.
  { intros r. cbn [ensure_stream].
    unfold mbind at 1. unfold se_bind at 1. rewrite Hsrc.
    unfold mbind at 1. unfold se_bind at 1. by rewrite Htags. }
  unfold ends_with. split_and!.
  - intros e s2 H1 He. apply Hrun.
    unfold mbind, se_bind, try_except_inconsistent, stream_ensure_stream.
    rewrite H1. by destruct e.
  - intros e s2 s3 H1 H2. apply Hrun.
    unfold mbind, se_bind, try_except_inconsistent, stream_ensure_stream,
      stream_delete_streams.
    rewrite H1. cbn [w_store w_heap w_trace]. rewrite H2.
    by rewrite <- !app_assoc.
  - intros e s2 s3 s4 H1 H2 H3. apply Hrun.
    unfold mbind, se_bind, try_except_inconsistent, stream_ensure_stream,
      stream_delete_streams.
    rewrite H1. cbn [w_store w_heap w_trace]. rewrite H2.
    cbn [w_store w_heap w_trace]. rewrite H3.
    by rewrite <- !app_assoc.
Qed.

Lemma dynamic_sum_reconciles_once_witness :
  let w1 := (ensure_stream picky_store lab 4 rx_field node_descriptor lab_world).2 in
  let first :=
    sum_request (bare_base "total" (default_downsamplers "numeric")) node_descriptor
      [("node", PStr "n1"); ("name", PStr "total")]
      (PDict [("node", PDict [("uuid", PStr "n1"); ("kind", PStr "router")]);
              ("name", PStr "total")])
      [{| ds_name := None; ds_stream := Some 0 |}] None in
  ensure_stream picky_store lab 5 (total_field [(rx_field, node_descriptor)])
    node_descriptor lab_world
  = (Raise (StoreFailure 2),
     {| w_heap := w_heap w1; w_store := w_store w1;
        w_trace := w_trace w1 ++ [CallEnsure first] |}).
Proof.
  intros w1 first.
  destruct (dynamic_sum_reconciles_once picky_store lab 4
              (bare_base "total" (default_downsamplers "numeric"))
              [(rx_field, node_descriptor)] node_descriptor lab_world w1
              [{| ds_name := None; ds_stream := Some 0 |}]
              [("node", PStr "n1"); ("name", PStr "total")]
              (PDict [("node", PDict [("uuid", PStr "n1"); ("kind", PStr "router")]);
                      ("name", PStr "total")]))
    as (H & _).
  - discriminate.
  - vm_compute. reflexivity.
  - vm_compute. reflexivity.
  - apply (H (StoreFailure 2) (w_store w1)); [vm_compute; reflexivity|discriminate].
Defined.

(** ** A derived field that names itself *)

(** X24: a [DerivedField] whose first source locator leads back to the
    field itself never reaches the store: [ensure_stream] calls itself
    until the recursion depth is used up and raises [RuntimeError],
    whatever depth is at hand, and the log of store calls is as it
    was. *)
Theorem self_derived_field_overflows {St} (stream : store_api St)
    (env : environment) (b : field_base) (first : field_ref)
    (rest : list field_ref) (op : string) (args : list (string * pyval))
    (d : descriptor) (n : string) :
  split "#" (ref_field first) = [""; n] →
  pool_get_descriptor env (get_model d) = Return d →
  descriptor_get_field env d n = Some (DerivedField b (first :: rest) op args) →
  ∀ depth (w : world St),
    ensure_stream stream env depth (DerivedField b (first :: rest) op args) d w
    = (Raise RuntimeError, w).
Proof.
  intros Hsplit Hpool Hfield. induction depth as [|depth IH]; intros w; [done|].
  cbn [ensure_stream]. unfold mbind at 1. unfold se_bind at 1.
  rewrite (for_each_stops _ [] rest first w w w [] RuntimeError); [done|done|].
  unfold derived_source. rewrite Hsplit. cbn [String.eqb].
  unfold mbind, se_bind, lift_outcome, mret, se_ret. rewrite Hpool, Hfield.
  by rewrite IH.
Qed.

Lemma self_derived_field_overflows_witness :
  ensure_stream kept_store loop_lab 50 loop_field node_descriptor lab_world
  = (Raise RuntimeError, lab_world).
Proof.
  apply (self_derived_field_overflows kept_store loop_lab (bare_base "loop" None)
           {| ref_name := None; ref_field := "#loop" |} [] "counter_reset" []
           node_descriptor "loop"); reflexivity.
Defined.

(** ** Custom tags and the name *)

Lemma omapM_keyed {A B} (g : A → outcome B) (xs : list (string * A))
    (ys : list (string * B)) :
  omapM (λ kv, obind (g kv.2) (λ p, Return (kv.1, p))) xs = Return ys →
  ys.*1 = xs.*1 ∧ ∀ k v, (k, v) ∈ xs → ∃ p, g v = Return p ∧ (k, p) ∈ ys.
Proof.
  revert ys. induction xs as [|[k0 v0] xs IH]; intros ys H; simpl in H.
  - injection H as <-. split; [done|]. by intros ? ? ?%elem_of_nil.
  - destruct (g v0) as [p0|e] eqn:Hg; simpl in H; [|done].
    destruct (omapM _ xs) as [ys'|e]; simpl in H; [|done].
    injection H as <-. destruct (IH ys' eq_refl) as [Hkeys Hin].
    split; [by rewrite !fmap_cons, Hkeys|].
    intros k v [[= -> ->]|Hx]%elem_of_cons.
    + exists p0. split; [done|by left].
    + destruct (Hin k v Hx) as (p & Hp & Hy). exists p. split; [done|by right].
Qed.

Lemma read_val_lookup (depth : nat) (h : heap) (l : loc)
    (items : list (string * pyval)) :
  read_val depth h (VRef l) = Return (PDict items) →
  NoDup items.*1 ∧
  (∀ k a, (h !!! l) !! k = Some (VAtom a) → dict_get k items = Some (PAtom a)) ∧
  (∀ k, (h !!! l) !! k = None → dict_get k items = None).
Proof.
  destruct depth as [|depth]; [done|]. cbn [read_val].
  destruct (omapM _ (map_to_list (h !!! l))) as [ys|e] eqn:Hys; simpl; [|done].
  intros [= <-].
  apply (omapM_keyed (read_val depth h)) in Hys as [Hkeys Hin].
  assert (NoDup ys.*1) as Hnd by (rewrite Hkeys; apply NoDup_fst_map_to_list).
  split_and!; [done| |].
  - intros k a Hk. apply elem_of_map_to_list in Hk.
    destruct (Hin k (VAtom a) Hk) as (p & Hp & Hy).
    destruct depth; simpl in Hp; injection Hp as <-; by apply dict_get_nodup.
  - intros k Hk. apply dict_get_none. rewrite Hkeys. intros Hx.
    apply list_elem_of_fmap in Hx as ([k' v] & -> & Hx).
    apply elem_of_map_to_list in Hx. simpl in Hk. congruence.
Qed.

Lemma dict_update_get (items : list (string * pyval)) :
  NoDup items.*1 → ∀ m k,
    dict_get k (dict_update m items)
    = match dict_get k items with
      | Some v => Some v
      | None => dict_get k m
      end.
Proof.
  unfold dict_update.
  induction items as [|[k1 v1] items IH]; intros Hnd m k; [done|].
  rewrite fmap_cons in Hnd. apply NoDup_cons in Hnd as [Hk1 Hnd].
  cbn [fold_left fst snd dict_get]. rewrite (IH Hnd), dict_get_set.
  destruct (String.eqb_spec k k1) as [->|Hne].
  - rewrite (proj2 (dict_get_none k1 items) Hk1). by rewrite decide_True.
  - by rewrite decide_False.
Qed.

(** X25: the custom tags are laid over the name. When [prepare_tags]
    returns, a leaf that the custom tags hold under a key is in the tags
    under that key, unless the class puts its type tag there; if the
    key is [name], it has replaced the name of the field. The tags
    carry the field's name only where the custom tags have no [name]. *)
Theorem prepare_tags_custom_over_name (depth : nat) (type : option string)
    (b : field_base) (h : heap) (l : loc) (tags : list (string * pyval)) :
  custom_tags b = VRef l →
  prepare_tags depth type b h = Return tags →
  (∀ k a, (h !!! l) !! k = Some (VAtom a) → type = None ∨ k ≠ "type" →
          dict_get k tags = Some (PAtom a)) ∧
  ((h !!! l) !! "name" = None → dict_get "name" tags = Some (name_value b)).
Proof.
  intros Hb. unfold prepare_tags. rewrite Hb.
  destruct (read_val depth h (VRef l)) as [[a|items]|e] eqn:Hread; simpl; try done.
  destruct (read_val_lookup depth h l items Hread) as (Hnd & Hleaf & Hnone).
  assert (∀ k, dict_get k (dict_update [("name", name_value b)] items)
               = match dict_get k items with
                 | Some v => Some v
                 | None => dict_get k [("name", name_value b)]
                 end) as Hcombined.
  { intros k. by apply dict_update_get. }
  intros [= <-]. split.
  - intros k a Hk Htype. destruct type as [t|].
    + destruct Htype as [|Hne]; [done|].
      unfold dict_update at 1. simpl. rewrite dict_get_set, decide_False by done.
      by rewrite Hcombined, (Hleaf k a Hk).
    + by rewrite Hcombined, (Hleaf k a Hk).
  - intros Hname. destruct type as [t|].
    + unfold dict_update at 1. simpl. rewrite dict_get_set, decide_False by done.
      by rewrite Hcombined, (Hnone "name" Hname).
    + by rewrite Hcombined, (Hnone "name" Hname).
Qed.

Lemma prepare_tags_custom_over_name_witness :
  (∀ k a, (renamed_heap !!! 0) !! k = Some (VAtom a) →
          Some "integer" = None ∨ k ≠ "type" →
          dict_get k [("name", PStr "download"); ("type", PStr "integer")]
          = Some (PAtom a)) ∧
  ((renamed_heap !!! 0) !! "name" = None →
   dict_get "name" [("name", PStr "download"); ("type", PStr "integer")]
   = Some (name_value (bare_base "rx" None))).
Proof.
  apply (prepare_tags_custom_over_name 4 (Some "integer") (bare_base "rx" None)
           renamed_heap 0 [("name", PStr "download"); ("type", PStr "integer")]).
  - reflexivity.
  - vm_compute. reflexivity.
Defined.

(** ** Adding a source to a dynamic aggregate *)

Lemma for_each_snoc {S A B} (body : A → SE S B) (xs : list A) (x : A)
    (s s1 s2 : S) (ys : list B) (y : B) :
  for_each body xs s = (Return ys, s1) →
  body x s1 = (Return y, s2) →
  for_each body (xs ++ [x]) s = (Return (ys ++ [y]), s2).
Proof.
  revert s ys. induction xs as [|p xs IH]; intros s ys Hxs Hx.
  - injection Hxs as <- <-. rewrite app_nil_l.
    change (for_each body [x]) with (y ← body x; ys ← for_each body []; mret (y :: ys)).
    unfold mbind, se_bind. by rewrite Hx.
  - rewrite <- app_comm_cons.
    change (for_each body (p :: ?l))
      with (y ← body p; ys ← for_each body l; mret (y :: ys)) in *.
    unfold mbind, se_bind in *.
    destruct (body p s) as [[y0|e] s0]; [|done].
    destruct (for_each body xs s0) as [[ys0|e] s0'] eqn:Hrest; [|done].
    injection Hxs as <- <-. by rewrite (IH s0 ys0 Hrest Hx).
Qed.

(** X26: [add_source_field] puts the new source last. The sum over the
    extended list ensures the sources it had, in their order, then the
    new source on the descriptor it was added with, and its request
    lists the stream of the new source after the others. *)
Theorem add_source_field_appends_input {St} (stream : store_api St)
    (env : environment) (depth : nat) (b : field_base)
    (fields : list (field * descriptor)) (src : field) (src_descriptor d : descriptor)
    (w w1 w2 : world St) (streams : list derive_source) (sid : option stream_id)
    (query_tags : list (string * pyval)) (tags : pyval) (total : stream_id) (s3 : St) :
  for_each (sum_source (ensure_stream stream env depth)) fields w
    = (Return streams, w1) →
  ensure_stream stream env depth src src_descriptor w1 = (Return sid, w2) →
  process_tags env depth None b d w2 = (Return (query_tags, tags), w2) →
  let request :=
    sum_request b d query_tags tags
      (streams ++ [{| ds_name := None; ds_stream := sid |}]) None in
  api_ensure_stream stream request (w_store w2) = (Return total, s3) →
  ensure_stream stream env (S depth)
    (add_source_field (DynamicSumField b fields) src src_descriptor) d w
  = (Return (Some total),
     {| w_heap := w_heap w2; w_store := s3;
        w_trace := w_trace w2 ++ [CallEnsure request] |}).
Proof.
  intros Hfields Hsrc Htags request Hstore. cbn [add_source_field ensure_stream].
  unfold mbind at 1. unfold se_bind at 1.
  rewrite (for_each_snoc _ fields (src, src_descriptor) w w1 w2 streams
             {| ds_name := None; ds_stream := sid |} Hfields); last first.
  { unfold sum_source, mbind, se_bind. cbn [fst snd]. by rewrite Hsrc. }
  destruct (streams ++ [{| ds_name := None; ds_stream := sid |}]) as [|s0 ss] eqn:Hs.
  { by destruct streams. }
  unfold mbind at 1. unfold se_bind at 1. rewrite Htags.
  unfold mbind, se_bind, try_except_inconsistent, stream_ensure_stream.
  fold request. by rewrite Hstore.
Qed.

Lemma add_source_field_appends_input_witness :
  (ensure_stream kept_store lab 5
     (add_source_field (total_field [(rx_field, node_descriptor)]) tx_field
        peer_descriptor)
     node_descriptor lab_world).1 = Return (Some 2) ∧
  List.last
    (w_trace (ensure_stream kept_store lab 5
                (add_source_field (total_field [(rx_field, node_descriptor)]) tx_field
                   peer_descriptor)
                node_descriptor lab_world).2)
    (CallDelete [])
  = CallEnsure
      (sum_request (bare_base "total" (default_downsamplers "numeric")) node_descriptor
         [("node", PStr "n1"); ("name", PStr "total")]
         (PDict [("node", PDict [("uuid", PStr "n1"); ("kind", PStr "router")]);
                 ("name", PStr "total")])
         [{| ds_name := None; ds_stream := Some 0 |};
          {| ds_name := None; ds_stream := Some 1 |}] None).
Proof.
  unfold total_field.
  rewrite (add_source_field_appends_input kept_store lab 4
             (bare_base "total" (default_downsamplers "numeric"))
             [(rx_field, node_descriptor)] tx_field peer_descriptor node_descriptor
             lab_world
             (ensure_stream kept_store lab 4 rx_field node_descriptor lab_world).2
             (ensure_stream kept_store lab 4 tx_field peer_descriptor
                (ensure_stream kept_store lab 4 rx_field node_descriptor lab_world).2).2
             [{| ds_name := None; ds_stream := Some 0 |}] (Some 1)
             [("node", PStr "n1"); ("name", PStr "total")]
             (PDict [("node", PDict [("uuid", PStr "n1"); ("kind", PStr "router")]);
                     ("name", PStr "total")])
             2
             {| next_id := 3;
                live := [{| ks_id := 0; ks_key := "rx"; ks_inputs := [] |};
                         {| ks_id := 1; ks_key := "tx"; ks_inputs := [] |};
                         {| ks_id := 2; ks_key := "total";
                            ks_inputs := [Some 0; Some 1] |}] |});
    [split; vm_compute; reflexivity | vm_compute; reflexivity ..].
Defined.
